(** * optimize_questions.py: a shallow embedding and its verified properties

    The script enriches a list of exam-question records (Python dicts
    loaded from [questions.json]) with two generated fields,
    [legalReference] and [analysis].  This development embeds the filter
    of [main], the response parser [clean_json_response], the prompt
    builders, the worker [process_one], the persistence helper
    [save_questions] and the merge loop of [main], and proves the
    properties stated about them.

    Conventions.  A Python [str] is a list of Unicode code points; a value
    produced by [json.load] is a [json] tree; a Python [dict] is an
    association list in insertion order without duplicate keys (the order
    is what [json.dump] writes back).  A function that can raise returns
    a [res]. *)

From Stdlib Require Import ZArith NArith List Lia Bool.
From stdpp Require Import base option list numbers strings gmap.
Import ListNotations.

Local Open Scope N_scope.

(** ** Strings *)

(** A character is its code point, a string the list of its characters. *)
Abbreviation char := N (only parsing).
Abbreviation str := (list N) (only parsing).

(** Code points of the ASCII characters the program looks at. *)
Definition c_tab : char := 9.
Definition c_lf : char := 10.
Definition c_cr : char := 13.
Definition c_space : char := 32.
Definition c_quote : char := 34.
Definition c_plus : char := 43.
Definition c_comma : char := 44.
Definition c_minus : char := 45.
Definition c_dot : char := 46.
Definition c_slash : char := 47.
Definition c_zero : char := 48.
Definition c_colon : char := 58.
Definition c_lbracket : char := 91.
Definition c_backslash : char := 92.
Definition c_rbracket : char := 93.
Definition c_backtick : char := 96.
Definition c_lbrace : char := 123.
Definition c_rbrace : char := 125.

(** Decoding of a UTF-8 byte sequence, used to write the program's string
    literals in this file as they are in the source. *)
Fixpoint utf8_decode (bs : list N) : str :=
  match bs with
  | [] => []
  | b :: r =>
      if b <? 128 then b :: utf8_decode r
      else if b <? 224 then
        match r with
        | b1 :: r1 => ((b - 192) * 64 + (b1 - 128)) :: utf8_decode r1
        | _ => []
        end
      else if b <? 240 then
        match r with
        | b1 :: b2 :: r2 =>
            ((b - 224) * 4096 + (b1 - 128) * 64 + (b2 - 128)) :: utf8_decode r2
        | _ => []
        end
      else
        match r with
        | b1 :: b2 :: b3 :: r3 =>
            ((b - 240) * 262144 + (b1 - 128) * 4096 + (b2 - 128) * 64 + (b3 - 128))
              :: utf8_decode r3
        | _ => []
        end
  end.

Fixpoint bytes_of_string (s : String.string) : list N :=
  match s with
  | String.EmptyString => []
  | String.String a r => Ascii.N_of_ascii a :: bytes_of_string r
  end.

Definition lit (s : String.string) : str := utf8_decode (bytes_of_string s).
Arguments lit s%_string : simpl never.

Definition str_eqb (a b : str) : bool := bool_decide (a = b).

(** [a.startswith(p)] and the rest after the prefix. *)
Fixpoint strip_prefix (p s : str) : option str :=
  match p, s with
  | [], _ => Some s
  | x :: p', y :: s' => if x =? y then strip_prefix p' s' else None
  | _ :: _, [] => None
  end.

(** [p in s] for two strings: substring test. *)
Fixpoint is_infix (p s : str) : bool :=
  match strip_prefix p s with
  | Some _ => true
  | None => match s with [] => false | _ :: s' => is_infix p s' end
  end.

(** ** Values loaded from JSON *)

#[local] Unset Elimination Schemes.
Inductive json : Type :=
| JNull
| JBool (b : bool)
| JInt (z : Z)
| JFloat (literal : str)
| JStr (s : str)
| JArr (l : list json)
| JObj (d : list (str * json)).
#[local] Set Elimination Schemes.

(** A Python dict with string keys, in insertion order. *)
Definition dict : Type := list (str * json).

Fixpoint dict_get (k : str) (d : dict) : option json :=
  match d with
  | [] => None
  | (k', v) :: d' => if str_eqb k k' then Some v else dict_get k d'
  end.

(** [d[k] = v]: an existing key keeps its position, a new key goes last. *)
Fixpoint dict_set (k : str) (v : json) (d : dict) : dict :=
  match d with
  | [] => [(k, v)]
  | (k', v') :: d' =>
      if str_eqb k k' then (k, v) :: d' else (k', v') :: dict_set k v d'
  end.

Definition dict_has (k : str) (d : dict) : bool :=
  match dict_get k d with Some _ => true | None => false end.

(** [d.get(k, default)] *)
Definition dict_get_default (k : str) (default : json) (d : dict) : json :=
  match dict_get k d with Some v => v | None => default end.

(** ** Exceptions *)

Inductive exn : Type :=
| KeyError (k : json)
| IndexError
| TypeError
| AttributeError
| ValueError (msg : str)
| FileNotFoundError
| APIError (msg : str)
| SystemExit (code : nat).

Inductive res (A : Type) : Type :=
| Ok (a : A)
| Raise (e : exn).
Arguments Ok {A} a.
Arguments Raise {A} e.

#[global] Instance res_ret : MRet res := fun A a => Ok a.
#[global] Instance res_bind : MBind res := fun A B f m =>
  match m with Ok a => f a | Raise e => Raise e end.

(** [d[k]] on a dict *)
Definition dict_item (k : str) (d : dict) : res json :=
  match dict_get k d with Some v => Ok v | None => Raise (KeyError (JStr k)) end.

(** [len(v)] *)
Definition py_len (v : json) : res nat :=
  match v with
  | JStr s => Ok (length s)
  | JArr l => Ok (length l)
  | JObj d => Ok (length d)
  | _ => Raise TypeError
  end.

(** Truth value of [v] in a condition. *)
Definition py_truthy (v : json) : bool :=
  match v with
  | JNull => false
  | JBool b => b
  | JInt z => negb (z =? 0)%Z
  | JFloat _ => true
  | JStr s => match s with [] => false | _ => true end
  | JArr l => match l with [] => false | _ => true end
  | JObj d => match d with [] => false | _ => true end
  end.

(** ** Configuration constants *)

Definition CONCURRENCY : nat := 20.
Definition SAVE_EVERY : nat := 5.
Definition SKIP_THRESHOLD : nat := 500.
Definition MAX_RETRIES : nat := 3.

Definition k_id : str := lit "id".
Definition k_question : str := lit "question".
Definition k_options : str := lit "options".
Definition k_correctAnswer : str := lit "correctAnswer".
Definition k_scenario : str := lit "scenario".
Definition k_explanation : str := lit "explanation".
Definition k_legalReference : str := lit "legalReference".
Definition k_analysis : str := lit "analysis".

(** ** The completeness filter of [main] *)

(** One iteration of the loop [for q in questions]: the state is
    [(to_process, skipped)]. *)
Definition filter_step (st : list dict * nat) (q : dict) : res (list dict * nat) :=
  let existing := dict_get_default k_analysis (JStr []) q in
  n ← py_len existing;
  if (SKIP_THRESHOLD <? n)%nat
  then Ok (st.1, S st.2)
  else Ok (st.1 ++ [q], st.2).

Fixpoint filter_loop (st : list dict * nat) (questions : list dict)
  : res (list dict * nat) :=
  match questions with
  | [] => Ok st
  | q :: rest => st' ← filter_step st q; filter_loop st' rest
  end.

Definition select_work (questions : list dict) : res (list dict * nat) :=
  filter_loop ([], 0%nat) questions.

(** ** Whitespace and the text clean-up of [clean_json_response] *)

(** The characters [str.strip()] removes and the pattern [\s] matches on a
    [str]: CPython's Unicode whitespace. *)
Definition is_space (c : char) : bool :=
  ((9 <=? c) && (c <=? 13)) || ((28 <=? c) && (c <=? 32))
  || (c =? 133) || (c =? 160) || (c =? 5760)
  || ((8192 <=? c) && (c <=? 8202))
  || (c =? 8232) || (c =? 8233) || (c =? 8239) || (c =? 8287) || (c =? 12288).

Fixpoint drop_while (f : char -> bool) (s : str) : str :=
  match s with
  | [] => []
  | c :: r => if f c then drop_while f r else s
  end.

Definition lstrip (s : str) : str := drop_while is_space s.
Definition rstrip (s : str) : str := rev (drop_while is_space (rev s)).
(** [s.strip()] *)
Definition strip (s : str) : str := rstrip (lstrip s).

Definition fence : str := [c_backtick; c_backtick; c_backtick].
Definition word_json : str := lit "json".

(** [re.sub(r"^```(?:json)?\s*", "", text)]: the pattern can only match at
    the start; after the three backticks the optional group takes [json]
    when it is there, then [\s*] takes the whole run of whitespace. *)
Definition sub_fence_open (text : str) : str :=
  match strip_prefix fence text with
  | None => text
  | Some t1 =>
      match strip_prefix word_json t1 with
      | Some t2 => lstrip t2
      | None => lstrip t1
      end
  end.

(** [re.sub(r"\s*```\s*$", "", text)]: the leftmost match starts where the
    text from there on is whitespace, three backticks, whitespace; it is
    found from the end. *)
Definition sub_fence_close (text : str) : str :=
  match strip_prefix fence (drop_while is_space (rev text)) with
  | Some r => rev (drop_while is_space r)
  | None => text
  end.

(** The text [json.loads] is first tried on. *)
Definition strip_fences (raw : str) : str :=
  strip (sub_fence_close (sub_fence_open (strip raw))).

(** [re.search(r"\{[\s\S]*\}", text)]: from the first opening brace to the
    last closing brace after it. *)
Definition search_braces (text : str) : option str :=
  match drop_while (fun c => negb (c =? c_lbrace)) text with
  | [] => None
  | t =>
      match drop_while (fun c => negb (c =? c_rbrace)) (rev t) with
      | [] => None
      | r => Some (rev r)
      end
  end.

(** ** The decoder [json.loads]

    [json.loads] belongs to Python's standard library, not to the
    repository; it is modelled here on the grammar CPython's decoder
    accepts in its default (strict) mode.  A number with a fraction or an
    exponent, and the constants [NaN], [Infinity] and [-Infinity], are kept
    as [JFloat] with the matched text. *)

(** JSON whitespace: space, tab, line feed, carriage return. *)
Definition is_json_ws (c : char) : bool :=
  (c =? c_space) || (c =? c_tab) || (c =? c_lf) || (c =? c_cr).

Definition skip_ws (s : str) : str := drop_while is_json_ws s.

Definition is_digit (c : char) : bool := (48 <=? c) && (c <=? 57).

Definition hex_value (c : char) : option N :=
  if (48 <=? c) && (c <=? 57) then Some (c - 48)
  else if (97 <=? c) && (c <=? 102) then Some (c - 87)
  else if (65 <=? c) && (c <=? 70) then Some (c - 55)
  else None.

Definition hex4 (a b c d : char) : option N :=
  x ← hex_value a; y ← hex_value b; z ← hex_value c; w ← hex_value d;
  Some (((x * 16 + y) * 16 + z) * 16 + w).

(** The character after a backslash, [u] apart. *)
Definition unescape (c : char) : option char :=
  if c =? c_quote then Some c_quote
  else if c =? c_backslash then Some c_backslash
  else if c =? c_slash then Some c_slash
  else if c =? 98 then Some 8
  else if c =? 102 then Some 12
  else if c =? 110 then Some c_lf
  else if c =? 114 then Some c_cr
  else if c =? 116 then Some c_tab
  else None.

Definition is_high_surrogate (u : N) : bool := (55296 <=? u) && (u <=? 56319).
Definition is_low_surrogate (u : N) : bool := (56320 <=? u) && (u <=? 57343).
Definition join_surrogates (hi lo : N) : N :=
  65536 + ((hi - 55296) * 1024 + (lo - 56320)).

(** A decoded character of a string, marked when it was written as a
    [\uXXXX] escape. *)
Definition code_unit : Type := bool * N.

Definition push_unit (u : code_unit) (r : option (list code_unit * str))
  : option (list code_unit * str) :=
  match r with Some (t, rest) => Some (u :: t, rest) | None => None end.

(** The body of a string, from after its opening quote: its characters and
    what follows the closing quote.  A control character is refused. *)
Fixpoint scan_units (s : str) : option (list code_unit * str) :=
  match s with
  | [] => None
  | c :: r =>
      if c =? c_quote then Some ([], r)
      else if c =? c_backslash then
        match r with
        | [] => None
        | e :: r1 =>
            if e =? 117 then
              match r1 with
              | h1 :: h2 :: h3 :: h4 :: r2 =>
                  match hex4 h1 h2 h3 h4 with
                  | Some u => push_unit (true, u) (scan_units r2)
                  | None => None
                  end
              | _ => None
              end
            else
              match unescape e with
              | Some x => push_unit (false, x) (scan_units r1)
              | None => None
              end
        end
      else if c <=? 31 then None
      else push_unit (false, c) (scan_units r)
  end.

(** A high surrogate escape directly followed by a low surrogate escape is
    one character. *)
Fixpoint join_pairs (l : list code_unit) : str :=
  match l with
  | [] => []
  | (true, hi) :: rest =>
      match rest with
      | (true, lo) :: rest' =>
          if is_high_surrogate hi && is_low_surrogate lo
          then join_surrogates hi lo :: join_pairs rest'
          else hi :: join_pairs rest
      | _ => hi :: join_pairs rest
      end
  | (false, c) :: rest => c :: join_pairs rest
  end.

Definition scanstring (s : str) : option (str * str) :=
  match scan_units s with
  | Some (us, rest) => Some (join_pairs us, rest)
  | None => None
  end.

(** The longest run of digits at the start. *)
Fixpoint span_digits (s : str) : str * str :=
  match s with
  | c :: r =>
      if is_digit c then let '(d, rest) := span_digits r in (c :: d, rest)
      else ([], s)
  | [] => ([], [])
  end.

Definition digits_value (d : str) : Z :=
  fold_left (fun acc c => (acc * 10 + Z.of_N (c - 48))%Z) d 0%Z.

(** The integer part: a single [0], or a digit [1]-[9] and the digits
    after it. *)
Definition scan_int_part (s : str) : option (str * str) :=
  match s with
  | c :: r =>
      if c =? c_zero then Some ([c], r)
      else if is_digit c then Some (span_digits s)
      else None
  | [] => None
  end.

(** [.] and at least one digit. *)
Definition scan_frac (s : str) : str * str :=
  match s with
  | c :: r =>
      if c =? c_dot then
        match span_digits r with
        | ([], _) => ([], s)
        | (d, rest) => (c :: d, rest)
        end
      else ([], s)
  | [] => ([], s)
  end.

(** An optional sign. *)
Definition scan_sign (s : str) : str * str :=
  match s with
  | g :: r => if (g =? c_plus) || (g =? c_minus) then ([g], r) else ([], s)
  | [] => ([], s)
  end.

(** [e] or [E], an optional sign, and at least one digit. *)
Definition scan_exp (s : str) : str * str :=
  match s with
  | c :: r =>
      if (c =? 101) || (c =? 69) then
        let '(sign, r1) := scan_sign r in
        match span_digits r1 with
        | ([], _) => ([], s)
        | (d, rest) => (c :: sign ++ d, rest)
        end
      else ([], s)
  | [] => ([], s)
  end.

Definition scan_number (s : str) : option (json * str) :=
  let '(sign, s1) :=
    match s with
    | c :: r => if c =? c_minus then ([c], r) else ([], s)
    | [] => ([], s)
    end in
  match scan_int_part s1 with
  | None => None
  | Some (ip, s2) =>
      let '(fp, s3) := scan_frac s2 in
      let '(ep, s4) := scan_exp s3 in
      match fp, ep with
      | [], [] =>
          let n := digits_value ip in
          Some (JInt (match sign with [] => n | _ => (- n)%Z end), s4)
      | _, _ => Some (JFloat (sign ++ ip ++ fp ++ ep), s4)
      end
  end.

(** The named constants, tried before a number. *)
Definition scan_constant (s : str) : option (json * str) :=
  match strip_prefix (lit "null") s with Some r => Some (JNull, r) | None =>
  match strip_prefix (lit "true") s with Some r => Some (JBool true, r) | None =>
  match strip_prefix (lit "false") s with Some r => Some (JBool false, r) | None =>
  match strip_prefix (lit "NaN") s with Some r => Some (JFloat (lit "NaN"), r) | None =>
  match strip_prefix (lit "Infinity") s with
  | Some r => Some (JFloat (lit "Infinity"), r) | None =>
  match strip_prefix (lit "-Infinity") s with
  | Some r => Some (JFloat (lit "-Infinity"), r) | None => None
  end end end end end end.

(** One JSON value at the start of [s] ([scan_once]), the members of an
    object from after the opening quote of a key, and the elements of an
    array from the start of an element.  [fuel] bounds the nesting and the
    number of members; the input's length is always enough. *)
Fixpoint scan_once (fuel : nat) (s : str) {struct fuel} : option (json * str) :=
  match fuel with
  | O => None
  | S f =>
      match s with
      | [] => None
      | c :: r =>
          if c =? c_quote then
            match scanstring r with
            | Some (t, rest) => Some (JStr t, rest)
            | None => None
            end
          else if c =? c_lbrace then
            match skip_ws r with
            | c1 :: r1 =>
                if c1 =? c_rbrace then Some (JObj [], r1)
                else if c1 =? c_quote then scan_members f [] r1
                else None
            | [] => None
            end
          else if c =? c_lbracket then
            match skip_ws r with
            | c1 :: r1 =>
                if c1 =? c_rbracket then Some (JArr [], r1)
                else scan_elements f [] (c1 :: r1)
            | [] => None
            end
          else
            match scan_constant s with
            | Some x => Some x
            | None => scan_number s
            end
      end
  end
with scan_members (fuel : nat) (acc : dict) (s : str) {struct fuel}
  : option (json * str) :=
  match fuel with
  | O => None
  | S f =>
      match scanstring s with
      | None => None
      | Some (key, r1) =>
          match skip_ws r1 with
          | c :: r2 =>
              if c =? c_colon then
                match scan_once f (skip_ws r2) with
                | None => None
                | Some (v, r3) =>
                    let acc' := dict_set key v acc in
                    match skip_ws r3 with
                    | c1 :: r4 =>
                        if c1 =? c_rbrace then Some (JObj acc', r4)
                        else if c1 =? c_comma then
                          match skip_ws r4 with
                          | c2 :: r5 =>
                              if c2 =? c_quote then scan_members f acc' r5 else None
                          | [] => None
                          end
                        else None
                    | [] => None
                    end
                end
              else None
          | [] => None
          end
      end
  end
with scan_elements (fuel : nat) (acc : list json) (s : str) {struct fuel}
  : option (json * str) :=
  match fuel with
  | O => None
  | S f =>
      match scan_once f s with
      | None => None
      | Some (v, r1) =>
          let acc' := acc ++ [v] in
          match skip_ws r1 with
          | c :: r2 =>
              if c =? c_rbracket then Some (JArr acc', r2)
              else if c =? c_comma then scan_elements f acc' (skip_ws r2)
              else None
          | [] => None
          end
      end
  end.

(** [json.loads(s)]: one value, whitespace allowed around it, nothing
    else. *)
Definition json_loads (s : str) : option json :=
  let s0 := skip_ws s in
  match scan_once (S (length s0)) s0 with
  | Some (v, r) => match skip_ws r with [] => Some v | _ => None end
  | None => None
  end.

(** ** The response parser *)

(** The message of the final [ValueError]: a fixed line and [raw[:500]]. *)
Definition parse_failure_message (raw : str) : str :=
  lit "无法从 API 返回中解析 JSON:
" ++ firstn 500 raw.

Definition clean_json_response (raw : str) : res json :=
  let text := strip_fences raw in
  match json_loads text with
  | Some v => Ok v
  | None =>
      match search_braces text with
      | Some m =>
          match json_loads m with
          | Some v => Ok v
          | None => Raise (ValueError (parse_failure_message raw))
          end
      | None => Raise (ValueError (parse_failure_message raw))
      end
  end.

(** ** The request builder *)

Definition system_prompt_head : str :=
  lit "你是一位资深的欧盟数据保护法律学者和 CIPP/E 考试培训专家。

以下是《通用数据保护条例》(GDPR) 的完整法律文本，供你在分析中精确引用：

<gdpr_full_text>
".

Definition system_prompt_tail : str :=
  lit "
</gdpr_full_text>

你的任务是为 CIPP/E 考试题目生成两部分内容：

═══ 第一部分：legalReference（法条原文）═══
- 找出与该题目最直接相关的 GDPR 条款（通常 1-3 条）
- 从上面的 GDPR 全文中逐字摘录对应条款的原文
- 格式：" ++ [c_quote] ++
  lit "GDPR Article N - 标题\n\n条文正文" ++ [c_quote] ++
  lit "
- 如涉及多条，用 " ++ [c_quote] ++
  lit "\n\n---\n\n" ++ [c_quote] ++
  lit " 分隔
- 如果题目涉及非 GDPR 法源（如 ECHR, ePrivacy Directive, Convention 108），
  请标明来源并提供条文原文
- 清理 Markdown 格式符号（#, *, 等），只保留干净的法律文本

═══ 第二部分：analysis（考点深度解析）═══
请用中文撰写一篇" ++ [c_quote] ++
  lit "微型学术论文" ++ [c_quote] ++
  lit "级别的解析（800-1500字），使用自然段落，
不使用 Markdown 标题。必须包含以下 4 个模块，每个模块作为独立段落：

1.【考点定位】明确本题考查的欧盟数据保护法律知识点和法律概念，
   指出对应的 CIPP/E 考试 Domain：
   - Domain I: European Context (Institutions, History, Human Rights)
   - Domain II: GDPR Principles, Rights, Controllers/Processors, Transfers
   - Domain III: Compliance, Security, Accountability, Internet Technology

2.【法理深度】引用 GDPR 具体条款和 Recital 编号，解释立法逻辑和背景。

3.【判例与场景】引用真实的欧盟法院判例（如 Schrems II, Google Spain,
   Planet 49, Fashion ID 等）或监管机构罚款案例。如无直接判例，
   构建一个贴近实务的业务场景进行类比分析。

4.【知识图谱】串联相关知识点，展示本题考点与其他 GDPR 主题的关联。
   例如：提到" ++ [c_quote] ++
  lit "同意" ++ [c_quote] ++
  lit "时，一并梳理同意的定义(Art.4)、有效条件(Art.7)、
   儿童同意(Art.8)、特殊类别数据的明确同意(Art.9)等。

═══ 输出格式 ═══
请严格输出一个 JSON 对象，不要包含任何其他文字：
{
  " ++ [c_quote] ++
  lit "legalReference" ++ [c_quote] ++
  lit ": " ++ [c_quote] ++
  lit "..." ++ [c_quote] ++
  lit ",
  " ++ [c_quote] ++
  lit "analysis" ++ [c_quote] ++
  lit ": " ++ [c_quote] ++
  lit "..." ++ [c_quote] ++
  lit "
}
".

Definition build_system_prompt (gdpr_text : str) : str :=
  system_prompt_head ++ gdpr_text ++ system_prompt_tail.

(** [sep.join(parts)] *)
Fixpoint join (sep : str) (parts : list str) : str :=
  match parts with
  | [] => []
  | [p] => p
  | p :: rest => p ++ sep ++ join sep rest
  end.

(** The values [for x in v] goes through. *)
Definition py_iter (v : json) : res (list json) :=
  match v with
  | JArr l => Ok l
  | JStr s => Ok (map (fun c => JStr [c]) s)
  | JObj d => Ok (map (fun kv => JStr kv.1) d)
  | _ => Raise TypeError
  end.

(** ['ABCD'[i]] for a position [i] of [enumerate]. *)
Definition letter_at (i : nat) : res char :=
  match lit "ABCD" !! i with
  | Some c => Ok c
  | None => Raise IndexError
  end.

(** ['ABCD'[v]] for a loaded value: an integer (or a bool, which Python
    takes as 0 or 1) indexes the string, from the end when negative. *)
Definition letter_of (v : json) : res char :=
  match v with
  | JInt z =>
      if (0 <=? z)%Z then letter_at (Z.to_nat z)
      else if (-4 <=? z)%Z then letter_at (Z.to_nat (z + 4))
      else Raise IndexError
  | JBool b => letter_at (if b then 1 else 0)%nat
  | _ => Raise TypeError
  end.

Section Prompt.

(** [str(v)] for a loaded value that is not a string: how Python prints
    numbers, [None], lists and dicts.  The text is not looked at by the
    program; it is left open. *)
Variable py_repr : json -> str.

(** [f"{v}"] *)
Definition py_format (v : json) : str :=
  match v with
  | JStr s => s
  | _ => py_repr v
  end.

Definition option_line (io : nat * json) : res str :=
  l ← letter_at io.1;
  Ok (lit "  " ++ [l] ++ lit ". " ++ py_format io.2).

Definition build_user_prompt (q : dict) : res str :=
  options ← dict_item k_options q;
  opts ← py_iter options;
  lines ← mapM option_line (imap (fun i o => (i, o)) opts);
  let options_text := join [c_lf] lines in
  answer ← dict_item k_correctAnswer q;
  correct_letter ← letter_of answer;
  scenario_part ←
    match dict_get_default k_scenario (JStr []) q with
    | JStr s =>
        match strip s with
        | [] => Ok []
        | _ => sc ← dict_item k_scenario q;
               Ok (lit "
【背景场景】
" ++ py_format sc ++ [c_lf])
        end
    | _ => Raise AttributeError
    end;
  question ← dict_item k_question q;
  Ok (lit "请分析以下 CIPP/E 考试题目：
" ++ scenario_part ++ lit "
【题目】" ++ py_format question ++ lit "

【选项】
" ++ options_text ++ lit "

【正确答案】" ++ [correct_letter] ++ lit "

【现有解释】" ++ py_format (dict_get_default k_explanation (JStr []) q) ++ lit "

请根据 system prompt 中的指令，输出包含 legalReference 和 analysis 的 JSON 对象。").

End Prompt.

(** ** The worker [process_one] *)

(** What [await client.chat.completions.create(...)] followed by
    [response.choices[0].message.content] gives: an exception, or the
    content of the first choice, which may be [None]. *)
Inductive api_reply : Type :=
| ApiRaise (e : exn)
| ApiContent (content : option str).

(** The remote endpoint as one worker sees it: the reply to its [attempt]-th
    call, given the two messages sent. *)
Definition chat_client : Type := nat -> str -> str -> api_reply.

(** What a worker does that others can observe. *)
Inductive event : Type :=
| EvAcquire
| EvRelease
| EvRequest (attempt : nat) (system user : str)
| EvPrintDone (qid : json) (attempt : nat)
| EvPrintFailed (qid : json) (attempt : nat) (e : exn)
| EvPrintWaiting (wait : nat)
| EvSleep (wait : nat)
| EvPrintGiveUp (qid : json).

(** [k in v] for a string [k]. *)
Definition py_contains (k : str) (v : json) : res bool :=
  match v with
  | JObj d => Ok (dict_has k d)
  | JArr l =>
      Ok (existsb (fun x => match x with JStr s => str_eqb s k | _ => false end) l)
  | JStr s => Ok (is_infix k s)
  | _ => Raise TypeError
  end.

Section Worker.

Variable py_repr : json -> str.

(** The exception of [raise ValueError(f"...{list(result.keys())}")]:
    building the message already fails when [result] has no [keys]. *)
Definition missing_fields (result : json) : exn :=
  match result with
  | JObj d =>
      ValueError (lit "返回缺少必要字段: " ++ py_repr (JArr (map (fun kv => JStr kv.1) d)))
  | _ => AttributeError
  end.

(** From the reply to the checked result: the rest of the [try] block
    after the call. *)
Definition handle_reply (reply : api_reply) : res json :=
  match reply with
  | ApiRaise e => Raise e
  | ApiContent None => Raise AttributeError
  | ApiContent (Some raw) =>
      result ← clean_json_response raw;
      has_ref ← py_contains k_legalReference result;
      if negb has_ref then Raise (missing_fields result)
      else
        has_ana ← py_contains k_analysis result;
        if negb has_ana then Raise (missing_fields result)
        else Ok result
  end.

Variable chat : chat_client.
Variable system_prompt : str.
Variable question : dict.

(** The [try] block of one attempt: the events it produces and its
    outcome. *)
Definition try_attempt (attempt : nat) : list event * res json :=
  match build_user_prompt py_repr question with
  | Raise e => ([], Raise e)
  | Ok user =>
      ([EvRequest attempt system_prompt user],
       handle_reply (chat attempt system_prompt user))
  end.

(** [for attempt in range(1, MAX_RETRIES + 1)], over the attempts left.
    [None] stands for a loop that ends without [return]. *)
Fixpoint attempt_loop (qid : json) (attempts : list nat)
  : list event * option (json * option json) :=
  match attempts with
  | [] => ([], None)
  | attempt :: rest =>
      let '(evs, outcome) := try_attempt attempt in
      match outcome with
      | Ok result =>
          (evs ++ [EvPrintDone qid attempt], Some (qid, Some result))
      | Raise e =>
          let wait := (2 ^ attempt)%nat in
          if (attempt <? MAX_RETRIES)%nat then
            let '(evs', r) := attempt_loop qid rest in
            (evs ++ [EvPrintFailed qid attempt e; EvPrintWaiting wait; EvSleep wait]
                 ++ evs', r)
          else
            (evs ++ [EvPrintFailed qid attempt e; EvPrintGiveUp qid],
             Some (qid, None))
      end
  end.

(** The worker: its trace and what it returns.  [Raise] is an exception
    that leaves the coroutine. *)
Definition process_one : res (list event * option (json * option json)) :=
  qid ← dict_item k_id question;
  let '(evs, r) := attempt_loop qid (seq 1 MAX_RETRIES) in
  Ok ([EvAcquire] ++ evs ++ [EvRelease], r).

End Worker.

(** The calls a trace shows, and the waits. *)
Definition is_request (e : event) : bool :=
  match e with EvRequest _ _ _ => true | _ => false end.

Definition sleeps (tr : list event) : list nat :=
  omap (fun e => match e with EvSleep w => Some w | _ => None end) tr.

Definition failed_attempts (tr : list event) : list nat :=
  omap (fun e => match e with EvPrintFailed _ a _ => Some a | _ => None end) tr.

(** ** Persistence *)

(** A path, split as [Path.with_suffix] sees it. *)
Record path : Type := { stem : str; suffix : str }.

#[global] Instance path_eq_dec : EqDecision path.
Proof. solve_decision. Defined.

#[global] Instance path_countable : Countable path.
Proof.
  refine (inj_countable' (fun p => (stem p, suffix p))
                         (fun sp => {| stem := sp.1; suffix := sp.2 |}) _).
  by intros [].
Defined.

Definition with_suffix (p : path) (s : str) : path :=
  {| stem := stem p; suffix := s |}.

Definition QUESTIONS_PATH : path :=
  {| stem := lit "references/questions"; suffix := lit ".json" |}.
Definition GDPR_PATH : path := {| stem := lit "GDPR"; suffix := lit ".md" |}.

(** What the program does to the file system. *)
Inductive fs_event : Type :=
| FsWrite (p : path) (content : json)
| FsReplace (src dst : path).

(** The file system: a file is kept as the value [json.load] reads from
    it (and [json.dump] writes to it), a text file as a [JStr]; [io] is
    the history of operations, oldest first. *)
Record world : Type := { disk : gmap path json; io : list fs_event }.

(** [with open(p, "w") as f: json.dump(content, f)] *)
Definition fs_write (p : path) (content : json) (w : world) : world :=
  {| disk := <[p := content]> (disk w); io := io w ++ [FsWrite p content] |}.

(** [src.replace(dst)] *)
Definition fs_replace (src dst : path) (w : world) : res world :=
  match disk w !! src with
  | Some c =>
      Ok {| disk := <[dst := c]> (delete src (disk w));
            io := io w ++ [FsReplace src dst] |}
  | None => Raise FileNotFoundError
  end.

Definition file_of (questions : list dict) : json := JArr (map JObj questions).

Definition save_questions (questions : list dict) (p : path) (w : world) : res world :=
  let tmp := with_suffix p (lit ".tmp") in
  fs_replace tmp p (fs_write tmp (file_of questions) w).

(** [json.load] of the questions file gives a list of dicts; [main] uses
    every element as a dict and raises on a file of another shape (which
    exception it raises first is not told apart here). *)
Definition load_questions (v : json) : res (list dict) :=
  match v with
  | JArr l =>
      mapM (fun x => match x with JObj d => Ok d | _ => Raise AttributeError end) l
  | _ => Raise TypeError
  end.

(** ** The merge loop of [main] *)

(** Keys of [id_to_idx]: Python takes [True] and [1] as the same key.  A
    float key is kept by its literal. *)
Inductive pykey : Type :=
| KNone
| KNum (z : Z)
| KFloat (literal : str)
| KStr (s : str).

#[global] Instance pykey_eq_dec : EqDecision pykey.
Proof. solve_decision. Defined.

#[global] Instance pykey_countable : Countable pykey.
Proof.
  refine (inj_countable'
    (fun k => match k with
              | KNone => inl ()
              | KNum z => inr (inl z)
              | KFloat l => inr (inr (inl l))
              | KStr s => inr (inr (inr s))
              end)
    (fun x => match x with
              | inl _ => KNone
              | inr (inl z) => KNum z
              | inr (inr (inl l)) => KFloat l
              | inr (inr (inr s)) => KStr s
              end) _).
  by intros [].
Defined.

(** The key a value is stored under; lists and dicts are not hashable. *)
Definition hash_key (v : json) : res pykey :=
  match v with
  | JNull => Ok KNone
  | JBool b => Ok (KNum (if b then 1 else 0))
  | JInt z => Ok (KNum z)
  | JFloat l => Ok (KFloat l)
  | JStr s => Ok (KStr s)
  | JArr _ | JObj _ => Raise TypeError
  end.

(** [{q["id"]: i for i, q in enumerate(questions)}], from position [i]. *)
Fixpoint build_index (m : gmap pykey nat) (i : nat) (questions : list dict)
  : res (gmap pykey nat) :=
  match questions with
  | [] => Ok m
  | q :: rest =>
      qid ← dict_item k_id q;
      key ← hash_key qid;
      build_index (<[key := i]> m) (S i) rest
  end.

(** [v[k]] for a string [k]: only a dict can be subscripted by one. *)
Definition py_getitem (v : json) (k : str) : res json :=
  match v with
  | JObj d => dict_item k d
  | _ => Raise TypeError
  end.

(** [questions[idx][k] = v] *)
Definition set_field (idx : nat) (k : str) (v : json) (questions : list dict)
  : res (list dict) :=
  match questions !! idx with
  | Some q => Ok (<[idx := dict_set k v q]> questions)
  | None => Raise IndexError
  end.

Record run_state : Type := {
  questions : list dict;
  completed_since_save : nat;
  total_done : nat;
  failed : nat;
  files : world
}.

(** [if result:] for the second component of a worker's pair. *)
Definition result_truthy (result : option json) : bool :=
  match result with Some v => py_truthy v | None => false end.

(** The body of [for future in asyncio.as_completed(tasks)] for one
    finished worker. *)
Definition merge_step (id_to_idx : gmap pykey nat) (st : run_state)
    (r : json * option json) : res run_state :=
  match r.2 with
  | Some result =>
      if py_truthy result then
        key ← hash_key r.1;
        idx ← match id_to_idx !! key with
              | Some i => Ok i
              | None => Raise (KeyError r.1)
              end;
        legal ← py_getitem result k_legalReference;
        qs1 ← set_field idx k_legalReference legal (questions st);
        ana ← py_getitem result k_analysis;
        qs2 ← set_field idx k_analysis ana qs1;
        let completed := S (completed_since_save st) in
        let total := S (total_done st) in
        if (SAVE_EVERY <=? completed)%nat then
          w ← save_questions qs2 QUESTIONS_PATH (files st);
          Ok {| questions := qs2; completed_since_save := 0; total_done := total;
                failed := failed st; files := w |}
        else
          Ok {| questions := qs2; completed_since_save := completed;
                total_done := total; failed := failed st; files := files st |}
      else
        Ok {| questions := questions st;
              completed_since_save := completed_since_save st;
              total_done := total_done st; failed := S (failed st);
              files := files st |}
  | None =>
      Ok {| questions := questions st;
            completed_since_save := completed_since_save st;
            total_done := total_done st; failed := S (failed st);
            files := files st |}
  end.

Fixpoint merge_loop (id_to_idx : gmap pykey nat) (st : run_state)
    (results : list (json * option json)) : res run_state :=
  match results with
  | [] => Ok st
  | r :: rest => st' ← merge_step id_to_idx st r; merge_loop id_to_idx st' rest
  end.

(** ** The driver [main] *)

Section Main.

Variable py_repr : json -> str.
(** The endpoint as the [i]-th task sees it. *)
Variable client : nat -> chat_client.
(** The order in which [asyncio.as_completed] hands the tasks back, by
    their position in [to_process]. *)
Variable order : list nat.
Variable api_key : str.

Definition run_task (system_prompt : str) (i : nat) (q : dict)
  : res (list event * option (json * option json)) :=
  process_one py_repr (client i) system_prompt q.

(** [qid, result = await future] *)
Definition await_future (t : list event * option (json * option json))
  : res (json * option json) :=
  match t.2 with
  | Some r => Ok r
  | None => Raise TypeError
  end.

Definition initial_state (qs : list dict) (w : world) : run_state :=
  {| questions := qs; completed_since_save := 0; total_done := 0;
     failed := 0; files := w |}.

(** [main] from the loaded list on: filter, dispatch, merge, final
    save. *)
Definition run (qs : list dict) (gdpr_text : str) (w : world) : res run_state :=
  sel ← select_work qs;
  match sel.1 with
  | [] => Ok (initial_state qs w)
  | to_process =>
      let system_prompt := build_system_prompt gdpr_text in
      id_to_idx ← build_index ∅ 0 qs;
      tasks ← mapM (fun iq => run_task system_prompt iq.1 iq.2)
                   (imap (fun i q => (i, q)) to_process);
      results ← mapM await_future (omap (fun i => tasks !! i) order);
      st ← merge_loop id_to_idx (initial_state qs w) results;
      w' ← save_questions (questions st) QUESTIONS_PATH (files st);
      Ok {| questions := questions st;
            completed_since_save := completed_since_save st;
            total_done := total_done st; failed := failed st; files := w' |}
  end.

Definition main (w : world) : res run_state :=
  match api_key with
  | [] => Raise (SystemExit 1)
  | _ =>
      match disk w !! QUESTIONS_PATH, disk w !! GDPR_PATH with
      | Some qfile, Some (JStr gdpr_text) =>
          qs ← load_questions qfile;
          run qs gdpr_text w
      | Some _, Some _ => Raise TypeError
      | _, _ => Raise (SystemExit 1)
      end
  end.

End Main.

(** A completed save: the rename over the canonical path. *)
Definition is_save (e : fs_event) : bool :=
  match e with
  | FsReplace _ dst => bool_decide (dst = QUESTIONS_PATH)
  | FsWrite _ _ => false
  end.

(** Number of completed saves in a history. *)
Definition saves (h : list fs_event) : nat := length (List.filter is_save h).

(** ** The pool: the tasks of [main] under the semaphore

    The event loop runs one task at a time and switches tasks only at an
    [await]: entering [async with semaphore], the network call, and
    [asyncio.sleep].  A worker is described by the [await] it stands at;
    a step of the pool runs one worker from one [await] to its next. *)

Inductive wstate : Type :=
| WFailed (e : exn)                       (* [question["id"]] raised *)
| WWaiting                                (* at [async with semaphore] *)
| WCalling (attempt : nat) (user : str)   (* slot held, call in flight *)
| WSleeping (attempt : nat)               (* slot held, in [asyncio.sleep] *)
| WDone (r : option (json * option json)) (* returned, slot given back *).

Record pool : Type := { permits : nat; workers : list wstate }.

Definition in_flight (w : wstate) : bool :=
  match w with WCalling _ _ => true | _ => false end.

Definition holds_slot (w : wstate) : bool :=
  match w with WCalling _ _ | WSleeping _ => true | _ => false end.

Definition count (f : wstate -> bool) (ws : list wstate) : nat :=
  length (List.filter f ws).

(** Leaving [async with semaphore] gives the slot back. *)
Definition released (w : wstate) : nat :=
  match w with WDone _ => 1 | _ => 0 end.

Definition settle (i : nat) (w : wstate) (p : nat) (ws : list wstate) : pool :=
  {| permits := p + released w; workers := <[i := w]> ws |}.

Section Pool.

Variable py_repr : json -> str.
Variable client : nat -> chat_client.
Variable system_prompt : str.
Variable to_process : list dict.

Definition qid_of (q : dict) : json := dict_get_default k_id JNull q.

Definition spawn (q : dict) : wstate :=
  match dict_item k_id q with
  | Ok _ => WWaiting
  | Raise e => WFailed e
  end.

(** The [except] block. *)
Definition after_failure (q : dict) (attempt : nat) : wstate :=
  if (attempt <? MAX_RETRIES)%nat then WSleeping attempt
  else WDone (Some (qid_of q, None)).

(** The [try] block up to the call. *)
Definition start_attempt (q : dict) (attempt : nat) : wstate :=
  match build_user_prompt py_repr q with
  | Ok user => WCalling attempt user
  | Raise _ => after_failure q attempt
  end.

(** The [try] block after the call. *)
Definition on_reply (i : nat) (q : dict) (attempt : nat) (user : str) : wstate :=
  match handle_reply py_repr (client i attempt system_prompt user) with
  | Ok result => WDone (Some (qid_of q, Some result))
  | Raise _ => after_failure q attempt
  end.

(** After the sleep: the next turn of the [for] loop, if there is one. *)
Definition on_wake (q : dict) (attempt : nat) : wstate :=
  if (S attempt <=? MAX_RETRIES)%nat then start_attempt q (S attempt)
  else WDone None.

Inductive pool_step : pool -> pool -> Prop :=
| step_acquire i q p ws :
    to_process !! i = Some q ->
    ws !! i = Some WWaiting ->
    pool_step {| permits := S p; workers := ws |}
              (settle i (start_attempt q 1) p ws)
| step_reply i q attempt user p ws :
    to_process !! i = Some q ->
    ws !! i = Some (WCalling attempt user) ->
    pool_step {| permits := p; workers := ws |}
              (settle i (on_reply i q attempt user) p ws)
| step_wake i q attempt p ws :
    to_process !! i = Some q ->
    ws !! i = Some (WSleeping attempt) ->
    pool_step {| permits := p; workers := ws |}
              (settle i (on_wake q attempt) p ws).

(** [asyncio.Semaphore(capacity)] and one task per work item. *)
Definition pool_init (capacity : nat) : pool :=
  {| permits := capacity; workers := map spawn to_process |}.

Definition pool_reachable (capacity : nat) (s : pool) : Prop :=
  rtc pool_step (pool_init capacity) s.

(** What a worker standing at [w] returns when it is run to its end. *)
Definition rest_of_loop (i : nat) (q : dict) (attempt : nat)
  : option (json * option json) :=
  (attempt_loop py_repr (client i) system_prompt q (qid_of q)
                (seq (S attempt) (MAX_RETRIES - attempt))).2.

Definition finish (i : nat) (q : dict) (w : wstate) : option (json * option json) :=
  match w with
  | WFailed _ => None
  | WWaiting => rest_of_loop i q 0
  | WCalling attempt user =>
      match handle_reply py_repr (client i attempt system_prompt user) with
      | Ok result => Some (qid_of q, Some result)
      | Raise _ =>
          if (attempt <? MAX_RETRIES)%nat then rest_of_loop i q attempt
          else Some (qid_of q, None)
      end
  | WSleeping attempt => rest_of_loop i q attempt
  | WDone r => r
  end.

End Pool.

(** ** Notions used in the statements *)

Local Open Scope nat_scope.

(** [len(q.get("analysis", ""))] *)
Definition analysis_length (q : dict) : res nat :=
  py_len (dict_get_default k_analysis (JStr []) q).

(** [r] does not start with a character [f] accepts. *)
Definition stops (f : char -> bool) (r : str) : Prop :=
  match r with [] => True | c :: _ => f c = false end.

Definition is_obj (v : json) : bool := match v with JObj _ => true | _ => false end.

(** The characters that can continue a number. *)
Definition is_number_char (c : char) : bool :=
  is_digit c || N.eqb c c_dot || N.eqb c 101 || N.eqb c 69.

Definition is_exp_char (c : char) : bool := N.eqb c 101 || N.eqb c 69.

Definition is_sign_char (c : char) : bool := N.eqb c c_plus || N.eqb c c_minus.

(** The text of an object starts and ends with its braces. *)
Definition closes (v : json) (c : str) : Prop :=
  match v with
  | JObj _ => head c = Some c_lbrace /\ last c = Some c_rbrace
  | _ => True
  end.

(** What may follow a scanned value without changing the scan: the same
    rest, or one that cannot continue a number. *)
Definition more_ok (r r' : str) : Prop := r' = r \/ stops is_number_char r'.

(** A successful scan reads a prefix [c] of its input and does not depend
    on what follows; fuel [length c] is enough. *)
Definition scan_once_ok (n : nat) : Prop :=
  forall s v r, scan_once n s = Some (v, r) ->
    exists c, s = c ++ r /\ c <> [] /\ closes v c
      /\ forall m r', length c <= m -> more_ok r r' -> scan_once m (c ++ r') = Some (v, r').

Definition scan_members_ok (n : nat) : Prop :=
  forall acc s v r, scan_members n acc s = Some (v, r) ->
    exists c, s = c ++ r /\ last c = Some c_rbrace /\ is_obj v = true
      /\ forall m r', length c <= m -> scan_members m acc (c ++ r') = Some (v, r').

Definition scan_elements_ok (n : nat) : Prop :=
  forall acc s v r, scan_elements n acc s = Some (v, r) ->
    exists c, s = c ++ r /\ c <> [] /\ is_obj v = false
      /\ forall m r', length c <= m -> scan_elements m acc (c ++ r') = Some (v, r').

(** A text that starts and ends with a character that is not whitespace. *)
Definition solid (c : str) : Prop :=
  (exists x, head c = Some x /\ is_space x = false)
  /\ (exists y, last c = Some y /\ is_space y = false).

(** The text of an object: it starts with [{] and ends with [}]. *)
Definition braced (c : str) : Prop :=
  head c = Some c_lbrace /\ last c = Some c_rbrace.

(** [x] does not occur in [s]. *)
Definition lacks (x : char) (s : str) : Prop :=
  forallb (fun c => negb (N.eqb c x)) s = true.

(** [t] is the object text [c] with text before it that has no [{] and
    text after it that has no [}]. *)
Definition framed (c t : str) : Prop :=
  exists a b, t = a ++ c ++ b /\ lacks c_lbrace a /\ lacks c_rbrace b.

(** [raw] is [j] between code-fence markers: three backticks, with or
    without the word [json], before it and three backticks after it,
    whitespace allowed around each. *)
Definition fenced (j raw : str) : Prop :=
  exists ws0 lang wsa wsb wsc,
    raw = ws0 ++ fence ++ lang ++ wsa ++ j ++ wsb ++ fence ++ wsc
    /\ (lang = [] \/ lang = word_json)
    /\ forallb is_space ws0 = true /\ forallb is_space wsa = true
    /\ forallb is_space wsb = true /\ forallb is_space wsc = true.

Definition example_object_text : str :=
  lit "{" ++ [c_quote] ++ lit "legalReference" ++ [c_quote] ++ lit ": "
    ++ [c_quote] ++ lit "Art. 6" ++ [c_quote] ++ lit ", "
    ++ [c_quote] ++ lit "analysis" ++ [c_quote] ++ lit ": "
    ++ [c_quote] ++ lit "Lawfulness" ++ [c_quote] ++ lit "}".

Definition example_object : dict :=
  [(k_legalReference, JStr (lit "Art. 6")); (k_analysis, JStr (lit "Lawfulness"))].

Definition example_questions : list dict :=
  [ [(k_id, JInt 1); (k_analysis, JStr (repeat 97%N 500))];
    [(k_id, JInt 2); (k_analysis, JStr (repeat 97%N 501))];
    [(k_id, JInt 3)] ].

(** The attempts and waits of a worker, in order. *)
Inductive tick : Type :=
| TFailed (attempt : nat)
| TDone (attempt : nat)
| TSleep (wait : nat).

Definition tick_of (e : event) : option tick :=
  match e with
  | EvPrintFailed _ a _ => Some (TFailed a)
  | EvPrintDone _ a => Some (TDone a)
  | EvSleep w => Some (TSleep w)
  | _ => None
  end.

Definition timeline (tr : list event) : list tick := omap tick_of tr.

(** [k] failed attempts, each followed by its wait. *)
Definition retries (k : nat) : list tick :=
  flat_map (fun a => [TFailed a; TSleep (2 ^ a)]) (seq 1 k).

Definition requests (tr : list event) : nat := length (List.filter is_request tr).

(** A record, an endpoint that fails twice and then answers, and a
    printer, to run the definitions on. *)
Definition example_question : dict :=
  [ (k_id, JInt 7);
    (k_question, JStr (lit "Which article sets out lawfulness of processing?"));
    (k_options, JArr [JStr (lit "Article 5"); JStr (lit "Article 6")]);
    (k_correctAnswer, JInt 1) ].

Definition flaky_chat : chat_client :=
  fun attempt _ _ =>
    if attempt <? 3 then ApiRaise (APIError (lit "connection reset"))
    else ApiContent (Some example_object_text).

Definition repr_blank : json -> str := fun _ => [].

(** The same record with a correct-answer index that is out of range. *)
Definition malformed_question : dict :=
  dict_set k_correctAnswer (JInt 4) example_question.

(** The records [build_user_prompt] accepts. *)
Definition promptable (q : dict) : bool :=
  match dict_get k_options q with
  | Some options =>
      match py_iter options with
      | Ok opts => length opts <=? 4
      | Raise _ => false
      end
  | None => false
  end
  && match dict_get k_correctAnswer q with
     | Some (JInt z) => ((-4 <=? z) && (z <=? 3))%Z
     | Some (JBool _) => true
     | _ => false
     end
  && match dict_get_default k_scenario (JStr []) q with
     | JStr _ => true
     | _ => false
     end
  && dict_has k_question q.

Definition succeeds {A} (r : res A) : Prop := exists a, r = Ok a.

(** The key of a record in [id_to_idx], when it has one. *)
Definition key_of (q : dict) : option pykey :=
  match dict_get k_id q with
  | Some v => match hash_key v with Ok k => Some k | Raise _ => None end
  | None => None
  end.

(** The two values a worker's pair makes the driver write, when it
    writes. *)
Definition merged_fields (r : json * option json) : option (json * json) :=
  match r.2 with
  | Some (JObj d) =>
      if py_truthy (JObj d) then
        match dict_get k_legalReference d, dict_get k_analysis d with
        | Some l, Some a => Some (l, a)
        | _, _ => None
        end
      else None
  | _ => None
  end.

(** What merging the pair [r] does to one record: a record with the key
    of [r] gets the two fields, any other record stays as it is. *)
Definition apply_result (r : json * option json) (q : dict) : dict :=
  match merged_fields r, hash_key r.1 with
  | Some (l, a), Ok key =>
      if decide (key_of q = Some key)
      then dict_set k_analysis a (dict_set k_legalReference l q)
      else q
  | _, _ => q
  end.

Definition apply_results (results : list (json * option json)) (q : dict) : dict :=
  fold_left (fun q r => apply_result r q) results q.

(** The state after a pair without a result. *)
Definition count_failure (st : run_state) : run_state :=
  {| questions := questions st;
     completed_since_save := completed_since_save st;
     total_done := total_done st; failed := S (failed st); files := files st |}.

Definition successes (results : list (json * option json)) : nat :=
  length (List.filter (fun r => result_truthy r.2) results).

Definition tmp_path : path := with_suffix QUESTIONS_PATH (lit ".tmp").

(** The two operations of one save of [qs]. *)
Definition save_events (qs : list dict) : list fs_event :=
  [FsWrite tmp_path (file_of qs); FsReplace tmp_path QUESTIONS_PATH].

(** The completeness predicate: the analysis has more than
    [SKIP_THRESHOLD] characters. *)
Definition is_complete (q : dict) : bool :=
  match analysis_length q with
  | Ok n => SKIP_THRESHOLD <? n
  | Raise _ => false
  end.

Definition work_items (qs : list dict) : list dict :=
  List.filter (fun q => negb (is_complete q)) qs.

(** A pair the driver can merge without raising: it has no result, or
    its result is an object with the two fields. *)
Definition mergeable (r : json * option json) : Prop :=
  forall result, r.2 = Some result ->
    exists d, result = JObj d
      /\ py_contains k_legalReference result = Ok true
      /\ py_contains k_analysis result = Ok true.

Section RunNotions.

Variable py_repr : json -> str.
Variable client : nat -> chat_client.
Variable order : list nat.
Variable qs : list dict.
Variable gdpr_text : str.

(** The pair the [i]-th task hands to the driver. *)
Definition task_result (i : nat) (r : json * option json) : Prop :=
  exists q tr,
    work_items qs !! i = Some q
    /\ run_task py_repr client (build_system_prompt gdpr_text) i q = Ok (tr, Some r).

(** The positions of [order] that are tasks. *)
Definition completion_order : list nat :=
  List.filter (fun i => i <? length (work_items qs)) order.

End RunNotions.

(** The key a worker's pair is merged under. *)
Definition result_key (r : json * option json) : option pykey :=
  match hash_key r.1 with Ok key => Some key | Raise _ => None end.

(** The fields of a record the driver never writes. *)
Definition static_key (k : str) : Prop := k <> k_legalReference /\ k <> k_analysis.

(** [q'] has the fields of [q] that the driver never writes, with their
    values and in their order, and the identifier of [q]. *)
Definition same_static (q q' : dict) : Prop :=
  key_of q' = key_of q
  /\ (forall k, static_key k -> dict_get k q' = dict_get k q)
  /\ exists extra, map fst q' = map fst q ++ extra.

(** An endpoint that always answers with the example object. *)
Definition steady_chat : chat_client := fun _ _ _ => ApiContent (Some example_object_text).

(** A second well-formed record. *)
Definition second_question : dict :=
  [ (k_id, JInt 8);
    (k_question, JStr (lit "Who appoints a data protection officer?"));
    (k_options, JArr [JStr (lit "The controller"); JStr (lit "The data subject")]);
    (k_correctAnswer, JInt 0) ].

(** A world holding a collection and the reference text. *)
Definition world_with (qs : list dict) : world :=
  {| disk := <[QUESTIONS_PATH := file_of qs]> (<[GDPR_PATH := JStr (lit "Article 1")]> ∅);
     io := [] |}.

Definition example_pair : list dict := [malformed_question; second_question].

(** The example record under another identifier, and with an analysis of
    501 characters. *)
Definition numbered (n : Z) : dict := dict_set k_id (JInt n) example_question.

Definition completed (n : Z) : dict :=
  dict_set k_analysis (JStr (repeat 97%N 501)) (numbered n).

(** Seven records of which two are complete. *)
Definition seven_questions : list dict :=
  [numbered 1; completed 2; numbered 3; numbered 4; completed 5; numbered 6; numbered 7].

(** A pair whose result is an object with an analysis text of more than
    [SKIP_THRESHOLD] characters. *)
Definition long_result (r : json * option json) : Prop :=
  exists d s, r.2 = Some (JObj d)
    /\ dict_get k_analysis d = Some (JStr s) /\ SKIP_THRESHOLD < length s.

(** A reply whose analysis has 501 characters, and an endpoint that always
    gives it. *)
Definition long_object_text : str :=
  lit "{" ++ [c_quote] ++ lit "legalReference" ++ [c_quote] ++ lit ": "
    ++ [c_quote] ++ lit "Art. 6" ++ [c_quote] ++ lit ", "
    ++ [c_quote] ++ lit "analysis" ++ [c_quote] ++ lit ": "
    ++ [c_quote] ++ repeat 97%N 501 ++ [c_quote] ++ lit "}".

Definition thorough_chat : chat_client :=
  fun _ _ _ => ApiContent (Some long_object_text).

Definition three_questions : list dict := [numbered 1; completed 2; numbered 3].

(** What a long pair makes the driver write is a long analysis. *)
Definition long_merged (r : json * option json) : Prop :=
  exists l s, merged_fields r = Some (l, JStr s) /\ SKIP_THRESHOLD < length s.

(** Five work items for a pool. *)
Definition five_questions : list dict :=
  [numbered 1; numbered 2; numbered 3; numbered 4; numbered 5].

Definition slot_of (w : wstate) : nat := if holds_slot w then 1 else 0.

(** What [process_one] returns to the driver when it is run on its own. *)
Definition returned (py_repr : json -> str) (client : nat -> chat_client)
    (system_prompt : str) (i : nat) (q : dict) : option (json * option json) :=
  match process_one py_repr (client i) system_prompt q with
  | Ok (_, r) => r
  | Raise _ => None
  end.

(** The pool of five work items and two slots after two workers have
    entered [async with semaphore] and stand at their call. *)
Definition first_calling : pool :=
  settle 0 (start_attempt repr_blank (numbered 1) 1) 1 (map spawn five_questions).

Definition two_calling : pool :=
  settle 1 (start_attempt repr_blank (numbered 2) 1) 0 (workers first_calling).

(** The loaded values [len] does not take: [None], booleans and numbers. *)
Definition unsized (v : json) : bool :=
  match v with
  | JNull | JBool _ | JInt _ | JFloat _ => true
  | JStr _ | JArr _ | JObj _ => false
  end.

(** A record whose [analysis] is there and has no length. *)
Definition unsized_analysis (q : dict) : bool :=
  match dict_get k_analysis q with
  | Some v => unsized v
  | None => false
  end.

(** A record whose analysis is [null], and a reply whose analysis is. *)
Definition null_question : dict := dict_set k_analysis JNull example_question.

Definition null_object_text : str :=
  lit "{" ++ [c_quote] ++ lit "legalReference" ++ [c_quote] ++ lit ": "
    ++ [c_quote] ++ lit "Art. 6" ++ [c_quote] ++ lit ", "
    ++ [c_quote] ++ lit "analysis" ++ [c_quote] ++ lit ": null}".

Definition null_chat : chat_client := fun _ _ _ => ApiContent (Some null_object_text).

(** The last position of [qs] whose record has the key [key]. *)
Fixpoint last_with (key : pykey) (qs : list dict) : option nat :=
  match qs with
  | [] => None
  | q :: rest =>
      match last_with key rest with
      | Some j => Some (S j)
      | None => if decide (key_of q = Some key) then Some 0 else None
      end
  end.

(** Two records under one identifier. *)
Definition twin_questions : list dict :=
  [example_question; dict_set k_id (JInt 7) second_question].

(** [i] is the last position of [qs] whose record has the key [key]. *)
Definition last_position (key : pykey) (i : nat) (qs : list dict) : Prop :=
  (exists q, qs !! i = Some q /\ key_of q = Some key)
  /\ forall j q', i < j -> qs !! j = Some q' -> key_of q' <> Some key.

(** The end of [main] after the loop: the final save. *)
Definition final_save (st : run_state) : res run_state :=
  w' ← save_questions (questions st) QUESTIONS_PATH (files st);
  Ok {| questions := questions st;
        completed_since_save := completed_since_save st;
        total_done := total_done st; failed := failed st; files := w' |}.

(** A worker's pair whose result is not an object. *)
Definition non_object (r : json * option json) : bool :=
  match r.2 with
  | Some result => negb (is_obj result)
  | None => false
  end.

(** A reply that is a JSON string in which both field names occur, and an
    endpoint that always gives it. *)
Definition quoted_text : str :=
  [c_quote] ++ lit "legalReference and analysis follow" ++ [c_quote].

Definition quoting_chat : chat_client := fun _ _ _ => ApiContent (Some quoted_text).

(** What the loop needs of a pair: the fields its result was checked for,
    and an identifier the index knows. *)
Definition checked (idx : gmap pykey nat) (n : nat) (r : json * option json) : Prop :=
  (forall result, r.2 = Some result ->
     py_contains k_legalReference result = Ok true
     /\ py_contains k_analysis result = Ok true)
  /\ exists key i, hash_key r.1 = Ok key /\ idx !! key = Some i /\ i < n.

(** A record without an identifier. *)
Definition nameless_question : dict :=
  [ (k_question, JStr (lit "Which authority is the lead authority?"));
    (k_options, JArr [JStr (lit "The first"); JStr (lit "The second")]);
    (k_correctAnswer, JInt 0) ].

(** What [q["id"]] as a dict key raises for a record that has no key. *)
Definition id_error (q : dict) : exn :=
  match dict_get k_id q with
  | None => KeyError (JStr k_id)
  | Some _ => TypeError
  end.

(** A pair with a result, and a pair without one. *)
Definition has_result (r : json * option json) : bool :=
  match r.2 with Some _ => true | None => false end.

Definition gave_up (r : json * option json) : bool := negb (has_result r).

(** Two pairs whose merges do not depend on their order. *)
Definition commute (r r' : json * option json) : Prop :=
  forall q, apply_result r (apply_result r' q) = apply_result r' (apply_result r q).

(** The state a run returns, up to the history of its mid-run saves. *)
Definition same_outcome (st1 st2 : run_state) : Prop :=
  questions st2 = questions st1
  /\ total_done st2 = total_done st1 /\ failed st2 = failed st1
  /\ disk (files st2) !! QUESTIONS_PATH = disk (files st1) !! QUESTIONS_PATH
  /\ saves (io (files st2)) = saves (io (files st1)).

(** A worker that has left [process_one]. *)
Definition finished (w : wstate) : bool :=
  match w with WFailed _ | WDone _ => true | _ => false end.

(** A bound on the awaits a worker still has before it: two for each
    attempt left (the call and the sleep) and the entry. *)
Definition budget (w : wstate) : nat :=
  match w with
  | WFailed _ | WDone _ => 0
  | WSleeping a => 2 * (MAX_RETRIES - a) + 1
  | WCalling a _ => 2 * (MAX_RETRIES - a) + 2
  | WWaiting => 2 * MAX_RETRIES + 2
  end.

Definition pool_budget (s : pool) : nat := sum_list_with budget (workers s).

(** The requests of [k] attempts with the same two messages. *)
Definition resent (system user : str) (k : nat) : list event :=
  map (fun a => EvRequest a system user) (seq 1 k).

(** The waits after [k] failed attempts. *)
Definition backoff (k : nat) : list nat := map (fun a => 2 ^ a) (seq 1 k).

(** A record without a scenario, or with one that is whitespace only. *)
Definition blank_scenario (q : dict) : bool :=
  match dict_get k_scenario q with
  | None => true
  | Some (JStr s) => forallb is_space s
  | Some _ => false
  end.

(** A world in which only the reference text is there. *)
Definition world_without_questions : world :=
  {| disk := <[GDPR_PATH := JStr (lit "Article 1")]> ∅; io := [] |}.

Definition is_waiting (w : wstate) : bool :=
  match w with WWaiting => true | _ => false end.

(** A Collection in which one record is complete and the other is not. *)
Definition mixed_pair : list dict := [completed 2; example_question].

(** * Properties *)

(** ** The completeness filter *)

Lemma filter_step_ok st q n :
  analysis_length q = Ok n ->
  filter_step st q =
    Ok (if SKIP_THRESHOLD <? n then (st.1, S st.2) else (st.1 ++ [q], st.2)).
Proof.
  unfold analysis_length, filter_step. intros ->. simpl.
  by destruct (SKIP_THRESHOLD <? n)%nat.
Qed.

Lemma filter_loop_ok qs :
  (forall q, q ∈ qs -> exists n, analysis_length q = Ok n) ->
  forall st, exists tp sk,
    filter_loop st qs = Ok (st.1 ++ tp, (st.2 + sk)%nat)
    /\ length tp + sk = length qs
    /\ (forall q, q ∈ tp <->
          q ∈ qs /\ exists n, analysis_length q = Ok n /\ (n <= SKIP_THRESHOLD)%nat).
Proof.
  induction qs as [|q qs IH]; intros Hlen st.
  - exists [], 0%nat. simpl. rewrite app_nil_r, Nat.add_0_r.
    split; [by destruct st|]. split; [done|].
    intros q. split; [by intros ?%elem_of_nil | by intros [?%elem_of_nil _]].
  - destruct (Hlen q) as [n Hn]; [apply elem_of_cons; by left|].
    destruct (IH (fun q' H => Hlen q' (proj2 (elem_of_cons _ _ _) (or_intror H)))
                 (if SKIP_THRESHOLD <? n then (st.1, S st.2) else (st.1 ++ [q], st.2)))
      as (tp & sk & Hloop & Hcount & Hmem).
    simpl. rewrite (filter_step_ok st q n Hn). simpl.
    destruct (SKIP_THRESHOLD <? n)%nat eqn:Hcmp.
    + exists tp, (S sk). simpl in Hloop. rewrite Hloop.
      split; [f_equal; f_equal; lia|]. split; [simpl; lia|].
      intros q'. rewrite Hmem, elem_of_cons. split; [tauto|].
      intros [[->|Hin] (m & Hm & Hle)]; [|eauto].
      rewrite Hn in Hm. injection Hm as <-.
      apply Nat.ltb_lt in Hcmp. lia.
    + exists (q :: tp), sk. simpl in Hloop. rewrite Hloop, <- app_assoc.
      split; [done|]. split; [simpl; lia|].
      intros q'. rewrite !elem_of_cons, Hmem. split; [|tauto].
      intros [->|?]; [|tauto].
      split; [by left|]. exists n. split; [done|].
      apply Nat.ltb_ge in Hcmp. lia.
Qed.

(** C1: a Record is selected as a work item exactly when the length of its
    analysis field (the empty string when absent) is at most 500; a Record
    with 500 characters is selected, one with 501 is skipped. *)
Theorem filter_selects_up_to_threshold (qs : list dict) :
  (forall q, q ∈ qs -> exists n, analysis_length q = Ok n) ->
  exists to_process skipped,
    select_work qs = Ok (to_process, skipped)
    /\ length to_process + skipped = length qs
    /\ (forall q, q ∈ qs ->
          (q ∈ to_process <-> exists n, analysis_length q = Ok n /\ (n <= 500)%nat))
    /\ (forall q, q ∈ qs -> analysis_length q = Ok 500%nat -> q ∈ to_process)
    /\ (forall q, q ∈ qs -> analysis_length q = Ok 501%nat -> q ∉ to_process).
Proof.
  intros Hlen.
  destruct (filter_loop_ok qs Hlen ([], 0%nat)) as (tp & sk & Hloop & Hcount & Hmem).
  exists tp, sk. unfold select_work. rewrite Hloop. simpl.
  split; [done|]. split; [done|].
  assert (Hiff : forall q, q ∈ qs ->
            (q ∈ tp <-> exists n, analysis_length q = Ok n /\ (n <= 500)%nat)).
  { intros q Hq. rewrite Hmem. unfold SKIP_THRESHOLD. tauto. }
  split; [done|]. split.
  - intros q Hq H500. apply Hiff; [done|]. exists 500%nat. split; [done|lia].
  - intros q Hq H501 Hin. apply Hiff in Hin as (n & Hn & Hle); [|done].
    rewrite H501 in Hn. injection Hn as <-. lia.
Qed.

(** ** The decoder reads a prefix and ignores what follows *)

Lemma drop_while_split f s :
  exists w, s = w ++ drop_while f s /\ forallb f w = true.
Proof.
  induction s as [|c s [w [Hs Hw]]]; [by exists []|].
  simpl. destruct (f c) eqn:Hc.
  - exists (c :: w). simpl. rewrite Hc, Hw. split; [by f_equal|done].
  - by exists [].
Qed.

Lemma drop_while_head f s c r : drop_while f s = c :: r -> f c = false.
Proof.
  induction s as [|x s IH]; [done|]. simpl.
  destruct (f x) eqn:Hx; [done|]. by intros [= -> ->].
Qed.

Lemma drop_while_app f w t :
  forallb f w = true -> drop_while f (w ++ t) = drop_while f t.
Proof.
  induction w as [|x w IH]; simpl; intros Hw; [done|].
  apply andb_true_iff in Hw as [-> Hw]. by apply IH.
Qed.

Lemma drop_while_stop f c r : f c = false -> drop_while f (c :: r) = c :: r.
Proof. intros Hc. simpl. by rewrite Hc. Qed.

Lemma drop_while_app_stop f a c r :
  f c = false -> drop_while f (a ++ c :: r) = drop_while f a ++ c :: r.
Proof.
  intros Hc. induction a as [|x a IH]; simpl; [by rewrite Hc|].
  by destruct (f x).
Qed.

Lemma push_unit_Some x o t r :
  push_unit x o = Some (t, r) -> exists t', o = Some (t', r) /\ t = x :: t'.
Proof. destruct o as [[t' r']|]; [|done]. intros [= <- <-]. eauto. Qed.

Lemma scan_units_consumed_aux n : forall s t r,
  length s <= n ->
  scan_units s = Some (t, r) ->
  exists c, s = c ++ r /\ last c = Some c_quote
            /\ forall r', scan_units (c ++ r') = Some (t, r').
Proof.
  induction n as [|n IH]; intros s t r Hn Hs.
  { destruct s; [done|simpl in Hn; lia]. }
  destruct s as [|c s]; [done|]. simpl in Hs, Hn.
  destruct (N.eqb c c_quote) eqn:Hq.
  { injection Hs as <- <-. exists [c]. split; [done|].
    apply N.eqb_eq in Hq as Hq'. split; [by rewrite Hq'|].
    intros r'. simpl. by rewrite Hq. }
  destruct (N.eqb c c_backslash) eqn:Hb.
  2:{ destruct (N.leb c 31) eqn:H31; [done|].
      apply push_unit_Some in Hs as (t' & Hs & ->).
      apply IH in Hs as (c' & -> & Hl & Hc'); [|lia].
      exists (c :: c'). split; [done|]. split; [by destruct c'|].
      intros r'. simpl. by rewrite Hq, Hb, H31, Hc'. }
  destruct s as [|e r1]; [done|]. simpl in Hn.
  destruct (N.eqb e 117) eqn:He.
  2:{ destruct (unescape e) as [x|] eqn:Hx; [|done].
      apply push_unit_Some in Hs as (t' & Hs & ->).
      apply IH in Hs as (c' & -> & Hl & Hc'); [|lia].
      exists (c :: e :: c'). split; [done|]. split; [by destruct c'|].
      intros r'. simpl. by rewrite Hq, Hb, He, Hx, Hc'. }
  destruct r1 as [|h1 [|h2 [|h3 [|h4 r2]]]]; try done. simpl in Hn.
  destruct (hex4 h1 h2 h3 h4) as [u|] eqn:Hu; [|done].
  apply push_unit_Some in Hs as (t' & Hs & ->).
  apply IH in Hs as (c' & -> & Hl & Hc'); [|lia].
  exists (c :: e :: h1 :: h2 :: h3 :: h4 :: c'). split; [done|].
  split; [by destruct c'|].
  intros r'. simpl. by rewrite Hq, Hb, He, Hu, Hc'.
Qed.

Lemma scanstring_consumed s t r :
  scanstring s = Some (t, r) ->
  exists c, s = c ++ r /\ last c = Some c_quote
            /\ forall r', scanstring (c ++ r') = Some (t, r').
Proof.
  unfold scanstring. destruct (scan_units s) as [[us rest]|] eqn:Hs; [|done].
  intros [= <- <-].
  apply (scan_units_consumed_aux (length s)) in Hs as (c & -> & Hl & Hc); [|done].
  exists c. split; [done|]. split; [done|]. intros r'. by rewrite Hc.
Qed.

Lemma stops_app f x r : x <> [] -> stops f x -> stops f (x ++ r).
Proof. by destruct x. Qed.

Lemma stops_number_digit r : stops is_number_char r -> stops is_digit r.
Proof.
  destruct r as [|c r]; [done|]. unfold stops, is_number_char.
  intros H. repeat (apply orb_false_iff in H as [H ?]). done.
Qed.

Lemma span_digits_spec s d r :
  span_digits s = (d, r) ->
  s = d ++ r /\ forallb is_digit d = true /\ stops is_digit r.
Proof.
  revert d r. induction s as [|c s IH]; intros d r; simpl.
  { by intros [= <- <-]. }
  destruct (is_digit c) eqn:Hc.
  - destruct (span_digits s) as [d' r'] eqn:Hs. intros [= <- <-].
    destruct (IH d' r' eq_refl) as (-> & Hd & Hr).
    simpl. by rewrite Hc, Hd.
  - by intros [= <- <-].
Qed.

Lemma span_digits_app d r :
  forallb is_digit d = true -> stops is_digit r -> span_digits (d ++ r) = (d, r).
Proof.
  intros Hd Hr. induction d as [|c d IH]; simpl.
  - destruct r as [|c r]; [done|]. simpl in Hr. simpl. by rewrite Hr.
  - simpl in Hd. apply andb_true_iff in Hd as [-> Hd]. by rewrite IH.
Qed.

Lemma scan_int_part_consumed s x r :
  scan_int_part s = Some (x, r) ->
  s = x ++ r /\ (exists c x', x = c :: x' /\ is_digit c = true)
  /\ forall r', stops is_digit r' -> scan_int_part (x ++ r') = Some (x, r').
Proof.
  destruct s as [|c s]; [done|]. unfold scan_int_part.
  destruct (N.eqb c c_zero) eqn:Hz.
  - intros [= <- <-]. split; [done|]. split.
    + exists c, []. split; [done|]. apply N.eqb_eq in Hz as ->. done.
    + intros r' _. simpl. by rewrite Hz.
  - destruct (is_digit c) eqn:Hc; [|done]. intros [= Hs].
    change (span_digits (c :: s) = (x, r)) in Hs.
    apply span_digits_spec in Hs as Hs'. destruct Hs' as (Hsplit & Hd & Hr).
    destruct x as [|c' x'].
    { simpl in Hs. rewrite Hc in Hs. by destruct (span_digits s). }
    injection Hsplit as <- ->.
    split; [done|]. split; [by exists c, x'|].
    intros r' Hr'. change ((c :: x') ++ r') with (c :: x' ++ r').
    cbv beta iota. rewrite Hz, Hc. f_equal.
    by apply (span_digits_app (c :: x') r').
Qed.

Lemma scan_frac_consumed s x r :
  scan_frac s = (x, r) ->
  s = x ++ r
  /\ (x = [] \/ exists x', x = c_dot :: x')
  /\ forall r', stops is_digit r' -> (x = [] -> stops (fun c => N.eqb c c_dot) r') ->
                scan_frac (x ++ r') = (x, r').
Proof.
  destruct s as [|c s]; simpl.
  { intros [= <- <-]. split; [done|]. split; [by left|].
    intros r' _ Hdot. simpl. destruct r' as [|c r']; [done|].
    specialize (Hdot eq_refl). simpl in Hdot. simpl. by rewrite Hdot. }
  destruct (N.eqb c c_dot) eqn:Hc.
  2:{ intros [= <- <-]. split; [done|]. split; [by left|].
      intros r' _ Hdot. simpl. destruct r' as [|c' r']; [done|].
      specialize (Hdot eq_refl). simpl in Hdot. simpl. by rewrite Hdot. }
  destruct (span_digits s) as [d rest] eqn:Hs.
  apply span_digits_spec in Hs as (-> & Hd & Hr).
  destruct d as [|d0 d].
  - intros [= <- <-]. split; [done|]. split; [by left|].
    intros r' _ Hdot. simpl. destruct r' as [|c' r']; [done|].
    specialize (Hdot eq_refl). simpl in Hdot. simpl. by rewrite Hdot.
  - intros [= <- <-]. split; [done|]. split.
    + right. apply N.eqb_eq in Hc as ->. eauto.
    + intros r' Hr' _. simpl app. unfold scan_frac. rewrite Hc.
      change (d0 :: d ++ r') with ((d0 :: d) ++ r').
      by rewrite (span_digits_app (d0 :: d) r').
Qed.

Lemma digit_not_sign c : is_digit c = true -> is_sign_char c = false.
Proof.
  unfold is_digit, is_sign_char, c_plus, c_minus.
  intros [H1 H2]%andb_true_iff. apply N.leb_le in H1, H2.
  apply orb_false_iff. split; apply N.eqb_neq; lia.
Qed.

Lemma scan_sign_consumed s x r :
  scan_sign s = (x, r) ->
  s = x ++ r
  /\ forall r', (x = [] -> stops is_sign_char r') -> scan_sign (x ++ r') = (x, r').
Proof.
  destruct s as [|g s]; simpl.
  { intros [= <- <-]. split; [done|]. intros [|g r'] Hr'; [done|].
    specialize (Hr' eq_refl). simpl in *. unfold is_sign_char in Hr'. by rewrite Hr'. }
  destruct (N.eqb g c_plus || N.eqb g c_minus) eqn:Hg.
  - intros [= <- <-]. split; [done|]. intros r' _. simpl. by rewrite Hg.
  - intros [= <- <-]. split; [done|]. intros [|g' r'] Hr'; [done|].
    specialize (Hr' eq_refl). simpl in *. unfold is_sign_char in Hr'. by rewrite Hr'.
Qed.

Lemma scan_exp_consumed s x r :
  scan_exp s = (x, r) ->
  s = x ++ r
  /\ (x = [] \/ exists c x', x = c :: x' /\ is_exp_char c = true)
  /\ forall r', stops is_digit r' -> (x = [] -> stops is_exp_char r') ->
                scan_exp (x ++ r') = (x, r').
Proof.
  assert (Hnil : forall r', stops is_exp_char r' -> scan_exp r' = ([], r')).
  { intros [|c' r'] Hr'; [done|]. simpl in Hr'. unfold scan_exp.
    unfold is_exp_char in Hr'. by rewrite Hr'. }
  destruct s as [|c s]; simpl.
  { intros [= <- <-]. split; [done|]. split; [by left|]. intros r' _ He. by apply Hnil, He. }
  destruct (N.eqb c 101 || N.eqb c 69) eqn:Hc.
  2:{ intros [= <- <-]. split; [done|]. split; [by left|]. intros r' _ He. by apply Hnil, He. }
  destruct (scan_sign s) as [sign r1] eqn:Hsign.
  apply scan_sign_consumed in Hsign as [-> Hsign].
  destruct (span_digits r1) as [d rest] eqn:Hs.
  apply span_digits_spec in Hs as (-> & Hd & Hr).
  destruct d as [|d0 d].
  { intros [= <- <-]. split; [done|]. split; [by left|]. intros r' _ He. by apply Hnil, He. }
  intros [= <- <-]. split; [simpl; f_equal; by rewrite <- app_assoc|]. split.
  { right. by exists c, (sign ++ d0 :: d). }
  intros r' Hr' _.
  change ((c :: sign ++ d0 :: d) ++ r') with (c :: (sign ++ d0 :: d) ++ r').
  unfold scan_exp. rewrite Hc, <- app_assoc.
  rewrite (Hsign ((d0 :: d) ++ r')).
  2:{ intros _. simpl. simpl in Hd. apply andb_true_iff in Hd as [Hd0 _].
      by apply digit_not_sign. }
  by rewrite (span_digits_app (d0 :: d) r').
Qed.

Lemma stops_shape f x r :
  (x = [] -> stops f r) -> (forall c x', x = c :: x' -> f c = false) -> stops f (x ++ r).
Proof. destruct x as [|c x]; simpl; eauto. Qed.

Lemma number_char_split c :
  is_number_char c = false ->
  is_digit c = false /\ N.eqb c c_dot = false /\ is_exp_char c = false.
Proof.
  unfold is_number_char, is_exp_char. intros H.
  repeat (apply orb_false_iff in H as [H ?]). repeat split; try done.
  by apply orb_false_iff.
Qed.

Lemma dot_not_digit : is_digit c_dot = false.
Proof. done. Qed.

Lemma exp_not_digit c : is_exp_char c = true -> is_digit c = false.
Proof.
  unfold is_exp_char, is_digit. intros [H|H]%orb_true_iff; apply N.eqb_eq in H as ->; done.
Qed.

Lemma exp_not_dot c : is_exp_char c = true -> N.eqb c c_dot = false.
Proof.
  unfold is_exp_char. intros [H|H]%orb_true_iff; apply N.eqb_eq in H as ->; done.
Qed.

Lemma digit_not_minus c : is_digit c = true -> N.eqb c c_minus = false.
Proof.
  unfold is_digit, c_minus. intros [H1 H2]%andb_true_iff. apply N.leb_le in H1, H2.
  apply N.eqb_neq. lia.
Qed.

(** The three parts of a number after its sign. *)
Lemma scan_number_body s1 ip s2 fp s3 ep s4 r' :
  scan_int_part s1 = Some (ip, s2) ->
  scan_frac s2 = (fp, s3) ->
  scan_exp s3 = (ep, s4) ->
  stops is_number_char r' ->
  s1 = ip ++ fp ++ ep ++ s4
  /\ (exists c x', ip = c :: x' /\ is_digit c = true)
  /\ scan_int_part (ip ++ fp ++ ep ++ r') = Some (ip, fp ++ ep ++ r')
  /\ scan_frac (fp ++ ep ++ r') = (fp, ep ++ r')
  /\ scan_exp (ep ++ r') = (ep, r').
Proof.
  intros Hi Hf He Hr'.
  apply scan_int_part_consumed in Hi as (-> & Hip & Hi).
  apply scan_frac_consumed in Hf as (-> & Hfp & Hf).
  apply scan_exp_consumed in He as (-> & Hep & He).
  destruct r' as [|c' r''].
  - (* the text ends after the number *)
    assert (Hd_e : stops is_digit (ep ++ [])).
    { apply stops_shape; [done|]. intros c x' ->.
      destruct Hep as [?|(c0 & x0 & [= <- <-] & Hc0)]; [done|]. by apply exp_not_digit. }
    assert (Hdot_e : stops (fun c => N.eqb c c_dot) (ep ++ [])).
    { apply stops_shape; [done|]. intros c x' ->.
      destruct Hep as [?|(c0 & x0 & [= <- <-] & Hc0)]; [done|]. by apply exp_not_dot. }
    assert (Hd_f : stops is_digit (fp ++ ep ++ [])).
    { apply stops_shape; [done|]. intros c x' ->.
      destruct Hfp as [?|(x0 & [= -> ->])]; [done|]. done. }
    repeat split; try done.
    + by apply Hi.
    + apply Hf; [done|]. by intros _.
    + apply He; [done|]. by intros _.
  - apply number_char_split in Hr' as (Hd & Hdot & Hexp).
    assert (Hd_e : stops is_digit (ep ++ c' :: r'')).
    { apply stops_shape; [done|]. intros c x' ->.
      destruct Hep as [?|(c0 & x0 & [= <- <-] & Hc0)]; [done|]. by apply exp_not_digit. }
    assert (Hdot_e : stops (fun c => N.eqb c c_dot) (ep ++ c' :: r'')).
    { apply stops_shape; [done|]. intros c x' ->.
      destruct Hep as [?|(c0 & x0 & [= <- <-] & Hc0)]; [done|]. by apply exp_not_dot. }
    assert (Hd_f : stops is_digit (fp ++ ep ++ c' :: r'')).
    { apply stops_shape; [done|]. intros c x' ->.
      destruct Hfp as [?|(x0 & [= -> ->])]; [done|]. done. }
    repeat split; try done.
    + by apply Hi.
    + apply Hf; [done|]. by intros _.
    + apply He; [done|]. by intros _.
Qed.

Lemma scan_number_consumed s v r :
  scan_number s = Some (v, r) ->
  exists c, s = c ++ r
    /\ (exists c0 c', c = c0 :: c' /\
          (is_digit c0 = true \/
           (c0 = c_minus /\ exists c1 c'', c' = c1 :: c'' /\ is_digit c1 = true)))
    /\ is_obj v = false
    /\ forall r', stops is_number_char r' -> scan_number (c ++ r') = Some (v, r').
Proof.
  unfold scan_number. destruct s as [|c0 s]; [done|].
  destruct (N.eqb c0 c_minus) eqn:Hm.
  - destruct (scan_int_part s) as [[ip s2]|] eqn:Hi; [|done].
    destruct (scan_frac s2) as [fp s3] eqn:Hf.
    destruct (scan_exp s3) as [ep s4] eqn:He.
    intros Hv. exists (c0 :: ip ++ fp ++ ep).
    destruct (scan_number_body s ip s2 fp s3 ep s4 [] Hi Hf He I)
      as (-> & (d & ip' & -> & Hd) & _).
    assert (r = s4 /\ v = match fp, ep with
                          | [], [] => JInt (- digits_value (d :: ip'))
                          | _, _ => JFloat ([c0] ++ (d :: ip') ++ fp ++ ep)
                          end) as [-> ->].
    { destruct fp, ep; by injection Hv as <- <-. }
    split; [simpl; by rewrite <- !app_assoc|]. split.
    { exists c0, ((d :: ip') ++ fp ++ ep). split; [done|]. right.
      split; [by apply N.eqb_eq|]. by exists d, (ip' ++ fp ++ ep). }
    split; [by destruct fp, ep|].
    intros r' Hr'.
    destruct (scan_number_body _ _ _ _ _ _ _ r' Hi Hf He Hr') as (_ & _ & Hi' & Hf' & He').
    change ((c0 :: (d :: ip') ++ fp ++ ep) ++ r') with (c0 :: ((d :: ip') ++ fp ++ ep) ++ r').
    cbv beta iota. rewrite Hm. rewrite <- !app_assoc, Hi', Hf', He'.
    by destruct fp, ep.
  - destruct (scan_int_part (c0 :: s)) as [[ip s2]|] eqn:Hi; [|done].
    destruct (scan_frac s2) as [fp s3] eqn:Hf.
    destruct (scan_exp s3) as [ep s4] eqn:He.
    intros Hv. exists (ip ++ fp ++ ep).
    destruct (scan_number_body _ ip s2 fp s3 ep s4 [] Hi Hf He I)
      as (Hs & (d & ip' & -> & Hd) & _).
    assert (r = s4 /\ v = match fp, ep with
                          | [], [] => JInt (digits_value (d :: ip'))
                          | _, _ => JFloat ([] ++ (d :: ip') ++ fp ++ ep)
                          end) as [-> ->].
    { destruct fp, ep; by injection Hv as <- <-. }
    split; [rewrite Hs; by rewrite <- !app_assoc|]. split.
    { exists d, (ip' ++ fp ++ ep). split; [done|]. by left. }
    split; [by destruct fp, ep|].
    intros r' Hr'.
    destruct (scan_number_body _ _ _ _ _ _ _ r' Hi Hf He Hr') as (_ & _ & Hi' & Hf' & He').
    change (((d :: ip') ++ fp ++ ep) ++ r') with (d :: (ip' ++ fp ++ ep) ++ r').
    cbv beta iota. rewrite (digit_not_minus d Hd).
    change (d :: (ip' ++ fp ++ ep) ++ r') with (((d :: ip') ++ fp ++ ep) ++ r').
    rewrite <- !app_assoc, Hi', Hf', He'.
    by destruct fp, ep.
Qed.

Lemma strip_prefix_Some p s r : strip_prefix p s = Some r -> s = p ++ r.
Proof.
  revert s. induction p as [|x p IH]; intros s; simpl.
  { by intros [= ->]. }
  destruct s as [|y s]; [done|].
  destruct (N.eqb_spec x y) as [->|]; [|done]. intros H. by rewrite (IH s H).
Qed.

Lemma strip_prefix_app p r : strip_prefix p (p ++ r) = Some r.
Proof. induction p as [|x p IH]; simpl; [done|]. by rewrite N.eqb_refl. Qed.

Ltac eval_lits :=
  repeat match goal with
         | |- context [lit ?s] =>
             let x := eval vm_compute in (lit s) in change (lit s) with x
         end.

Lemma scan_constant_consumed s v r :
  scan_constant s = Some (v, r) ->
  exists c, s = c ++ r /\ c <> [] /\ is_obj v = false
            /\ forall r', scan_constant (c ++ r') = Some (v, r').
Proof.
  unfold scan_constant.
  repeat match goal with
  | |- context [strip_prefix ?p s] =>
      let H := fresh "H" in
      destruct (strip_prefix p s) as [?|] eqn:H;
      [ apply strip_prefix_Some in H as ->; intros [= <- <-];
        eexists; split; [reflexivity|]; split; [done|]; split; [done|];
        intros r'; by vm_compute
      | clear H ]
  end.
  done.
Qed.

Lemma scan_constant_digit c s : is_digit c = true -> scan_constant (c :: s) = None.
Proof.
  unfold is_digit. intros [H1 H2]%andb_true_iff. apply N.leb_le in H1, H2.
  unfold scan_constant. eval_lits.
  assert (forall x r, (x <> c)%N -> strip_prefix (x :: r) (c :: s) = None) as Hne.
  { intros x r Hx. simpl. by destruct (N.eqb_spec x c). }
  rewrite !Hne; [done|..]; lia.
Qed.

Lemma scan_constant_minus c s : is_digit c = true -> scan_constant (c_minus :: c :: s) = None.
Proof.
  unfold is_digit. intros [H1 H2]%andb_true_iff. apply N.leb_le in H1, H2.
  unfold scan_constant. eval_lits.
  assert (forall x r, (x <> c_minus)%N -> strip_prefix (x :: r) (c_minus :: c :: s) = None) as Hne.
  { intros x r Hx. simpl. by destruct (N.eqb_spec x c_minus). }
  do 5 (rewrite Hne; [|unfold c_minus; lia]).
  cbn [strip_prefix]. unfold c_minus. rewrite N.eqb_refl.
  destruct (N.eqb_spec 73 c); [lia|done].
Qed.

Lemma skip_ws_inv r c t :
  skip_ws r = c :: t ->
  exists w, r = w ++ c :: t /\ forallb is_json_ws w = true /\ is_json_ws c = false.
Proof.
  intros H. destruct (drop_while_split is_json_ws r) as (w & Hr & Hw).
  fold (skip_ws r) in Hr. rewrite H in Hr. exists w. split; [done|]. split; [done|].
  by apply (drop_while_head _ _ _ _ H).
Qed.

Lemma skip_ws_app w c t :
  forallb is_json_ws w = true -> is_json_ws c = false -> skip_ws (w ++ c :: t) = c :: t.
Proof.
  intros Hw Hc. unfold skip_ws. rewrite drop_while_app; [|done]. by apply drop_while_stop.
Qed.

Lemma ws_not_number c : is_json_ws c = true -> is_number_char c = false.
Proof.
  unfold is_json_ws. intros H.
  repeat (apply orb_true_iff in H as [H|H]); apply N.eqb_eq in H as ->; done.
Qed.

Lemma stops_after_ws w c t :
  forallb is_json_ws w = true -> is_number_char c = false ->
  stops is_number_char (w ++ c :: t).
Proof.
  destruct w as [|x w]; simpl; [done|]. intros [Hx _]%andb_true_iff _.
  by apply ws_not_number.
Qed.

Lemma app_cons_head {A} (c r : list A) x t :
  c ++ r = x :: t -> c <> [] -> exists c', c = x :: c'.
Proof. destruct c as [|y c]; [done|]. intros [= -> _] _. eauto. Qed.

Lemma closes_other v c : is_obj v = false -> closes v c.
Proof. by destruct v. Qed.

Lemma last_cons_app {A} (x : A) w c y : last c = Some y -> last (x :: w ++ c) = Some y.
Proof.
  intros H. change (x :: w ++ c) with ((x :: w) ++ c).
  rewrite last_app, H. done.
Qed.

Lemma scan_once_step n :
  scan_members_ok n -> scan_elements_ok n -> scan_once_ok (S n).
Proof.
  intros IHm IHe s v r Hs. simpl in Hs.
  destruct s as [|c0 r0]; [done|].
  destruct (N.eqb c0 c_quote) eqn:Hq.
  { (* a string *)
    destruct (scanstring r0) as [[t rest]|] eqn:Ht; [|done]. injection Hs as <- <-.
    apply scanstring_consumed in Ht as (cs & -> & _ & Hcs).
    exists (c0 :: cs). split; [done|]. split; [done|]. split; [done|].
    intros [|m] r' Hm _; [simpl in Hm; lia|].
    simpl. by rewrite Hq, Hcs. }
  destruct (N.eqb c0 c_lbrace) eqn:Hlb.
  { (* an object *)
    destruct (skip_ws r0) as [|c1 r1] eqn:Hws; [done|].
    apply skip_ws_inv in Hws as (w & -> & Hw & Hc1).
    apply N.eqb_eq in Hlb as Hlb'.
    destruct (N.eqb c1 c_rbrace) eqn:Hrb.
    { injection Hs as <- <-. apply N.eqb_eq in Hrb as Hrb'.
      exists (c0 :: w ++ [c1]). split; [by rewrite <- app_comm_cons, <- app_assoc|].
      split; [done|]. split.
      { split; [by rewrite Hlb'|]. rewrite Hrb'. by apply last_cons_app. }
      intros [|m] r' Hm _; [simpl in Hm; lia|].
      rewrite <- app_comm_cons, <- app_assoc. simpl.
      by rewrite Hq, Hlb, (skip_ws_app w c1 r' Hw Hc1), Hrb. }
    destruct (N.eqb c1 c_quote) eqn:Hq1; [|done].
    apply IHm in Hs as (cm & -> & Hlast & Hobj & Hcm).
    exists (c0 :: w ++ c1 :: cm).
    split; [by rewrite <- app_comm_cons, <- app_assoc|]. split; [done|]. split.
    { destruct v; try done. split; [by rewrite Hlb'|].
      apply last_cons_app. change (c1 :: cm) with ([c1] ++ cm). by rewrite last_app, Hlast. }
    intros [|m] r' Hm _; [simpl in Hm; lia|].
    rewrite <- app_comm_cons, <- app_assoc. simpl.
    rewrite Hq, Hlb, (skip_ws_app w c1 (cm ++ r') Hw Hc1), Hrb, Hq1.
    apply Hcm. simpl in Hm. rewrite length_app in Hm. simpl in Hm. lia. }
  destruct (N.eqb c0 c_lbracket) eqn:Hlk.
  { (* an array *)
    destruct (skip_ws r0) as [|c1 r1] eqn:Hws; [done|].
    apply skip_ws_inv in Hws as (w & -> & Hw & Hc1).
    destruct (N.eqb c1 c_rbracket) eqn:Hrk.
    { injection Hs as <- <-.
      exists (c0 :: w ++ [c1]). split; [by rewrite <- app_comm_cons, <- app_assoc|].
      split; [done|]. split; [done|].
      intros [|m] r' Hm _; [simpl in Hm; lia|].
      rewrite <- app_comm_cons, <- app_assoc. simpl.
      by rewrite Hq, Hlb, Hlk, (skip_ws_app w c1 r' Hw Hc1), Hrk. }
    apply IHe in Hs as (ce & Hce & Hne & Hobj & Hcm).
    destruct (app_cons_head _ _ _ _ (eq_sym Hce) Hne) as [ce' ->].
    injection Hce as ->.
    exists (c0 :: w ++ c1 :: ce').
    split; [by rewrite <- app_comm_cons, <- app_assoc|]. split; [done|].
    split; [by apply closes_other|].
    intros [|m] r' Hm _; [simpl in Hm; lia|].
    rewrite <- app_comm_cons, <- app_assoc. simpl.
    rewrite Hq, Hlb, Hlk, (skip_ws_app w c1 (ce' ++ r') Hw Hc1), Hrk.
    apply (Hcm m r'). simpl in Hm. rewrite length_app in Hm. simpl in Hm. simpl. lia. }
  destruct (scan_constant (c0 :: r0)) as [[v' r'']|] eqn:Hc.
  { (* a named constant *)
    injection Hs as <- <-.
    apply scan_constant_consumed in Hc as (c & Hc & Hne & Hobj & Hcc).
    destruct (app_cons_head _ _ _ _ (eq_sym Hc) Hne) as [c' ->].
    injection Hc as ->.
    exists (c0 :: c'). split; [done|]. split; [done|]. split; [by apply closes_other|].
    intros [|m] r' Hm _; [simpl in Hm; lia|].
    specialize (Hcc r'). rewrite <- app_comm_cons in *. simpl.
    by rewrite Hq, Hlb, Hlk, Hcc. }
  (* a number *)
  pose proof Hs as Hs0.
  apply scan_number_consumed in Hs as (c & Hcr & (d0 & c' & -> & Hd) & Hobj & Hcc).
  injection Hcr as -> ->.
  exists (d0 :: c'). split; [done|]. split; [done|]. split; [by apply closes_other|].
  intros [|m] r' Hm Hr'; [simpl in Hm; lia|].
  rewrite <- app_comm_cons. simpl. rewrite Hq, Hlb, Hlk.
  assert (scan_constant (d0 :: c' ++ r') = None) as ->.
  { destruct Hd as [Hd|(-> & c1 & c'' & -> & Hd)].
    - by apply scan_constant_digit.
    - by apply scan_constant_minus. }
  destruct Hr' as [->|Hr']; [exact Hs0|].
  by apply (Hcc r').
Qed.

Ltac len_lia H :=
  repeat (rewrite ?length_app in H; cbn [length] in H); lia.

Lemma skip_ws_inv' r t :
  skip_ws r = t -> exists w, r = w ++ t /\ forallb is_json_ws w = true /\ stops is_json_ws t.
Proof.
  intros <-. destruct (drop_while_split is_json_ws r) as (w & Hr & Hw).
  exists w. split; [done|]. split; [done|].
  unfold skip_ws. destruct (drop_while is_json_ws r) as [|c t] eqn:Hd; [done|].
  by apply (drop_while_head _ _ _ _ Hd).
Qed.

Lemma skip_ws_app' w t :
  forallb is_json_ws w = true -> stops is_json_ws t -> t <> [] -> skip_ws (w ++ t) = t.
Proof.
  intros Hw Ht Hne. destruct t as [|c t]; [done|]. by apply skip_ws_app.
Qed.

Lemma scan_members_step n :
  scan_once_ok n -> scan_members_ok n -> scan_members_ok (S n).
Proof.
  intros IHo IHm acc s v r Hs. simpl in Hs.
  destruct (scanstring s) as [[key r1]|] eqn:Hkey; [|done].
  apply scanstring_consumed in Hkey as (ck & -> & _ & Hck).
  destruct (skip_ws r1) as [|c r2] eqn:Hws1; [done|].
  apply skip_ws_inv in Hws1 as (w1 & -> & Hw1 & Hc).
  destruct (N.eqb c c_colon) eqn:Hcolon; [|done].
  destruct (scan_once n (skip_ws r2)) as [[v1 r3]|] eqn:Hval; [|done].
  destruct (skip_ws_inv' r2 _ eq_refl) as (w2 & Hr2 & Hw2 & Hstop2).
  apply IHo in Hval as (cv & Hcv & Hcvne & _ & Hval).
  rewrite Hcv in Hr2, Hstop2. subst r2. clear Hcv.
  destruct (skip_ws r3) as [|c1 r4] eqn:Hws3; [done|].
  apply skip_ws_inv in Hws3 as (w3 & -> & Hw3 & Hc1).
  assert (Hcvstop : forall t, stops is_json_ws (cv ++ t)).
  { intros t. destruct cv; [done|]. done. }
  assert (Hvalue : forall m t, length cv <= m -> is_number_char c1 = false ->
            scan_once m (cv ++ w3 ++ c1 :: t) = Some (v1, w3 ++ c1 :: t)).
  { intros m t Hm Hnum. apply Hval; [done|]. right. by apply stops_after_ws. }
  destruct (N.eqb c1 c_rbrace) eqn:Hrb.
  { injection Hs as <- <-. apply N.eqb_eq in Hrb as Hrb'.
    exists (ck ++ w1 ++ c :: w2 ++ cv ++ w3 ++ [c1]).
    split; [by repeat (rewrite <- ?app_assoc, <- ?app_comm_cons)|].
    split.
    { replace (ck ++ w1 ++ c :: w2 ++ cv ++ w3 ++ [c1])
        with ((ck ++ w1 ++ c :: w2 ++ cv ++ w3) ++ [c1])
        by (by repeat (rewrite <- ?app_assoc, <- ?app_comm_cons)).
      by rewrite last_snoc, Hrb'. }
    split; [done|].
    intros [|m] r' Hm; [len_lia Hm|].
    repeat (rewrite <- ?app_assoc, <- ?app_comm_cons). simpl app.
    simpl. rewrite Hck, (skip_ws_app w1 c _ Hw1 Hc), Hcolon.
    rewrite (skip_ws_app' w2 _ Hw2 (Hcvstop _)); [|by destruct cv].
    rewrite Hvalue; [|len_lia Hm|by rewrite Hrb'].
    by rewrite (skip_ws_app w3 c1 r' Hw3 Hc1), Hrb. }
  destruct (N.eqb c1 c_comma) eqn:Hcomma; [|done].
  apply N.eqb_eq in Hcomma as Hcomma'.
  destruct (skip_ws r4) as [|c2 r5] eqn:Hws4; [done|].
  apply skip_ws_inv in Hws4 as (w4 & -> & Hw4 & Hc2).
  destruct (N.eqb c2 c_quote) eqn:Hq2; [|done].
  apply IHm in Hs as (cm & -> & Hlast & Hobj & Hcm).
  exists (ck ++ w1 ++ c :: w2 ++ cv ++ w3 ++ c1 :: w4 ++ c2 :: cm).
  split; [by repeat (rewrite <- ?app_assoc, <- ?app_comm_cons)|].
  split.
  { replace (ck ++ w1 ++ c :: w2 ++ cv ++ w3 ++ c1 :: w4 ++ c2 :: cm)
      with ((ck ++ w1 ++ c :: w2 ++ cv ++ w3 ++ c1 :: w4 ++ [c2]) ++ cm)
      by (by repeat (rewrite <- ?app_assoc, <- ?app_comm_cons)).
    by rewrite last_app, Hlast. }
  split; [done|].
  intros [|m] r' Hm; [len_lia Hm|].
  repeat (rewrite <- ?app_assoc, <- ?app_comm_cons). simpl app.
  simpl. rewrite Hck, (skip_ws_app w1 c _ Hw1 Hc), Hcolon.
  rewrite (skip_ws_app' w2 _ Hw2 (Hcvstop _)); [|by destruct cv].
  assert (Hlen : length cv <= m /\ length cm <= m).
  { split; len_lia Hm. }
  rewrite Hvalue; [|lia|by rewrite Hcomma'].
  rewrite (skip_ws_app w3 c1 _ Hw3 Hc1), Hrb, Hcomma.
  rewrite (skip_ws_app w4 c2 _ Hw4 Hc2), Hq2.
  apply Hcm. lia.
Qed.

Lemma scan_elements_step n :
  scan_once_ok n -> scan_elements_ok n -> scan_elements_ok (S n).
Proof.
  intros IHo IHe acc s v r Hs. simpl in Hs.
  destruct (scan_once n s) as [[v1 r1]|] eqn:Hval; [|done].
  apply IHo in Hval as (cv & -> & Hcvne & _ & Hval).
  destruct (skip_ws r1) as [|c r2] eqn:Hws1; [done|].
  apply skip_ws_inv in Hws1 as (w1 & -> & Hw1 & Hc).
  assert (Hvalue : forall m t, length cv <= m -> is_number_char c = false ->
            scan_once m (cv ++ w1 ++ c :: t) = Some (v1, w1 ++ c :: t)).
  { intros m t Hm Hnum. apply Hval; [done|]. right. by apply stops_after_ws. }
  destruct (N.eqb c c_rbracket) eqn:Hrk.
  { injection Hs as <- <-. apply N.eqb_eq in Hrk as Hrk'.
    exists (cv ++ w1 ++ [c]).
    split; [by repeat (rewrite <- ?app_assoc, <- ?app_comm_cons)|].
    split; [by destruct cv|]. split; [done|].
    intros [|m] r' Hm; [len_lia Hm|].
    repeat (rewrite <- ?app_assoc, <- ?app_comm_cons). simpl app. simpl.
    rewrite Hvalue; [|len_lia Hm|by rewrite Hrk'].
    by rewrite (skip_ws_app w1 c r' Hw1 Hc), Hrk. }
  destruct (N.eqb c c_comma) eqn:Hcomma; [|done].
  apply N.eqb_eq in Hcomma as Hcomma'.
  destruct (skip_ws_inv' r2 _ eq_refl) as (w2 & Hr2 & Hw2 & Hstop2).
  apply IHe in Hs as (ce & Hce & Hcene & Hobj & Hcm).
  rewrite Hce in Hr2, Hstop2. subst r2. clear Hce.
  exists (cv ++ w1 ++ c :: w2 ++ ce).
  split; [by repeat (rewrite <- ?app_assoc, <- ?app_comm_cons)|].
  split; [by destruct cv|]. split; [done|].
  intros [|m] r' Hm; [len_lia Hm|].
  repeat (rewrite <- ?app_assoc, <- ?app_comm_cons). simpl app. simpl.
  assert (Hlen : length cv <= m /\ length ce <= m).
  { split; len_lia Hm. }
  rewrite Hvalue; [|lia|by rewrite Hcomma'].
  rewrite (skip_ws_app w1 c _ Hw1 Hc), Hrk, Hcomma.
  rewrite (skip_ws_app' w2 (ce ++ r') Hw2); [by apply Hcm; lia| |by destruct ce].
  destruct ce; [done|]. done.
Qed.

Lemma scan_consumed n : scan_once_ok n /\ scan_members_ok n /\ scan_elements_ok n.
Proof.
  induction n as [|n (IHo & IHm & IHe)].
  - repeat split; by intros ?.
  - repeat split.
    + by apply scan_once_step.
    + by apply scan_members_step.
    + by apply scan_elements_step.
Qed.

(** ** The response parser *)


(** The fuel [json_loads] gives is enough: a scan that succeeds with any
    fuel succeeds with it. *)
Lemma json_loads_fuel n s v r :
  scan_once n (skip_ws s) = Some (v, r) -> skip_ws r = [] -> json_loads s = Some v.
Proof.
  intros Hs Hr. destruct (scan_consumed n) as (Ho & _ & _).
  destruct (Ho _ _ _ Hs) as (c & Hc & _ & _ & Hm).
  unfold json_loads. rewrite Hc.
  rewrite (Hm (S (length (c ++ r))) r); [by rewrite Hr| |by left].
  rewrite length_app. lia.
Qed.

Lemma skip_ws_nil r : skip_ws r = [] -> forallb is_json_ws r = true.
Proof.
  intros H. destruct (drop_while_split is_json_ws r) as (w & Hr & Hw).
  fold (skip_ws r) in Hr. rewrite H, app_nil_r in Hr. by subst.
Qed.

Lemma skip_ws_all w : forallb is_json_ws w = true -> skip_ws w = [].
Proof.
  intros Hw. unfold skip_ws. rewrite <- (app_nil_r w). by rewrite drop_while_app.
Qed.

Lemma lbrace_not_ws : is_json_ws c_lbrace = false.
Proof. done. Qed.

(** A text that decodes to an object is the text of the object between
    JSON whitespace, and the object's text alone decodes to the same. *)
Lemma json_loads_object j d :
  json_loads j = Some (JObj d) ->
  exists w1 c w2,
    j = w1 ++ c ++ w2
    /\ forallb is_json_ws w1 = true /\ forallb is_json_ws w2 = true
    /\ head c = Some c_lbrace /\ last c = Some c_rbrace
    /\ json_loads c = Some (JObj d).
Proof.
  unfold json_loads.
  destruct (scan_once _ (skip_ws j)) as [[v r]|] eqn:Hs; [|done].
  destruct (skip_ws r) as [|? ?] eqn:Hr; [|done]. intros [= ->].
  destruct (skip_ws_inv' j _ eq_refl) as (w1 & Hj & Hw1 & _).
  destruct (scan_consumed (S (length (skip_ws j)))) as (Ho & _ & _).
  destruct (Ho _ _ _ Hs) as (c & Hc & Hne & [Hh Hl] & Hm).
  exists w1, c, r. split; [by rewrite <- Hc|]. split; [done|].
  split; [by apply skip_ws_nil|]. split; [done|]. split; [done|].
  assert (Hskip : skip_ws c = c).
  { destruct c as [|c0 c']; [done|]. injection Hh as ->.
    unfold skip_ws. by apply drop_while_stop. }
  rewrite Hskip. rewrite <- (app_nil_r c) at 2.
  rewrite (Hm (S (length c)) []); [done|lia|by right].
Qed.

(** ** The text clean-up *)

Lemma json_ws_space c : is_json_ws c = true -> is_space c = true.
Proof.
  unfold is_json_ws. intros H.
  repeat (apply orb_true_iff in H as [H|H]); apply N.eqb_eq in H as ->; done.
Qed.

Lemma forallb_json_ws_space w : forallb is_json_ws w = true -> forallb is_space w = true.
Proof.
  induction w as [|c w IH]; [done|]. simpl. intros [Hc Hw]%andb_true_iff.
  by rewrite (json_ws_space c Hc), IH.
Qed.

Lemma forallb_rev {A} (f : A -> bool) l : forallb f (rev l) = forallb f l.
Proof.
  induction l as [|x l IH]; [done|]. simpl. rewrite forallb_app, IH. simpl.
  rewrite andb_true_r. apply andb_comm.
Qed.

Lemma drop_while_all f w : forallb f w = true -> drop_while f w = [].
Proof.
  intros Hw. rewrite <- (app_nil_r w). by rewrite drop_while_app.
Qed.

Lemma lstrip_solid w c :
  forallb is_space w = true -> solid c -> forall t, lstrip (w ++ c ++ t) = c ++ t.
Proof.
  intros Hw [(x & Hx & Hsp) _] t. unfold lstrip. rewrite drop_while_app; [|done].
  destruct c as [|c0 c']; [done|]. injection Hx as ->. by apply drop_while_stop.
Qed.

Lemma rev_last_cons {A} (c : list A) y :
  last c = Some y -> exists c', rev c = y :: c'.
Proof.
  intros H. destruct (rev c) as [|z c'] eqn:Hr.
  - apply (f_equal (@rev A)) in Hr. rewrite rev_involutive in Hr. by subst.
  - exists c'. f_equal. 
    assert (c = rev c' ++ [z]) as ->.
    { rewrite <- (rev_involutive c), Hr. done. }
    rewrite last_snoc in H. by injection H.
Qed.

Lemma rstrip_solid w c :
  forallb is_space w = true -> solid c -> forall t, rstrip (t ++ c ++ w) = t ++ c.
Proof.
  intros Hw [_ (y & Hy & Hsp)] t. unfold rstrip.
  rewrite !rev_app_distr. rewrite <- app_assoc.
  rewrite drop_while_app; [|by rewrite forallb_rev].
  destruct (rev_last_cons c y Hy) as [c' Hc']. rewrite Hc'.
  rewrite <- app_comm_cons, drop_while_stop; [|done].
  rewrite app_comm_cons, <- Hc', <- rev_app_distr. apply rev_involutive.
Qed.

Lemma strip_solid w1 c w2 :
  forallb is_space w1 = true -> forallb is_space w2 = true -> solid c ->
  strip (w1 ++ c ++ w2) = c.
Proof.
  intros H1 H2 Hc. unfold strip. rewrite (lstrip_solid w1 c H1 Hc).
  by apply (rstrip_solid w2 c H2 Hc []).
Qed.

Lemma strip_solid_id c : solid c -> strip c = c.
Proof.
  intros Hc. pose proof (strip_solid [] c [] eq_refl eq_refl Hc) as H.
  simpl in H. by rewrite app_nil_r in H.
Qed.

Lemma braced_solid c : braced c -> solid c.
Proof. intros [Hh Hl]. split; eauto. Qed.

Lemma sub_fence_open_braced c t : braced c -> sub_fence_open (c ++ t) = c ++ t.
Proof.
  intros [Hh _]. destruct c as [|c0 c']; [done|]. injection Hh as ->. done.
Qed.

Lemma sub_fence_close_braced c t : braced c -> sub_fence_close (t ++ c) = t ++ c.
Proof.
  intros [_ Hl]. unfold sub_fence_close.
  destruct (rev_last_cons c _ Hl) as [c' Hc'].
  rewrite rev_app_distr, Hc'. done.
Qed.

Lemma strip_fences_object w1 c w2 :
  forallb is_space w1 = true -> forallb is_space w2 = true -> braced c ->
  strip_fences (w1 ++ c ++ w2) = c.
Proof.
  intros H1 H2 Hc. unfold strip_fences.
  rewrite (strip_solid w1 c w2 H1 H2 (braced_solid c Hc)).
  pose proof (sub_fence_open_braced c [] Hc) as Ho. rewrite app_nil_r in Ho.
  pose proof (sub_fence_close_braced c [] Hc) as Hcl. simpl in Hcl.
  rewrite Ho, Hcl. by apply strip_solid_id, braced_solid.
Qed.

Lemma lacks_app x a b : lacks x (a ++ b) <-> lacks x a /\ lacks x b.
Proof. unfold lacks. rewrite forallb_app. apply andb_true_iff. Qed.

Lemma lacks_rev x a : lacks x (rev a) <-> lacks x a.
Proof. unfold lacks. by rewrite forallb_rev. Qed.

Lemma lacks_drop_while x f a : lacks x a -> lacks x (drop_while f a).
Proof.
  intros H. destruct (drop_while_split f a) as (w & Ha & _).
  rewrite Ha in H. by apply lacks_app in H as [_ H].
Qed.

Lemma lacks_strip_prefix x p a a' : strip_prefix p a = Some a' -> lacks x a -> lacks x a'.
Proof. intros ->%strip_prefix_Some H. by apply lacks_app in H as [_ H]. Qed.

Lemma strip_prefix_stop p a c0 rest :
  lacks c0 p ->
  strip_prefix p (a ++ c0 :: rest) =
    match strip_prefix p a with
    | Some a' => Some (a' ++ c0 :: rest)
    | None => match p with [] => Some (a ++ c0 :: rest) | _ => None end
    end.
Proof.
  revert a. induction p as [|x p IH]; intros a Hp; [done|].
  unfold lacks in Hp. simpl in Hp. apply andb_true_iff in Hp as [Hx Hp].
  apply negb_true_iff in Hx.
  destruct a as [|y a]; simpl.
  - by rewrite Hx.
  - destruct (N.eqb x y); [|done]. rewrite (IH a Hp).
    destruct (strip_prefix p a) eqn:E; [done|]. by destruct p.
Qed.

Section Framed.

Variable c : str.
Hypothesis Hc : braced c.

Lemma braced_cons : exists c', c = c_lbrace :: c'.
Proof using Hc. destruct Hc as [Hh _]. destruct c as [|c0 c']; [done|]. injection Hh as ->. eauto. Qed.

Lemma braced_rev_cons : exists c', rev c = c_rbrace :: c'.
Proof using Hc. destruct Hc as [_ Hl]. by apply rev_last_cons. Qed.

Lemma lstrip_framed a b : lstrip (a ++ c ++ b) = lstrip a ++ c ++ b.
Proof using Hc.
  destruct braced_cons as [c' ->]. unfold lstrip.
  rewrite <- app_comm_cons. by apply drop_while_app_stop.
Qed.

Lemma rstrip_framed a b : rstrip (a ++ c ++ b) = a ++ c ++ rstrip b.
Proof using Hc.
  destruct braced_rev_cons as [c' Hc']. unfold rstrip.
  rewrite !rev_app_distr, <- app_assoc, Hc', <- app_comm_cons.
  rewrite drop_while_app_stop; [|done].
  rewrite app_comm_cons, <- Hc'.
  by rewrite !rev_app_distr, !rev_involutive, <- app_assoc.
Qed.

Lemma framed_lstrip t : framed c t -> framed c (lstrip t).
Proof using Hc.
  intros (a & b & -> & Ha & Hb). rewrite lstrip_framed.
  exists (lstrip a), b. split; [done|]. split; [by apply lacks_drop_while|done].
Qed.

Lemma framed_rstrip t : framed c t -> framed c (rstrip t).
Proof using Hc.
  intros (a & b & -> & Ha & Hb). rewrite rstrip_framed.
  exists a, (rstrip b). split; [done|]. split; [done|].
  unfold rstrip. by apply lacks_rev, lacks_drop_while, lacks_rev.
Qed.

Lemma framed_strip t : framed c t -> framed c (strip t).
Proof using Hc. intros H. by apply framed_rstrip, framed_lstrip. Qed.

Lemma strip_prefix_framed p a b :
  lacks c_lbrace p -> p <> [] ->
  strip_prefix p (a ++ c ++ b) =
    match strip_prefix p a with Some a' => Some (a' ++ c ++ b) | None => None end.
Proof using Hc.
  intros Hp Hne. destruct braced_cons as [c' ->].
  rewrite <- app_comm_cons, strip_prefix_stop; [|done].
  destruct (strip_prefix p a); [done|]. by destruct p.
Qed.

Lemma framed_sub_fence_open t : framed c t -> framed c (sub_fence_open t).
Proof using Hc.
  intros (a & b & -> & Ha & Hb). unfold sub_fence_open.
  rewrite (strip_prefix_framed fence); [|done..].
  destruct (strip_prefix fence a) as [a1|] eqn:H1.
  2:{ by exists a, b. }
  pose proof (lacks_strip_prefix _ _ _ _ H1 Ha) as Ha1.
  rewrite (strip_prefix_framed word_json); [|done..].
  destruct (strip_prefix word_json a1) as [a2|] eqn:H2.
  - apply framed_lstrip. exists a2, b. split; [done|]. split; [|done].
    by apply (lacks_strip_prefix _ _ _ _ H2).
  - apply framed_lstrip. by exists a1, b.
Qed.

Lemma framed_sub_fence_close t : framed c t -> framed c (sub_fence_close t).
Proof using Hc.
  intros (a & b & -> & Ha & Hb). unfold sub_fence_close.
  destruct braced_rev_cons as [c' Hc'].
  rewrite !rev_app_distr, <- app_assoc, Hc', <- app_comm_cons.
  rewrite drop_while_app_stop; [|done].
  rewrite strip_prefix_stop; [|done].
  destruct (strip_prefix fence (drop_while is_space (rev b))) as [b2|] eqn:H2.
  2:{ by exists a, b. }
  rewrite drop_while_app_stop; [|done].
  rewrite app_comm_cons, <- Hc'.
  rewrite !rev_app_distr, !rev_involutive, <- app_assoc.
  exists a, (rev (drop_while is_space b2)). split; [done|]. split; [done|].
  apply lacks_rev, lacks_drop_while. apply (lacks_strip_prefix _ _ _ _ H2).
  by apply lacks_drop_while, lacks_rev.
Qed.

Lemma framed_strip_fences t : framed c t -> framed c (strip_fences t).
Proof using Hc.
  intros H. unfold strip_fences.
  by apply framed_strip, framed_sub_fence_close, framed_sub_fence_open, framed_strip.
Qed.

Lemma search_braces_framed t : framed c t -> search_braces t = Some c.
Proof using Hc.
  intros (a & b & -> & Ha & Hb). unfold search_braces.
  destruct braced_cons as [c' Ec]. destruct braced_rev_cons as [c'' Ec'].
  rewrite drop_while_app; [|done].
  rewrite Ec at 1. rewrite <- app_comm_cons, drop_while_stop; [|done].
  rewrite app_comm_cons, <- Ec.
  rewrite rev_app_distr, drop_while_app; [|by apply lacks_rev].
  rewrite Ec', drop_while_stop; [|done].
  by rewrite <- Ec', rev_involutive.
Qed.

End Framed.

Lemma strip_prefix_word_json W c t :
  forallb is_space W = true -> braced c -> strip_prefix word_json (W ++ c ++ t) = None.
Proof.
  intros HW Hc. destruct (braced_cons c Hc) as [c' ->].
  destruct W as [|y W]; [by vm_compute|].
  simpl in HW. apply andb_true_iff in HW as [Hy _].
  change word_json with (106%N :: [115; 111; 110]%N). cbn [strip_prefix app].
  destruct (N.eqb_spec 106 y) as [<-|]; [by vm_compute in Hy|done].
Qed.

Lemma strip_fences_fenced w1 c w2 raw :
  forallb is_space w1 = true -> forallb is_space w2 = true -> braced c ->
  fenced (w1 ++ c ++ w2) raw -> strip_fences raw = c.
Proof.
  intros Hw1 Hw2 Hc (ws0 & lang & wsa & wsb & wsc & -> & Hlang & H0 & Ha & Hb & Hcl).
  set (B := (w2 ++ wsb) ++ fence).
  set (A := (wsa ++ w1) ++ c ++ B).
  assert (HA : forall l, l ++ wsa ++ (w1 ++ c ++ w2) ++ wsb ++ fence = l ++ A).
  { intros l. subst A B. by repeat rewrite <- ?app_assoc. }
  assert (HWa : forallb is_space (wsa ++ w1) = true) by (by rewrite forallb_app, Ha, Hw1).
  assert (HWb : forallb is_space (w2 ++ wsb) = true) by (by rewrite forallb_app, Hw2, Hb).
  assert (Hstrip : strip (ws0 ++ fence ++ lang ++ wsa ++ (w1 ++ c ++ w2) ++ wsb ++ fence ++ wsc)
                   = fence ++ lang ++ A).
  { replace (ws0 ++ fence ++ lang ++ wsa ++ (w1 ++ c ++ w2) ++ wsb ++ fence ++ wsc)
      with (ws0 ++ (fence ++ lang ++ A) ++ wsc)
      by (subst A B; by repeat rewrite <- ?app_assoc).
    apply strip_solid; [done|done|]. split.
    - by exists c_backtick.
    - exists c_backtick. split; [|done].
      replace (fence ++ lang ++ A)
        with ((fence ++ lang ++ (wsa ++ w1) ++ c ++ (w2 ++ wsb)) ++ fence)
        by (subst A B; by repeat rewrite <- ?app_assoc).
      by rewrite last_app. }
  assert (Hopen : sub_fence_open (fence ++ lang ++ A) = c ++ B).
  { unfold sub_fence_open. rewrite strip_prefix_app.
    destruct Hlang as [->| ->].
    - simpl app. subst A. rewrite (strip_prefix_word_json _ c B HWa Hc).
      by apply lstrip_solid, braced_solid.
    - rewrite strip_prefix_app. subst A. by apply lstrip_solid, braced_solid. }
  assert (Hclose : sub_fence_close (c ++ B) = c).
  { unfold sub_fence_close. subst B.
    destruct (braced_rev_cons c Hc) as [c' Hc'].
    rewrite (rev_app_distr c), (rev_app_distr (w2 ++ wsb)).
    change (rev fence) with fence. rewrite <- app_assoc.
    assert (Hd : forall X, drop_while is_space (fence ++ X) = fence ++ X) by done.
    rewrite Hd, strip_prefix_app.
    rewrite drop_while_app; [|by rewrite forallb_rev].
    rewrite Hc', drop_while_stop; [|done].
    by rewrite <- Hc', rev_involutive. }
  unfold strip_fences. rewrite Hstrip, Hopen, Hclose.
  by apply strip_solid_id, braced_solid.
Qed.

Lemma clean_json_response_direct raw v :
  json_loads (strip_fences raw) = Some v -> clean_json_response raw = Ok v.
Proof. unfold clean_json_response. by intros ->. Qed.




(** ** The worker *)

Lemma filter_selects_up_to_threshold_witness :
  exists to_process skipped,
    select_work example_questions = Ok (to_process, skipped)
    /\ length to_process + skipped = length example_questions
    /\ (forall q, q ∈ example_questions ->
          (q ∈ to_process <-> exists n, analysis_length q = Ok n /\ (n <= 500)%nat))
    /\ (forall q, q ∈ example_questions -> analysis_length q = Ok 500%nat -> q ∈ to_process)
    /\ (forall q, q ∈ example_questions -> analysis_length q = Ok 501%nat -> q ∉ to_process).
Proof.
  apply (filter_selects_up_to_threshold example_questions).
  intros q Hq. apply list_elem_of_In in Hq. simpl in Hq.
  destruct Hq as [<-|[<-|[<-|[]]]]; eexists; vm_compute; reflexivity.
Defined.

Lemma requests_app a b : requests (a ++ b) = requests a + requests b.
Proof. unfold requests. by rewrite List.filter_app, length_app. Qed.

Lemma requests_cons e a :
  requests (e :: a) = (if is_request e then 1 else 0) + requests a.
Proof. unfold requests. simpl. by destruct (is_request e). Qed.

Lemma timeline_app a b : timeline (a ++ b) = timeline a ++ timeline b.
Proof. apply omap_app. Qed.

Lemma timeline_cons e a :
  timeline (e :: a) = match tick_of e with Some t => t :: timeline a | None => timeline a end.
Proof. done. Qed.

Ltac timeline_eval :=
  repeat (rewrite ?timeline_app, ?timeline_cons); cbn [tick_of];
  change (timeline []) with (@nil tick).

Ltac req_lia :=
  repeat (rewrite ?requests_app, ?requests_cons); cbn [is_request];
  change (requests []) with 0; lia.

Section WorkerFacts.

Variable py_repr : json -> str.
Variable chat : chat_client.
Variable system_prompt : str.
Variable question : dict.

Lemma handle_reply_fields reply result :
  handle_reply py_repr reply = Ok result ->
  py_contains k_legalReference result = Ok true
  /\ py_contains k_analysis result = Ok true.
Proof.
  unfold handle_reply. destruct reply as [e|[raw|]]; try done.
  destruct (clean_json_response raw) as [v|e]; [|done]. simpl.
  destruct (py_contains k_legalReference v) as [[|]|] eqn:H1; try done. simpl.
  destruct (py_contains k_analysis v) as [[|]|] eqn:H2; try done. simpl.
  by intros [= <-].
Qed.

Lemma try_attempt_events a :
  timeline (try_attempt py_repr chat system_prompt question a).1 = [] /\ requests (try_attempt py_repr chat system_prompt question a).1 <= 1.
Proof.
  unfold try_attempt, requests.
  destruct (build_user_prompt py_repr question); simpl; split; done || lia.
Qed.

Lemma try_attempt_fields a result :
  (try_attempt py_repr chat system_prompt question a).2 = Ok result ->
  py_contains k_legalReference result = Ok true
  /\ py_contains k_analysis result = Ok true.
Proof.
  unfold try_attempt.
  destruct (build_user_prompt py_repr question); simpl; [|done].
  apply handle_reply_fields.
Qed.


End WorkerFacts.

(** ** The worker contains what its attempts raise *)


(** The run of the example: two failures, waits of 2 and 4, success at the
    third attempt. *)
Example worker_third_attempt_succeeds :
  exists tr,
    process_one repr_blank flaky_chat [] example_question
      = Ok (tr, Some (JInt 7, Some (JObj example_object)))
    /\ timeline tr = [TFailed 1; TSleep 2; TFailed 2; TSleep 4; TDone 3]
    /\ requests tr = 3.
Proof. eexists. split; [vm_compute; reflexivity|]. split; vm_compute; reflexivity. Qed.

Section WorkerSafety.

Variable py_repr : json -> str.
Variable chat : chat_client.
Variable system_prompt : str.
Variable question : dict.


End WorkerSafety.


(** ** The request builder *)


Lemma letter_at_ok i : i < 4 -> succeeds (letter_at i).
Proof.
  intros Hi. unfold letter_at. change (lit "ABCD") with [65; 66; 67; 68]%N.
  do 4 (destruct i as [|i]; [by eexists|]). lia.
Qed.

Lemma letter_at_fail i : 4 <= i -> letter_at i = Raise IndexError.
Proof.
  intros Hi. unfold letter_at. change (lit "ABCD") with [65; 66; 67; 68]%N.
  do 4 (destruct i as [|i]; [lia|]). done.
Qed.

Lemma letter_of_ok v :
  succeeds (letter_of v) <->
  match v with
  | JInt z => ((-4 <=? z) && (z <=? 3))%Z = true
  | JBool _ => True
  | _ => False
  end.
Proof.
  destruct v as [|b|z| | | |]; simpl; try (split; [by intros [? ?]|done]).
  - split; [done|]. intros _. apply letter_at_ok. destruct b; lia.
  - destruct (Z.leb_spec 0 z).
    + destruct (Z.leb_spec z 3).
      * rewrite andb_true_r. split; [intros _; apply Z.leb_le; lia|].
        intros _. apply letter_at_ok. lia.
      * rewrite andb_false_r. split; [|done].
        rewrite letter_at_fail by lia. by intros [? ?].
    + destruct (Z.leb_spec (-4) z); simpl.
      * split; [intros _; apply Z.leb_le; lia|]. intros _. apply letter_at_ok. lia.
      * split; [by intros [? ?]|done].
Qed.

Section PromptFacts.

Variable py_repr : json -> str.

Lemma option_lines_ok opts n :
  succeeds (mapM (option_line py_repr) (imap (fun i o => (n + i, o)) opts))
  <-> (opts = [] \/ n + length opts <= 4).
Proof.
  revert n. induction opts as [|o opts IH]; intros n.
  { split; [by left|]. intros _. by eexists. }
  rewrite (imap_cons (fun i o => (n + i, o))). 
  rewrite (imap_ext _ (fun i o => (S n + i, o))) by (intros; simpl; f_equal; lia).
  change (mapM ?f (?x :: ?l)) with (y ← f x; k ← mapM f l; mret (y :: k)).
  rewrite Nat.add_0_r.
  change (option_line py_repr (n, o))
    with (l ← letter_at n; Ok (lit "  " ++ [l] ++ lit ". " ++ py_format py_repr o)).
  pose proof (IH (S n)) as IHn.
  destruct (mapM (option_line py_repr) (imap (fun i o => (S n + i, o)) opts))
    as [lines|e].
  - destruct IHn as [IHn _]. specialize (IHn (ex_intro _ lines eq_refl)).
    destruct (Nat.lt_ge_cases n 4) as [Hn|Hn].
    + destruct (letter_at_ok n Hn) as [l ->].
      split; [|intros _; by eexists]. intros _. right.
      destruct IHn as [->|IHn]; simpl; lia.
    + rewrite (letter_at_fail n Hn).
      split; [by intros [? ?]|]. intros [?|Hlen]; [done|]. simpl in Hlen. lia.
  - destruct IHn as [_ IHn].
    assert (Hno : ~ (opts = [] \/ S n + length opts <= 4)).
    { intros H. by destruct (IHn H). }
    split.
    + intros [x Hx]. destruct (letter_at n); done.
    + intros [?|Hlen]; [done|]. simpl in Hlen. destruct Hno.
      destruct opts; [by left|]. right. simpl in *. lia.
Qed.


End PromptFacts.


Example request_builder_accepts_example :
  promptable example_question = true
  /\ succeeds (build_user_prompt repr_blank example_question).
Proof. split; [vm_compute; reflexivity|]. eexists. vm_compute. reflexivity. Qed.

(** ** Records, keys and the index *)

Lemma str_eqb_eq a b : str_eqb a b = true <-> a = b.
Proof. unfold str_eqb. apply bool_decide_eq_true. Qed.

Lemma str_eqb_refl a : str_eqb a a = true.
Proof. by apply str_eqb_eq. Qed.

Lemma str_eqb_neq a b : a <> b -> str_eqb a b = false.
Proof. intros H. unfold str_eqb. by apply bool_decide_eq_false. Qed.

Lemma dict_get_set_eq k v d : dict_get k (dict_set k v d) = Some v.
Proof.
  induction d as [|[k' v'] d IH]; simpl; [by rewrite str_eqb_refl|].
  destruct (str_eqb k k') eqn:E; simpl; [by rewrite str_eqb_refl|by rewrite E].
Qed.

Lemma dict_get_set_ne k k' v d : k <> k' -> dict_get k' (dict_set k v d) = dict_get k' d.
Proof.
  intros Hne. induction d as [|[k0 v0] d IH]; simpl.
  { rewrite str_eqb_neq; [done|]. by intros ->. }
  destruct (str_eqb k k0) eqn:E; simpl.
  - apply str_eqb_eq in E as <-. rewrite !str_eqb_neq; try done; by intros ->.
  - by rewrite IH.
Qed.

(** Setting a key keeps the keys there were, in their order. *)
Lemma dict_set_keys k v d :
  map fst (dict_set k v d) = if dict_has k d then map fst d else map fst d ++ [k].
Proof.
  unfold dict_has. induction d as [|[k0 v0] d IH]; simpl; [done|].
  destruct (str_eqb k k0) eqn:E; simpl.
  - apply str_eqb_eq in E as <-. done.
  - rewrite IH. by destruct (dict_get k d).
Qed.

Lemma key_of_set k v q : k <> k_id -> key_of (dict_set k v q) = key_of q.
Proof. intros H. unfold key_of. by rewrite dict_get_set_ne. Qed.

Lemma k_legalReference_not_id : k_legalReference <> k_id.
Proof. vm_compute. discriminate. Qed.

Lemma k_analysis_not_id : k_analysis <> k_id.
Proof. vm_compute. discriminate. Qed.

Lemma k_legalReference_not_analysis : k_legalReference <> k_analysis.
Proof. vm_compute. discriminate. Qed.

Lemma build_index_cons_Some m i q rest key :
  key_of q = Some key ->
  build_index m i (q :: rest) = build_index (<[key := i]> m) (S i) rest.
Proof.
  cbn [build_index]. unfold key_of, dict_item.
  destruct (dict_get k_id q) as [v|]; [|done].
  cbn [mbind res_bind]. destruct (hash_key v); [|done]. by intros [= ->].
Qed.

Lemma build_index_cons_None m i q rest :
  key_of q = None -> exists e, build_index m i (q :: rest) = Raise e.
Proof.
  cbn [build_index]. unfold key_of, dict_item.
  destruct (dict_get k_id q) as [v|]; [|by eexists].
  cbn [mbind res_bind]. destruct (hash_key v); [done|by eexists].
Qed.

Lemma build_index_ok qs : forall m i,
  Forall (fun q => is_Some (key_of q)) qs -> exists m', build_index m i qs = Ok m'.
Proof.
  induction qs as [|q qs IH]; intros m i Hall; [by eexists|].
  apply Forall_cons in Hall as [[key Hk] Hall].
  rewrite (build_index_cons_Some _ _ _ _ key Hk). by apply IH.
Qed.

Lemma build_index_head qs q m i m' :
  build_index m i (q :: qs) = Ok m' ->
  exists key, key_of q = Some key /\ build_index (<[key := i]> m) (S i) qs = Ok m'.
Proof.
  intros H. destruct (key_of q) as [key|] eqn:Hk.
  - exists key. split; [done|]. by rewrite (build_index_cons_Some _ _ _ _ key Hk) in H.
  - destruct (build_index_cons_None m i q qs Hk) as [e He]. by rewrite He in H.
Qed.

Lemma build_index_keys qs : forall m i m',
  build_index m i qs = Ok m' -> Forall (fun q => is_Some (key_of q)) qs.
Proof.
  induction qs as [|q qs IH]; intros m i m' H; [done|].
  apply build_index_head in H as (key & Hk & H).
  apply Forall_cons. split; [by eexists|]. by eapply IH.
Qed.

Lemma build_index_other qs key : forall m i m',
  build_index m i qs = Ok m' ->
  (forall q, q ∈ qs -> key_of q <> Some key) ->
  m' !! key = m !! key.
Proof.
  induction qs as [|q qs IH]; intros m i m' H Hnot; [by injection H as ->|].
  apply build_index_head in H as (key0 & Hk & H).
  rewrite (IH _ _ _ H).
  - apply lookup_insert_ne. intros ->. apply (Hnot q); [by left|done].
  - intros q' Hq'. apply Hnot. by right.
Qed.

(** With distinct keys, the index gives every record its position. *)
Lemma build_index_lookup qs : forall m i m',
  build_index m i qs = Ok m' ->
  NoDup (map key_of qs) ->
  forall j q key, qs !! j = Some q -> key_of q = Some key -> m' !! key = Some (i + j).
Proof.
  induction qs as [|q0 qs IH]; intros m i m' H Hnd j q key Hj Hkey; [done|].
  apply build_index_head in H as (key0 & Hk0 & H).
  simpl in Hnd. apply NoDup_cons in Hnd as [Hnotin Hnd].
  destruct j as [|j]; simpl in Hj.
  - injection Hj as ->. rewrite Hkey in Hk0. injection Hk0 as <-.
    rewrite (build_index_other _ key _ _ _ H).
    + rewrite lookup_insert_eq. f_equal. lia.
    + intros q' Hq' Heq. apply Hnotin. rewrite Hkey, <- Heq.
      by apply list_elem_of_fmap_2.
  - rewrite (IH _ _ _ H Hnd j q key Hj Hkey). f_equal. lia.
Qed.

(** An entry of the index points at a record with that key. *)
Lemma build_index_inv qs : forall m i m' key j,
  build_index m i qs = Ok m' ->
  m' !! key = Some j ->
  m !! key = Some j \/ (i <= j /\ exists q, qs !! (j - i) = Some q /\ key_of q = Some key).
Proof.
  induction qs as [|q0 qs IH]; intros m i m' key j H Hj.
  { injection H as ->. by left. }
  apply build_index_head in H as (key0 & Hk0 & H).
  destruct (IH _ _ _ _ _ H Hj) as [Hm|(Hle & q & Hq & Hkey)].
  - destruct (decide (key0 = key)) as [->|Hne].
    + rewrite lookup_insert_eq in Hm. injection Hm as <-. right.
      split; [lia|]. exists q0. by rewrite Nat.sub_diag.
    + rewrite lookup_insert_ne in Hm by done. by left.
  - right. split; [lia|]. exists q. split; [|done].
    replace (j - i) with (S (j - S i)) by lia. done.
Qed.

(** ** Merging one pair *)

Lemma save_questions_ok qs w :
  save_questions qs QUESTIONS_PATH w =
    Ok {| disk := <[QUESTIONS_PATH := file_of qs]>
                    (delete tmp_path (<[tmp_path := file_of qs]> (disk w)));
          io := io w ++ save_events qs |}.
Proof.
  unfold save_questions, fs_replace, fs_write. fold tmp_path. simpl.
  rewrite lookup_insert_eq. by rewrite <- app_assoc.
Qed.

Lemma saves_app a b : saves (a ++ b) = saves a + saves b.
Proof. unfold saves. by rewrite List.filter_app, length_app. Qed.

Lemma saves_save_events qs : saves (save_events qs) = 1.
Proof. vm_compute. reflexivity. Qed.

Lemma merge_step_failure idx st qid :
  merge_step idx st (qid, None) = Ok (count_failure st).
Proof. done. Qed.

Lemma merge_step_falsy idx st r :
  result_truthy r.2 = false -> merge_step idx st r = Ok (count_failure st).
Proof.
  unfold merge_step, result_truthy. destruct r.2 as [result|]; [|done]. by intros ->.
Qed.

Lemma set_field_Ok idx k v qs qs' :
  set_field idx k v qs = Ok qs' ->
  exists q, qs !! idx = Some q /\ qs' = <[idx := dict_set k v q]> qs.
Proof. unfold set_field. destruct (qs !! idx) as [q|]; [|done]. intros [= <-]. eauto. Qed.

(** What a merge that writes does. *)
Lemma merge_step_truthy idx st r st' :
  result_truthy r.2 = true ->
  merge_step idx st r = Ok st' ->
  exists key i q l a,
    hash_key r.1 = Ok key /\ idx !! key = Some i /\ questions st !! i = Some q
    /\ merged_fields r = Some (l, a)
    /\ questions st' = <[i := dict_set k_analysis a (dict_set k_legalReference l q)]> (questions st)
    /\ total_done st' = S (total_done st) /\ failed st' = failed st
    /\ (if SAVE_EVERY <=? S (completed_since_save st)
        then completed_since_save st' = 0
             /\ save_questions (questions st') QUESTIONS_PATH (files st) = Ok (files st')
        else completed_since_save st' = S (completed_since_save st)
             /\ files st' = files st).
Proof.
  unfold merge_step, result_truthy, merged_fields.
  destruct r.2 as [result|]; [|done]. intros Ht. rewrite Ht.
  destruct (hash_key r.1) as [key|] eqn:Hkey; [|done]. cbn [mbind res_bind].
  destruct (idx !! key) as [i|] eqn:Hi; [|done]. cbn [mbind res_bind].
  destruct result as [| | | | | |d]; try done. cbn [py_getitem]. unfold dict_item.
  destruct (dict_get k_legalReference d) as [l|]; [|done]. cbn [mbind res_bind].
  destruct (set_field i k_legalReference l (questions st)) as [qs1|] eqn:H1; [|done].
  cbn [mbind res_bind].
  destruct (dict_get k_analysis d) as [a|]; [|done]. cbn [mbind res_bind].
  destruct (set_field i k_analysis a qs1) as [qs2|] eqn:H2; [|done].
  cbn [mbind res_bind].
  apply set_field_Ok in H1 as (q & Hq & ->).
  apply set_field_Ok in H2 as (q1 & Hq1 & ->).
  assert (i < length (questions st)) as Hlen by (by eapply lookup_lt_Some).
  rewrite list_lookup_insert_eq in Hq1 by done. injection Hq1 as <-.
  rewrite list_insert_insert_eq.
  rewrite Ht.
  destruct (SAVE_EVERY <=? S (completed_since_save st)) eqn:Hsave.
  - destruct (save_questions _ QUESTIONS_PATH (files st)) as [w|] eqn:Hw; [|done].
    cbn [mbind res_bind]. intros [= <-]. exists key, i, q, l, a.
    cbn [questions total_done failed completed_since_save files].
    by repeat split.
  - intros [= <-]. exists key, i, q, l, a.
    cbn [questions total_done failed completed_since_save files].
    by repeat split.
Qed.

Section Merge.

Variable qs0 : list dict.
Variable idx : gmap pykey nat.
Hypothesis Hidx : build_index ∅ 0 qs0 = Ok idx.
Hypothesis Hnodup : NoDup (map key_of qs0).

Lemma insert_as_map (qs : list dict) key i q (f : dict -> dict) :
  map key_of qs = map key_of qs0 ->
  idx !! key = Some i -> qs !! i = Some q ->
  <[i := f q]> qs = map (fun q' => if decide (key_of q' = Some key) then f q' else q') qs.
Proof using Hidx Hnodup.
  intros Hkeys Hi Hq.
  destruct (build_index_inv _ _ _ _ _ _ Hidx Hi) as [?|(_ & q0 & Hq0 & Hk0)]; [done|].
  rewrite Nat.sub_0_r in Hq0.
  assert (Hki : map key_of qs !! i = Some (Some key)).
  { rewrite Hkeys. by rewrite list_lookup_fmap, Hq0; simpl; rewrite Hk0. }
  apply list_eq. intros j. rewrite list_lookup_fmap.
  destruct (decide (i = j)) as [<-|Hne].
  - rewrite list_lookup_insert_eq by (by eapply lookup_lt_Some).
    rewrite Hq. simpl. rewrite list_lookup_fmap, Hq in Hki. injection Hki as Hki.
    by rewrite decide_True.
  - rewrite list_lookup_insert_ne by done.
    destruct (qs !! j) as [q'|] eqn:Hq'; [|done]. simpl. f_equal.
    rewrite decide_False; [done|]. intros Hk'.
    assert (map key_of qs !! j = Some (Some key)) as Hkj.
    { by rewrite list_lookup_fmap, Hq'; simpl; rewrite Hk'. }
    rewrite <- Hkeys in Hnodup.
    by apply (NoDup_lookup _ _ _ _ Hnodup Hki) in Hkj.
Qed.

Lemma apply_result_key r q : key_of (apply_result r q) = key_of q.
Proof.
  unfold apply_result. destruct (merged_fields r) as [[l a]|]; [|done].
  destruct (hash_key r.1) as [key|]; [|done].
  destruct (decide _); [|done].
  rewrite !key_of_set; auto using k_analysis_not_id, k_legalReference_not_id.
Qed.

Lemma merge_step_questions st r st' :
  map key_of (questions st) = map key_of qs0 ->
  merge_step idx st r = Ok st' ->
  questions st' = map (apply_result r) (questions st).
Proof using Hidx Hnodup.
  intros Hkeys Hstep.
  destruct (result_truthy r.2) eqn:Ht.
  - destruct (merge_step_truthy _ _ _ _ Ht Hstep)
      as (key & i & q & l & a & Hkey & Hi & Hq & Hm & -> & _).
    rewrite (insert_as_map _ key i q
               (fun q => dict_set k_analysis a (dict_set k_legalReference l q)));
      [|done..].
    apply map_ext. intros q'. unfold apply_result. by rewrite Hm, Hkey.
  - rewrite (merge_step_falsy _ _ _ Ht) in Hstep. injection Hstep as <-. simpl.
    rewrite <- (map_id (questions st)) at 1. apply map_ext. intros q.
    unfold apply_result, merged_fields. unfold result_truthy in Ht.
    destruct r.2 as [[| | | | | |d]|]; try done. by rewrite Ht.
Qed.

Lemma map_apply_result_keys r (qs : list dict) :
  map key_of (map (apply_result r) qs) = map key_of qs.
Proof. rewrite map_map. apply map_ext. intros q. apply apply_result_key. Qed.

(** The loop, record by record. *)
Lemma merge_loop_questions results : forall st st',
  map key_of (questions st) = map key_of qs0 ->
  merge_loop idx st results = Ok st' ->
  questions st' = map (apply_results results) (questions st).
Proof using Hidx Hnodup.
  induction results as [|r results IH]; intros st st' Hkeys Hloop.
  { injection Hloop as <-. by rewrite map_id. }
  cbn [merge_loop] in Hloop.
  destruct (merge_step idx st r) as [st1|] eqn:Hstep; [|done].
  cbn [mbind res_bind] in Hloop.
  pose proof (merge_step_questions _ _ _ Hkeys Hstep) as H1.
  rewrite (IH st1 st'); [|by rewrite H1, map_apply_result_keys|done].
  rewrite H1, map_map. done.
Qed.

End Merge.

(** ** The filter as a list filter *)

Lemma filter_loop_filter qs :
  (forall q, q ∈ qs -> exists n, analysis_length q = Ok n) ->
  forall st,
    filter_loop st qs =
      Ok (st.1 ++ work_items qs, st.2 + length (List.filter is_complete qs)).
Proof.
  induction qs as [|q qs IH]; intros Hlen st.
  { simpl. rewrite app_nil_r, Nat.add_0_r. by destruct st. }
  destruct (Hlen q) as [n Hn]; [by left|].
  cbn [filter_loop]. rewrite (filter_step_ok st q n Hn). cbn [mbind res_bind].
  rewrite IH by (intros q' Hq'; apply Hlen; by right).
  assert (Hq : is_complete q = (SKIP_THRESHOLD <? n)) by (unfold is_complete; by rewrite Hn).
  unfold work_items. cbn [List.filter]. rewrite Hq.
  destruct (SKIP_THRESHOLD <? n); cbn [negb fst snd length].
  - f_equal. f_equal. lia.
  - by rewrite <- app_assoc.
Qed.

Lemma select_work_filter qs :
  (forall q, q ∈ qs -> exists n, analysis_length q = Ok n) ->
  select_work qs = Ok (work_items qs, length (List.filter is_complete qs)).
Proof. intros H. unfold select_work. by rewrite filter_loop_filter. Qed.

Lemma filter_loop_sized qs : forall st st',
  filter_loop st qs = Ok st' -> forall q, q ∈ qs -> exists n, analysis_length q = Ok n.
Proof.
  induction qs as [|q qs IH]; intros st st' H q' Hq'; [by apply elem_of_nil in Hq'|].
  cbn [filter_loop] in H.
  destruct (filter_step st q) as [st1|] eqn:Hstep; [|done]. cbn [mbind res_bind] in H.
  apply elem_of_cons in Hq' as [->|Hq']; [|by eapply IH].
  unfold filter_step in Hstep. fold (analysis_length q) in Hstep.
  destruct (analysis_length q) as [n|]; [by exists n|done].
Qed.

(** What [select_work] returns when it returns. *)
Lemma select_work_Ok qs tp sk :
  select_work qs = Ok (tp, sk) ->
  (forall q, q ∈ qs -> exists n, analysis_length q = Ok n)
  /\ tp = work_items qs /\ sk = length (List.filter is_complete qs).
Proof.
  intros H. pose proof (filter_loop_sized _ _ _ H) as Hs.
  split; [done|]. rewrite (select_work_filter qs Hs) in H. by injection H as <- <-.
Qed.

Lemma work_items_sublist qs : sublist (work_items qs) qs.
Proof.
  unfold work_items. induction qs as [|q qs IH]; [done|]. cbn [List.filter].
  destruct (negb (is_complete q)); by constructor.
Qed.

Lemma work_items_elem q qs : q ∈ work_items qs <-> q ∈ qs /\ is_complete q = false.
Proof.
  unfold work_items. rewrite !list_elem_of_In, List.filter_In.
  by rewrite negb_true_iff.
Qed.

Lemma filter_lengths {A} (f : A -> bool) l :
  length (List.filter f l) + length (List.filter (fun x => negb (f x)) l) = length l.
Proof.
  induction l as [|x l IH]; [done|]. cbn [List.filter].
  destruct (f x); cbn [negb length]; lia.
Qed.

(** ** Counting merges and saves *)

Lemma successes_cons r rs :
  successes (r :: rs) = (if result_truthy r.2 then 1 else 0) + successes rs.
Proof. unfold successes. cbn [List.filter]. by destruct (result_truthy r.2). Qed.

Lemma successes_app a b : successes (a ++ b) = successes a + successes b.
Proof. unfold successes. by rewrite List.filter_app, length_app. Qed.

Lemma successes_le rs : successes rs <= length rs.
Proof. unfold successes. apply List.filter_length_le. Qed.

Lemma merge_step_counters idx st r st' :
  merge_step idx st r = Ok st' ->
  completed_since_save st < SAVE_EVERY ->
  let s := if result_truthy r.2 then 1 else 0 in
  total_done st' = total_done st + s
  /\ failed st' = failed st + (1 - s)
  /\ completed_since_save st' = (completed_since_save st + s) mod SAVE_EVERY
  /\ saves (io (files st')) = saves (io (files st)) + (completed_since_save st + s) / SAVE_EVERY
  /\ length (questions st') = length (questions st).
Proof.
  intros Hstep Hc. destruct (result_truthy r.2) eqn:Ht; cbn zeta.
  - destruct (merge_step_truthy _ _ _ _ Ht Hstep)
      as (key & i & q & l & a & _ & _ & _ & _ & Hqs & Htot & Hfail & Hsave).
    split; [lia|]. split; [lia|].
    rewrite Hqs, length_insert. unfold SAVE_EVERY in *.
    destruct (5 <=? S (completed_since_save st)) eqn:H5.
    + apply Nat.leb_le in H5. destruct Hsave as [Hc' Hw].
      rewrite save_questions_ok in Hw. injection Hw as <-. cbn [io].
      assert (completed_since_save st = 4) as -> by lia.
      rewrite saves_app, saves_save_events, Hc'.
      change ((4 + 1) mod 5) with 0. change ((4 + 1) / 5) with 1. done.
    + apply Nat.leb_gt in H5. destruct Hsave as [Hc' ->]. rewrite Hc'.
      rewrite Nat.mod_small by lia. rewrite Nat.div_small by lia.
      repeat split; lia.
  - rewrite (merge_step_falsy _ _ _ Ht) in Hstep. injection Hstep as <-.
    cbn [count_failure total_done failed completed_since_save files questions].
    rewrite !Nat.add_0_r. unfold SAVE_EVERY in *.
    rewrite Nat.mod_small by lia. rewrite Nat.div_small by lia.
    repeat split; lia.
Qed.

Lemma div_split a b : a / 5 + (a mod 5 + b) / 5 = (a + b) / 5.
Proof.
  pose proof (Nat.div_mod_eq a 5) as H.
  replace (a + b) with ((a / 5) * 5 + (a mod 5 + b)) by lia.
  by rewrite Nat.div_add_l.
Qed.

Lemma merge_loop_counters idx results : forall st st',
  merge_loop idx st results = Ok st' ->
  completed_since_save st < SAVE_EVERY ->
  total_done st' = total_done st + successes results
  /\ failed st' = failed st + (length results - successes results)
  /\ completed_since_save st' = (completed_since_save st + successes results) mod SAVE_EVERY
  /\ saves (io (files st')) =
       saves (io (files st)) + (completed_since_save st + successes results) / SAVE_EVERY
  /\ length (questions st') = length (questions st).
Proof.
  induction results as [|r results IH]; intros st st' Hloop Hc.
  { injection Hloop as <-. unfold successes, SAVE_EVERY in *. cbn [List.filter length].
    rewrite !Nat.add_0_r, Nat.mod_small, Nat.div_small by lia. repeat split; lia. }
  cbn [merge_loop] in Hloop.
  destruct (merge_step idx st r) as [st1|] eqn:Hstep; [|done].
  cbn [mbind res_bind] in Hloop.
  destruct (merge_step_counters _ _ _ _ Hstep Hc) as (Ht & Hf & Hc1 & Hs & Hl).
  assert (Hc1' : completed_since_save st1 < SAVE_EVERY).
  { rewrite Hc1. apply Nat.mod_upper_bound. done. }
  destruct (IH _ _ Hloop Hc1') as (Ht' & Hf' & Hc' & Hs' & Hl').
  rewrite successes_cons. pose proof (successes_le results) as Hle.
  set (s := if result_truthy r.2 then 1 else 0) in *.
  assert (s <= 1) by (subst s; destruct (result_truthy r.2); lia).
  unfold SAVE_EVERY in *.
  split; [lia|]. split; [cbn [length]; lia|].
  rewrite Hc', Hs', Hs, Hc1, Hl', Hl.
  split; [|split; [|done]].
  - rewrite Nat.Div0.add_mod_idemp_l. f_equal. lia.
  - rewrite <- Nat.add_assoc, div_split. f_equal. f_equal. lia.
Qed.

(** ** What a worker hands to the driver *)


Lemma mapM_res_cons {A B} (f : A -> res B) x l :
  mapM f (x :: l) = y ← f x; k ← mapM f l; mret (y :: k).
Proof. done. Qed.

Lemma mapM_res_Ok {A B} (f : A -> res B) l l' :
  mapM f l = Ok l' <-> Forall2 (fun a b => f a = Ok b) l l'.
Proof.
  revert l'. induction l as [|x l IH]; intros l'.
  { split; [intros [= <-]; constructor|]. by intros ->%Forall2_nil_inv_l. }
  rewrite mapM_res_cons. split.
  - destruct (f x) as [y|] eqn:Hx; [|done]. cbn [mbind res_bind].
    destruct (mapM f l) as [k|]; [|done]. cbn [mbind res_bind]. intros [= <-].
    constructor; [done|]. by apply IH.
  - intros (y & k & Hx & Hk & ->)%Forall2_cons_inv_l.
    rewrite Hx. cbn [mbind res_bind]. apply IH in Hk. rewrite Hk. done.
Qed.

Lemma mapM_res_total {A B} (f : A -> res B) l :
  (forall x, x ∈ l -> exists y, f x = Ok y) -> exists l', mapM f l = Ok l'.
Proof.
  induction l as [|x l IH]; intros H; [by eexists|].
  destruct (H x) as [y Hy]; [by left|].
  destruct IH as [l' Hl']; [intros; apply H; by right|].
  exists (y :: l'). rewrite mapM_res_cons, Hy. cbn [mbind res_bind]. by rewrite Hl'.
Qed.

Section WorkerResult.

Variable py_repr : json -> str.
Variable chat : chat_client.
Variable system_prompt : str.
Variable question : dict.

Lemma attempt_loop_result qid attempts x y :
  (attempt_loop py_repr chat system_prompt question qid attempts).2 = Some (x, y) ->
  x = qid
  /\ forall result, y = Some result ->
       py_contains k_legalReference result = Ok true
       /\ py_contains k_analysis result = Ok true.
Proof.
  induction attempts as [|a attempts IH]; [done|]. cbn [attempt_loop].
  pose proof (try_attempt_fields py_repr chat system_prompt question a) as Hf.
  destruct (try_attempt py_repr chat system_prompt question a) as [evs [result|e]].
  - cbn [snd]. intros [= <- <-]. split; [done|]. intros ? [= <-]. by apply Hf.
  - destruct (a <? MAX_RETRIES).
    + destruct (attempt_loop _ _ _ _ _ attempts) as [evs' r]. cbn [snd] in *. apply IH.
    + cbn [snd]. intros [= <- <-]. done.
Qed.

Lemma process_one_Ok tr qid r :
  process_one py_repr chat system_prompt question = Ok (tr, Some (qid, r)) ->
  dict_get k_id question = Some qid
  /\ forall result, r = Some result ->
       py_contains k_legalReference result = Ok true
       /\ py_contains k_analysis result = Ok true.
Proof.
  unfold process_one, dict_item.
  destruct (dict_get k_id question) as [qid'|]; [|done]. cbn [mbind res_bind].
  pose proof (attempt_loop_result qid' (seq 1 MAX_RETRIES) qid r) as H.
  destruct (attempt_loop _ _ _ _ qid' _) as [evs x]. cbn [snd] in H.
  intros [= <- ->]. destruct (H eq_refl) as [-> Hf]. done.
Qed.

(** The worker returns a pair, and no result when its three attempts
    raised. *)
Lemma process_one_total qid :
  dict_get k_id question = Some qid ->
  exists tr r,
    process_one py_repr chat system_prompt question = Ok (tr, Some (qid, r))
    /\ ((forall a, 1 <= a <= 3 ->
           exists e, (try_attempt py_repr chat system_prompt question a).2 = Raise e) ->
        r = None).
Proof.
  intros Hid. unfold process_one, dict_item. rewrite Hid. simpl.
  destruct (try_attempt py_repr chat system_prompt question 1) as [evs1 [res1|e1]] eqn:H1.
  { eexists _, _. split; [reflexivity|]. intros H.
    destruct (H 1) as [e He]; [lia|]. by rewrite H1 in He. }
  destruct (try_attempt py_repr chat system_prompt question 2) as [evs2 [res2|e2]] eqn:H2.
  { eexists _, _. split; [reflexivity|]. intros H.
    destruct (H 2) as [e He]; [lia|]. by rewrite H2 in He. }
  destruct (try_attempt py_repr chat system_prompt question 3) as [evs3 [res3|e3]] eqn:H3.
  { eexists _, _. split; [reflexivity|]. intros H.
    destruct (H 3) as [e He]; [lia|]. by rewrite H3 in He. }
  eexists _, _. split; [reflexivity|]. done.
Qed.

End WorkerResult.

(** A result object with both fields is written by the driver. *)
Lemma merged_fields_object qid d :
  py_contains k_legalReference (JObj d) = Ok true ->
  py_contains k_analysis (JObj d) = Ok true ->
  result_truthy (Some (JObj d)) = true
  /\ exists l a, dict_get k_legalReference d = Some l /\ dict_get k_analysis d = Some a
                 /\ merged_fields (qid, Some (JObj d)) = Some (l, a).
Proof.
  cbn [py_contains]. unfold dict_has. intros [= H1] [= H2].
  destruct (dict_get k_legalReference d) as [l|] eqn:Hl; [|done].
  destruct (dict_get k_analysis d) as [a|] eqn:Ha; [|done].
  assert (Ht : py_truthy (JObj d) = true) by (by destruct d).
  split; [done|]. exists l, a. split; [done|]. split; [done|].
  unfold merged_fields. cbn [snd]. by rewrite Ht, Hl, Ha.
Qed.

(** ** The run, step by step *)

Lemma merge_step_ok idx st r key i :
  hash_key r.1 = Ok key -> idx !! key = Some i -> i < length (questions st) ->
  mergeable r -> exists st', merge_step idx st r = Ok st'.
Proof.
  intros Hkey Hi Hlen Hm. unfold merge_step.
  destruct r.2 as [result|] eqn:Hr; [|by eexists].
  destruct (Hm result Hr) as (d & -> & H1 & H2).
  destruct (merged_fields_object r.1 d H1 H2) as (Ht & l & a & Hl & Ha & _).
  cbn [result_truthy] in Ht. rewrite Ht, Hkey. cbn [mbind res_bind]. rewrite Hi.
  cbn [mbind res_bind py_getitem]. unfold dict_item. rewrite Hl, Ha.
  cbn [mbind res_bind]. unfold set_field.
  destruct (lookup_lt_is_Some_2 (questions st) i Hlen) as [q Hq]. rewrite Hq.
  cbn [mbind res_bind]. rewrite list_lookup_insert_eq by done. cbn [mbind res_bind].
  destruct (SAVE_EVERY <=? S (completed_since_save st)).
  - rewrite save_questions_ok. by eexists.
  - by eexists.
Qed.

Lemma merge_loop_ok idx n results : forall st,
  length (questions st) = n ->
  completed_since_save st < SAVE_EVERY ->
  Forall (fun r => mergeable r
                   /\ exists key i, hash_key r.1 = Ok key /\ idx !! key = Some i /\ i < n)
         results ->
  exists st', merge_loop idx st results = Ok st'.
Proof.
  induction results as [|r results IH]; intros st Hn Hc Hall; [by eexists|].
  apply Forall_cons in Hall as [(Hm & key & i & Hkey & Hi & Hlt) Hall].
  destruct (merge_step_ok idx st r key i Hkey Hi) as [st1 Hst1]; [lia|done|].
  cbn [merge_loop]. rewrite Hst1. cbn [mbind res_bind].
  destruct (merge_step_counters _ _ _ _ Hst1 Hc) as (_ & _ & Hc1 & _ & Hl).
  apply IH; [lia| |done]. rewrite Hc1. by apply Nat.mod_upper_bound.
Qed.

Section Run.

Variable py_repr : json -> str.
Variable client : nat -> chat_client.
Variable order : list nat.
Variable qs : list dict.
Variable gdpr_text : str.

Lemma tasks_lookup tasks :
  mapM (fun iq : nat * dict =>
          run_task py_repr client (build_system_prompt gdpr_text) iq.1 iq.2)
       (imap (fun i q => (i, q)) (work_items qs)) = Ok tasks ->
  length tasks = length (work_items qs)
  /\ forall i t, tasks !! i = Some t ->
       exists q, work_items qs !! i = Some q
         /\ run_task py_repr client (build_system_prompt gdpr_text) i q = Ok t.
Proof.
  intros H%mapM_res_Ok. split.
  { apply Forall2_length in H. by rewrite length_imap in H. }
  intros i t Ht.
  destruct (Forall2_lookup_r _ _ _ _ _ H Ht) as ([i' q] & Hiq & Hrun).
  rewrite list_lookup_imap in Hiq.
  destruct (work_items qs !! i) as [q'|]; [|done]. cbn in Hiq. injection Hiq as <- <-.
  by exists q'.
Qed.

Lemma results_of_tasks tasks results :
  length tasks = length (work_items qs) ->
  (forall i t, tasks !! i = Some t ->
     exists q, work_items qs !! i = Some q
       /\ run_task py_repr client (build_system_prompt gdpr_text) i q = Ok t) ->
  mapM (await_future) (omap (fun i => tasks !! i) order) = Ok results ->
  Forall2 (task_result py_repr client qs gdpr_text) (completion_order order qs) results.
Proof.
  intros Hlen Htasks. unfold completion_order. rewrite <- Hlen. clear Hlen.
  revert results. induction order as [|i ord IH]; intros results.
  { intros [= <-]. constructor. }
  cbn [omap list_omap List.filter].
  destruct (tasks !! i) as [t|] eqn:Ht.
  - assert ((i <? length tasks) = true) as ->
      by (apply Nat.ltb_lt; by eapply lookup_lt_Some).
    rewrite mapM_res_cons.
    destruct (await_future t) as [r|] eqn:Hr; cbn [mbind res_bind]; [|done].
    destruct (mapM _ _) as [rs|] eqn:Hrs; [|done]. cbn [mbind res_bind]. intros [= <-].
    constructor; [|by apply IH].
    destruct (Htasks i t Ht) as (q & Hq & Hrun). exists q, t.1.
    split; [done|]. rewrite Hrun. destruct t as [tr o]. unfold await_future in Hr.
    cbn in Hr. destruct o; [|done]. by injection Hr as ->.
  - assert ((i <? length tasks) = false) as ->
      by (apply Nat.ltb_ge; by apply lookup_ge_None).
    apply IH.
Qed.

(** What a run that returns has done. *)
Lemma run_Ok w st' :
  run py_repr client order qs gdpr_text w = Ok st' ->
  (forall q, q ∈ qs -> exists n, analysis_length q = Ok n)
  /\ ((work_items qs = [] /\ st' = initial_state qs w)
      \/ (work_items qs <> []
          /\ exists idx results st,
               build_index ∅ 0 qs = Ok idx
               /\ Forall2 (task_result py_repr client qs gdpr_text) (completion_order order qs) results
               /\ merge_loop idx (initial_state qs w) results = Ok st
               /\ save_questions (questions st) QUESTIONS_PATH (files st) = Ok (files st')
               /\ questions st' = questions st
               /\ total_done st' = total_done st
               /\ failed st' = failed st
               /\ completed_since_save st' = completed_since_save st)).
Proof.
  unfold run.
  destruct (select_work qs) as [[tp sk]|] eqn:Hsel; [|done]. cbn [mbind res_bind fst].
  apply select_work_Ok in Hsel as (Hsized & -> & ->).
  intros H. split; [done|]. revert H.
  destruct (work_items qs) as [|q0 tp] eqn:Htp.
  { intros [= <-]. by left. }
  rewrite <- Htp. intros H. right. split; [by rewrite Htp|].
  destruct (build_index ∅ 0 qs) as [idx|]; [|done]. cbn [mbind res_bind] in H.
  destruct (mapM _ (imap _ _)) as [tasks|] eqn:Htasks; [|done].
  cbn [mbind res_bind] in H.
  destruct (mapM await_future _) as [results|] eqn:Hres; [|done].
  cbn [mbind res_bind] in H.
  destruct (merge_loop idx _ results) as [st|] eqn:Hloop; [|done].
  cbn [mbind res_bind] in H.
  destruct (save_questions _ _ _) as [w'|] eqn:Hsave; [|done].
  cbn [mbind res_bind] in H. injection H as <-.
  apply tasks_lookup in Htasks as [Hlen Htasks].
  exists idx, results, st. split; [done|].
  split; [by eapply results_of_tasks|]. by repeat split.
Qed.

Lemma run_idle w :
  (forall q, q ∈ qs -> exists n, analysis_length q = Ok n) ->
  work_items qs = [] ->
  run py_repr client order qs gdpr_text w = Ok (initial_state qs w).
Proof.
  intros Hs Hw. unfold run. rewrite (select_work_filter qs Hs).
  cbn [mbind res_bind fst]. by rewrite Hw.
Qed.

End Run.

(** ** Merges change the enrichment fields only *)

Lemma same_static_refl q : same_static q q.
Proof. split; [done|]. split; [done|]. exists []. by rewrite app_nil_r. Qed.

Lemma same_static_trans q1 q2 q3 :
  same_static q1 q2 -> same_static q2 q3 -> same_static q1 q3.
Proof.
  intros (Hk1 & Hs1 & e1 & He1) (Hk2 & Hs2 & e2 & He2).
  split; [by rewrite Hk2|]. split; [intros k Hk; by rewrite Hs2, Hs1|].
  exists (e1 ++ e2). by rewrite He2, He1, <- app_assoc.
Qed.

Lemma same_static_set k v q : ~ static_key k -> k <> k_id -> same_static q (dict_set k v q).
Proof.
  intros Hk Hid. split; [by apply key_of_set|]. split.
  - intros k' Hk'. apply dict_get_set_ne. by intros ->.
  - rewrite dict_set_keys. destruct (dict_has k q); [exists []; by rewrite app_nil_r|by exists [k]].
Qed.

Lemma apply_result_static r q : same_static q (apply_result r q).
Proof.
  unfold apply_result. destruct (merged_fields r) as [[l a]|]; [|apply same_static_refl].
  destruct (hash_key r.1) as [key|]; [|apply same_static_refl].
  destruct (decide _); [|apply same_static_refl].
  eapply same_static_trans; apply same_static_set;
    unfold static_key; auto using k_analysis_not_id, k_legalReference_not_id; tauto.
Qed.

Lemma apply_results_static rs : forall q, same_static q (apply_results rs q).
Proof.
  induction rs as [|r rs IH]; intros q; [apply same_static_refl|].
  eapply same_static_trans; [apply (apply_result_static r)|apply IH].
Qed.

Lemma apply_result_other r q : result_key r <> key_of q -> apply_result r q = q.
Proof.
  unfold apply_result, result_key. intros H.
  destruct (merged_fields r) as [[l a]|]; [|done].
  destruct (hash_key r.1) as [key|]; [|done].
  destruct (decide _) as [Hk|]; [|done]. by rewrite Hk in H.
Qed.

Lemma apply_result_none r q : merged_fields r = None -> apply_result r q = q.
Proof. unfold apply_result. by intros ->. Qed.

Lemma apply_result_hit r q key l a :
  merged_fields r = Some (l, a) -> hash_key r.1 = Ok key -> key_of q = Some key ->
  apply_result r q = dict_set k_analysis a (dict_set k_legalReference l q).
Proof. unfold apply_result. intros -> -> Hk. by rewrite decide_True. Qed.

Lemma apply_results_untouched rs : forall q,
  Forall (fun r => merged_fields r = None \/ result_key r <> key_of q) rs ->
  apply_results rs q = q.
Proof.
  induction rs as [|r rs IH]; intros q Hall; [done|].
  apply Forall_cons in Hall as [Hr Hall]. cbn [apply_results fold_left].
  assert (apply_result r q = q) as ->.
  { destruct Hr; [by apply apply_result_none|by apply apply_result_other]. }
  by apply IH.
Qed.

Lemma merged_fields_truthy r l a : merged_fields r = Some (l, a) -> result_truthy r.2 = true.
Proof.
  unfold merged_fields, result_truthy. destruct r.2 as [[| | | | | |d]|]; try done.
  by destruct (py_truthy (JObj d)).
Qed.

Lemma merged_fields_falsy r : result_truthy r.2 = false -> merged_fields r = None.
Proof.
  intros H. destruct (merged_fields r) as [[l a]|] eqn:Hm; [|done].
  apply merged_fields_truthy in Hm. by rewrite Hm in H.
Qed.




Section RunRecords.

Variable py_repr : json -> str.
Variable client : nat -> chat_client.
Variable order : list nat.
Variable qs : list dict.
Variable gdpr_text : str.
Hypothesis Hnodup : NoDup (map key_of qs).

Lemma task_result_inv i r :
  task_result py_repr client qs gdpr_text i r ->
  exists q, work_items qs !! i = Some q
    /\ dict_get k_id q = Some r.1
    /\ forall result, r.2 = Some result ->
         py_contains k_legalReference result = Ok true
         /\ py_contains k_analysis result = Ok true.
Proof.
  intros (q & tr & Hq & Hrun). exists q. split; [done|].
  unfold run_task in Hrun. destruct r as [qid res].
  by apply process_one_Ok in Hrun as [Hid Hf].
Qed.

Lemma work_items_keys_NoDup : NoDup (map key_of (work_items qs)).
Proof using Hnodup.
  eapply sublist_NoDup; [exact Hnodup|].
  apply (fmap_sublist key_of), work_items_sublist.
Qed.

(** The pairs of other work items leave a record alone. *)
Lemma other_results_miss i q results ord :
  Forall (fun q => is_Some (key_of q)) qs ->
  work_items qs !! i = Some q ->
  Forall2 (task_result py_repr client qs gdpr_text) ord results ->
  Forall (fun r => merged_fields r = None \/ result_key r <> key_of q
                   \/ task_result py_repr client qs gdpr_text i r) results.
Proof using Hnodup.
  intros Hkeys Hq Hres. induction Hres as [|i' r ord' results' Hr _ IH]; [done|].
  constructor; [|done].
  destruct (decide (i' = i)) as [->|Hne]; [by right; right|].
  right. left.
  destruct (task_result_inv i' r Hr) as (q' & Hq' & Hid & _).
  unfold result_key. intros Heq.
  assert (key_of q' = key_of q) as Hkk.
  { rewrite <- Heq. unfold key_of. rewrite Hid. done. }
  pose proof work_items_keys_NoDup as Hnd.
  apply Hne. eapply (NoDup_lookup _ _ _ _ Hnd).
  - by rewrite list_lookup_fmap, Hq'.
  - rewrite list_lookup_fmap, Hq. simpl. by rewrite Hkk.
Qed.

End RunRecords.

(** ** A work item that fails *)

Lemma key_of_Some_id q key : key_of q = Some key -> exists qid, dict_get k_id q = Some qid.
Proof. unfold key_of. destruct (dict_get k_id q); [by eexists|done]. Qed.



(** ** Persistence and its cadence *)


Lemma merge_loop_app idx rs1 rs2 : forall st,
  merge_loop idx st (rs1 ++ rs2) = (st1 ← merge_loop idx st rs1; merge_loop idx st1 rs2).
Proof.
  induction rs1 as [|r rs1 IH]; intros st; [done|].
  cbn [app merge_loop]. destruct (merge_step idx st r) as [st1|]; [|done].
  cbn [mbind res_bind]. apply IH.
Qed.

(** Below the cadence nothing is written. *)
Lemma merge_loop_quiet idx results : forall st st',
  merge_loop idx st results = Ok st' ->
  completed_since_save st + successes results < SAVE_EVERY ->
  files st' = files st
  /\ completed_since_save st' = completed_since_save st + successes results.
Proof.
  induction results as [|r results IH]; intros st st' Hloop Hlt.
  { injection Hloop as <-. unfold successes. cbn. split; [done|lia]. }
  cbn [merge_loop] in Hloop.
  destruct (merge_step idx st r) as [st1|] eqn:Hstep; [|done].
  cbn [mbind res_bind] in Hloop. rewrite successes_cons in Hlt.
  assert (files st1 = files st
          /\ completed_since_save st1
             = completed_since_save st + (if result_truthy r.2 then 1 else 0)) as [Hf Hc].
  { destruct (result_truthy r.2) eqn:Ht.
    - destruct (merge_step_truthy _ _ _ _ Ht Hstep)
        as (key & i & q & l & a & _ & _ & _ & _ & _ & _ & _ & Hsave).
      destruct (SAVE_EVERY <=? S (completed_since_save st)) eqn:H5.
      + apply Nat.leb_le in H5. lia.
      + destruct Hsave as [-> ->]. split; [done|lia].
    - rewrite (merge_step_falsy _ _ _ Ht) in Hstep. injection Hstep as <-.
      cbn. split; [done|lia]. }
  destruct (IH st1 st' Hloop) as [Hf' Hc']; [lia|].
  rewrite successes_cons. split; [congruence|lia].
Qed.

Lemma key_of_id q qid : dict_get k_id q = Some qid -> key_of q = result_key (qid, None).
Proof. unfold key_of, result_key. by intros ->. Qed.

Section RunTotal.

Variable py_repr : json -> str.
Variable client : nat -> chat_client.
Variable order : list nat.
Variable qs : list dict.
Variable gdpr_text : str.
Hypothesis Hsized : forall q, q ∈ qs -> exists n, analysis_length q = Ok n.
Hypothesis Hkeys : Forall (fun q => is_Some (key_of q)) qs.
Hypothesis Hnodup : NoDup (map key_of qs).
Hypothesis Hmergeable :
  forall i r, task_result py_repr client qs gdpr_text i r -> mergeable r.

Lemma work_item_id q : q ∈ work_items qs -> exists qid, dict_get k_id q = Some qid.
Proof using Hkeys.
  intros [Hq _]%work_items_elem.
  destruct (proj1 (Forall_forall _ _) Hkeys q Hq) as [key Hkey].
  by eapply key_of_Some_id.
Qed.

(** A run over a well-formed Collection whose workers return objects
    does not raise. *)
Lemma run_total w : exists st', run py_repr client order qs gdpr_text w = Ok st'.
Proof using Hsized Hkeys Hnodup Hmergeable.
  unfold run. rewrite (select_work_filter qs Hsized). cbn [mbind res_bind fst].
  destruct (work_items qs) as [|q0 tp] eqn:Htp; [by eexists|]. rewrite <- Htp.
  destruct (build_index_ok qs ∅ 0 Hkeys) as [idx Hidx]. rewrite Hidx.
  cbn [mbind res_bind].
  destruct (mapM_res_total
              (fun iq : nat * dict =>
                 run_task py_repr client (build_system_prompt gdpr_text) iq.1 iq.2)
              (imap (fun i q => (i, q)) (work_items qs))) as [tasks Htasks].
  { intros [i q] Hiq. apply list_elem_of_lookup_1 in Hiq as [i' Hiq].
    rewrite list_lookup_imap in Hiq.
    destruct (work_items qs !! i') as [q'|] eqn:Hq'; [|done]. injection Hiq as <- <-.
    destruct (work_item_id q') as [qid Hid]; [by eapply list_elem_of_lookup_2|].
    destruct (process_one_total py_repr (client i') (build_system_prompt gdpr_text)
                q' qid Hid) as (tr & r & Hone & _).
    eexists. exact Hone. }
  rewrite Htasks. cbn [mbind res_bind].
  pose proof (tasks_lookup py_repr client qs gdpr_text tasks Htasks) as [Hlen Hlook].
  destruct (mapM_res_total await_future (omap (fun i => tasks !! i) order))
    as [results Hresults].
  { intros t Ht. apply list_elem_of_omap in Ht as (i & _ & Ht).
    destruct (Hlook i t Ht) as (q & Hq & Hrun).
    destruct (work_item_id q) as [qid Hid]; [by eapply list_elem_of_lookup_2|].
    destruct (process_one_total py_repr (client i) (build_system_prompt gdpr_text)
                q qid Hid) as (tr & r & Hone & _).
    unfold run_task in Hrun. rewrite Hone in Hrun. injection Hrun as <-.
    by eexists. }
  rewrite Hresults. cbn [mbind res_bind].
  pose proof (results_of_tasks py_repr client order qs gdpr_text tasks results
                Hlen Hlook Hresults) as Hres.
  destruct (merge_loop_ok idx (length qs) results (initial_state qs w)) as [st Hst].
  { done. }
  { cbn. unfold SAVE_EVERY. lia. }
  { apply Forall_forall. intros r Hr.
    apply list_elem_of_lookup_1 in Hr as [k Hr].
    destruct (Forall2_lookup_r _ _ _ _ _ Hres Hr) as (i & _ & Htask).
    split; [by eapply Hmergeable|].
    destruct (task_result_inv py_repr client qs gdpr_text i r Htask)
      as (q & Hq & Hid & _).
    assert (q ∈ qs) as Hin.
    { apply list_elem_of_lookup_2 in Hq. by apply work_items_elem in Hq as [? _]. }
    destruct (proj1 (Forall_forall _ _) Hkeys q Hin) as [key Hkey].
    apply list_elem_of_lookup_1 in Hin as [j Hj].
    exists key, j. split.
    - unfold key_of in Hkey. rewrite Hid in Hkey.
      destruct (hash_key r.1); [by injection Hkey as ->|done].
    - split; [|by eapply lookup_lt_Some].
      by rewrite (build_index_lookup qs _ _ _ Hidx Hnodup j q key Hj Hkey). }
  rewrite Hst. cbn [mbind res_bind]. rewrite save_questions_ok.
  cbn [mbind res_bind]. by eexists.
Qed.

End RunTotal.


Lemma tmp_path_not_canonical : tmp_path <> QUESTIONS_PATH.
Proof. intros H. apply (f_equal suffix) in H. vm_compute in H. discriminate. Qed.

Lemma save_questions_disk qs w w' :
  save_questions qs QUESTIONS_PATH w = Ok w' ->
  io w' = io w ++ save_events qs
  /\ disk w' !! QUESTIONS_PATH = Some (file_of qs)
  /\ disk w' !! tmp_path = None.
Proof.
  rewrite save_questions_ok. intros [= <-]. cbn [io disk]. split; [done|].
  split; [by rewrite lookup_insert_eq|].
  rewrite lookup_insert_ne by (intros H; by apply tmp_path_not_canonical).
  by rewrite lookup_delete_eq.
Qed.

(** When a merge saves. *)
Lemma merge_step_save idx st r st' :
  merge_step idx st r = Ok st' ->
  completed_since_save st < SAVE_EVERY ->
  if result_truthy r.2 && (S (completed_since_save st) =? SAVE_EVERY)
  then io (files st') = io (files st) ++ save_events (questions st')
       /\ disk (files st') !! QUESTIONS_PATH = Some (file_of (questions st'))
       /\ completed_since_save st' = 0
  else files st' = files st
       /\ completed_since_save st'
          = completed_since_save st + (if result_truthy r.2 then 1 else 0).
Proof.
  intros Hstep Hc. destruct (result_truthy r.2) eqn:Ht; cbn [andb].
  - destruct (merge_step_truthy _ _ _ _ Ht Hstep)
      as (key & i & q & l & a & _ & _ & _ & _ & _ & _ & _ & Hsave).
    unfold SAVE_EVERY in *.
    destruct (S (completed_since_save st) =? 5) eqn:H5.
    + apply Nat.eqb_eq in H5.
      assert ((5 <=? S (completed_since_save st)) = true) as Hle by (apply Nat.leb_le; lia).
      rewrite Hle in Hsave. destruct Hsave as [Hc' Hw].
      apply save_questions_disk in Hw as (Hio & Hd & _). done.
    + apply Nat.eqb_neq in H5.
      assert ((5 <=? S (completed_since_save st)) = false) as Hle by (apply Nat.leb_gt; lia).
      rewrite Hle in Hsave. destruct Hsave as [-> ->]. split; [done|lia].
  - rewrite (merge_step_falsy _ _ _ Ht) in Hstep. injection Hstep as <-. cbn.
    split; [done|lia].
Qed.

Lemma task_result_truthy py_repr client qs gdpr_text i r :
  task_result py_repr client qs gdpr_text i r ->
  (exists d, r.2 = Some (JObj d)) ->
  mergeable r /\ result_truthy r.2 = true.
Proof.
  intros Ht [d Hd].
  destruct (task_result_inv py_repr client qs gdpr_text i r Ht) as (q & _ & _ & Hf).
  destruct (Hf _ Hd) as [H1 H2]. split.
  - intros result Hr. rewrite Hd in Hr. injection Hr as <-. by exists d.
  - rewrite Hd. by destruct (merged_fields_object r.1 d H1 H2) as [Htr _].
Qed.

Lemma completion_order_perm order (qs : list dict) :
  order ≡ₚ seq 0 (length (work_items qs)) -> completion_order order qs = order.
Proof.
  intros Hp. unfold completion_order.
  apply forallb_filter_id. apply forallb_forall. intros i Hi.
  apply Nat.ltb_lt. apply list_elem_of_In in Hi. rewrite Hp in Hi.
  apply elem_of_seq in Hi. lia.
Qed.

Lemma successes_all rs :
  Forall (fun r => result_truthy r.2 = true) rs -> successes rs = length rs.
Proof.
  intros H. unfold successes. induction H as [|r rs Hr _ IH]; [done|].
  cbn [List.filter]. rewrite Hr. cbn [length]. by rewrite IH.
Qed.




(** ** A second run *)

Lemma analysis_length_set a q : analysis_length (dict_set k_analysis a q) = py_len a.
Proof. unfold analysis_length, dict_get_default. by rewrite dict_get_set_eq. Qed.

Lemma is_complete_set s q :
  SKIP_THRESHOLD < length s -> is_complete (dict_set k_analysis (JStr s) q) = true.
Proof.
  intros H. unfold is_complete. rewrite analysis_length_set. cbn [py_len].
  by apply Nat.ltb_lt.
Qed.

Lemma is_complete_sized q : is_complete q = true -> exists n, analysis_length q = Ok n.
Proof. unfold is_complete. destruct (analysis_length q); [by eexists|done]. Qed.

Lemma work_items_nil (l : list dict) :
  (forall q, q ∈ l -> is_complete q = true) -> work_items l = [].
Proof.
  induction l as [|q l IH]; [done|]. intros H. unfold work_items. cbn [List.filter].
  rewrite (H q) by apply list_elem_of_here. cbn [negb].
  apply IH. intros q' Hq'. apply H. by apply list_elem_of_further.
Qed.

Lemma long_result_merged py_repr client qs gdpr_text i r :
  task_result py_repr client qs gdpr_text i r -> long_result r -> long_merged r.
Proof.
  intros Ht (d & s & Hr & Ha & Hlen).
  destruct (task_result_inv py_repr client qs gdpr_text i r Ht) as (q & _ & _ & Hf).
  destruct (Hf _ Hr) as [Hl Han].
  destruct (merged_fields_object r.1 d Hl Han) as (_ & l & a & Hl' & Ha' & Hm).
  exists l, s. split; [|done]. destruct r as [qid res]. cbn in Hr. subst res.
  cbn [fst] in Hm. rewrite Hm. rewrite Ha in Ha'. by injection Ha' as <-.
Qed.

Lemma apply_result_keeps_complete r q :
  long_merged r -> is_complete q = true -> is_complete (apply_result r q) = true.
Proof.
  intros (l & s & Hm & Hlen) Hq. unfold apply_result. rewrite Hm.
  destruct (hash_key r.1); [|done].
  destruct (decide _); [|done]. by apply is_complete_set.
Qed.

Lemma apply_result_completes r q :
  long_merged r -> is_Some (key_of q) -> result_key r = key_of q ->
  is_complete (apply_result r q) = true.
Proof.
  intros (l & s & Hm & Hlen) [key Hkey] Hr. unfold apply_result. rewrite Hm.
  unfold result_key in Hr. rewrite Hkey in Hr.
  destruct (hash_key r.1) as [key'|]; [|done]. injection Hr as ->.
  rewrite decide_True by done. by apply is_complete_set.
Qed.

Lemma apply_results_keep_complete rs : forall q,
  Forall long_merged rs -> is_complete q = true ->
  is_complete (apply_results rs q) = true.
Proof.
  induction rs as [|r rs IH]; intros q Hrs Hq; [done|].
  apply Forall_cons in Hrs as [Hr Hrs]. cbn [apply_results fold_left].
  apply (IH _ Hrs). by apply apply_result_keeps_complete.
Qed.

Lemma apply_results_complete rs : forall q r,
  Forall long_merged rs -> is_Some (key_of q) ->
  r ∈ rs -> result_key r = key_of q ->
  is_complete (apply_results rs q) = true.
Proof.
  induction rs as [|r0 rs IH]; intros q r Hrs Hkey Hin Hr.
  { by apply elem_of_nil in Hin. }
  apply Forall_cons in Hrs as [Hr0 Hrs]. cbn [apply_results fold_left].
  apply elem_of_cons in Hin as [<-|Hin].
  - apply (apply_results_keep_complete rs _ Hrs). by apply apply_result_completes.
  - apply (IH _ r Hrs); [by rewrite apply_result_key|done|by rewrite apply_result_key].
Qed.

Lemma load_questions_file_of qs : load_questions (file_of qs) = Ok qs.
Proof.
  unfold load_questions, file_of. induction qs as [|q qs IH]; [done|].
  cbn [map]. rewrite mapM_res_cons. cbn [mbind res_bind]. rewrite IH. done.
Qed.

(** A save touches the canonical path and the temporary path only. *)
Lemma save_questions_other qs w w' p :
  save_questions qs QUESTIONS_PATH w = Ok w' ->
  p <> QUESTIONS_PATH -> p <> tmp_path -> disk w' !! p = disk w !! p.
Proof.
  rewrite save_questions_ok. intros [= <-] H1 H2. cbn [disk].
  rewrite lookup_insert_ne by done. rewrite lookup_delete_ne by done.
  by rewrite lookup_insert_ne.
Qed.

Lemma merge_step_other idx st r st' p :
  merge_step idx st r = Ok st' ->
  p <> QUESTIONS_PATH -> p <> tmp_path ->
  disk (files st') !! p = disk (files st) !! p.
Proof.
  intros Hstep H1 H2. destruct (result_truthy r.2) eqn:Ht.
  - destruct (merge_step_truthy idx st r st' Ht Hstep)
      as (key & i & q & l & a & _ & _ & _ & _ & _ & _ & _ & Hs).
    destruct (SAVE_EVERY <=? S (completed_since_save st)).
    + destruct Hs as [_ Hs]. by eapply save_questions_other.
    + destruct Hs as [_ ->]. done.
  - rewrite merge_step_falsy in Hstep by done. by injection Hstep as <-.
Qed.

Lemma merge_loop_other idx results p : forall st st',
  merge_loop idx st results = Ok st' ->
  p <> QUESTIONS_PATH -> p <> tmp_path ->
  disk (files st') !! p = disk (files st) !! p.
Proof.
  induction results as [|r results IH]; intros st st' Hloop H1 H2.
  { by injection Hloop as <-. }
  cbn [merge_loop] in Hloop.
  destruct (merge_step idx st r) as [st1|] eqn:Hstep; [|done].
  cbn [mbind res_bind] in Hloop.
  rewrite (IH st1 st' Hloop H1 H2). by eapply merge_step_other.
Qed.

(** A run leaves every file other than the canonical and the temporary
    one as it was. *)
Lemma run_other py_repr client order qs gdpr_text w st' p :
  run py_repr client order qs gdpr_text w = Ok st' ->
  p <> QUESTIONS_PATH -> p <> tmp_path ->
  disk (files st') !! p = disk w !! p.
Proof.
  intros Hrun H1 H2.
  destruct (run_Ok _ _ _ _ _ _ _ Hrun)
    as [_ [[_ ->]|(_ & idx & results & st & _ & _ & Hloop & Hsave & _)]]; [done|].
  rewrite (save_questions_other _ _ _ p Hsave H1 H2).
  by rewrite (merge_loop_other idx results p _ _ Hloop H1 H2).
Qed.

Lemma gdpr_path_not_canonical : GDPR_PATH <> QUESTIONS_PATH.
Proof. intros H. apply (f_equal suffix) in H. vm_compute in H. discriminate. Qed.

Lemma gdpr_path_not_tmp : GDPR_PATH <> tmp_path.
Proof. intros H. apply (f_equal suffix) in H. vm_compute in H. discriminate. Qed.

Lemma main_loaded py_repr client order api_key qs gdpr_text w :
  api_key <> [] ->
  disk w !! QUESTIONS_PATH = Some (file_of qs) ->
  disk w !! GDPR_PATH = Some (JStr gdpr_text) ->
  main py_repr client order api_key w = run py_repr client order qs gdpr_text w.
Proof.
  intros Hk Hq Hg. unfold main. destruct api_key; [done|].
  rewrite Hq, Hg, load_questions_file_of. done.
Qed.

Section LongRun.

Variable py_repr : json -> str.
Variable client : nat -> chat_client.
Variable order : list nat.
Variable qs : list dict.
Variable gdpr_text : str.
Hypothesis Hsized : forall q, q ∈ qs -> exists n, analysis_length q = Ok n.
Hypothesis Hkeys : Forall (fun q => is_Some (key_of q)) qs.
Hypothesis Hnodup : NoDup (map key_of qs).
Hypothesis Horder : order ≡ₚ seq 0 (length (work_items qs)).
Hypothesis Hlong :
  forall i r, task_result py_repr client qs gdpr_text i r -> long_result r.

Lemma long_result_object r : long_result r -> exists d, r.2 = Some (JObj d).
Proof. intros (d & s & Hr & _). by exists d. Qed.

(** A run whose workers all return a long analysis leaves no work. *)
Lemma run_long w :
  exists st1,
    run py_repr client order qs gdpr_text w = Ok st1
    /\ failed st1 = 0 /\ total_done st1 = length (work_items qs)
    /\ (forall q, q ∈ questions st1 -> is_complete q = true)
    /\ (work_items qs = [] -> st1 = initial_state qs w)
    /\ (work_items qs <> [] ->
          disk (files st1) !! QUESTIONS_PATH = Some (file_of (questions st1))).
Proof using Hsized Hkeys Hnodup Horder Hlong.
  destruct (run_total py_repr client order qs gdpr_text Hsized Hkeys Hnodup) with (w := w)
    as [st1 Hrun].
  { intros i r Ht. apply (task_result_truthy _ _ _ _ _ _ Ht).
    by apply long_result_object, Hlong with i. }
  exists st1. split; [done|].
  destruct (run_Ok _ _ _ _ _ _ _ Hrun)
    as [_ [[Hnil ->]|(Hne & idx & results & st & Hidx & Hres & Hloop & Hsave
                        & Hq & Htd & Hf & _)]].
  { rewrite Hnil. cbn. repeat split; try done.
    intros q Hq. destruct (is_complete q) eqn:Hc; [done|].
    assert (q ∈ work_items qs) as Hin by (by apply work_items_elem).
    rewrite Hnil in Hin. by apply elem_of_nil in Hin. }
  rewrite (completion_order_perm order qs Horder) in Hres.
  assert (Forall long_merged results) as Hmerged.
  { apply Forall_forall. intros r Hr. apply list_elem_of_lookup_1 in Hr as [k Hr].
    destruct (Forall2_lookup_r _ _ _ _ _ Hres Hr) as (i & _ & Ht).
    eapply long_result_merged; [exact Ht|]. by eapply Hlong. }
  assert (Forall (fun r => result_truthy r.2 = true) results) as Htruthy.
  { eapply Forall_impl; [exact Hmerged|]. intros r (l & s & Hm & _).
    by eapply merged_fields_truthy. }
  assert (length results = length (work_items qs)) as Hlen.
  { rewrite <- (Forall2_length _ _ _ Hres), (Permutation_length Horder).
    by rewrite length_seq. }
  destruct (merge_loop_counters idx results _ _ Hloop) as (Ht & Hfl & _).
  { cbn. unfold SAVE_EVERY. lia. }
  rewrite (successes_all _ Htruthy) in Ht, Hfl. cbn in Ht, Hfl.
  split; [lia|]. split; [lia|].
  pose proof (merge_loop_questions qs idx Hidx Hnodup results (initial_state qs w) st
                eq_refl Hloop) as Hqs.
  cbn [questions initial_state] in Hqs.
  split; [|split; [done|]].
  - rewrite Hq, Hqs. intros q' Hq'. apply list_elem_of_fmap in Hq' as (q & -> & Hin).
    destruct (is_complete q) eqn:Hc; [by apply apply_results_keep_complete|].
    assert (q ∈ work_items qs) as Hw by (by apply work_items_elem).
    apply list_elem_of_lookup_1 in Hw as [i Hi].
    assert (i ∈ order) as Hio.
    { rewrite Horder. apply elem_of_seq. apply lookup_lt_Some in Hi. lia. }
    apply list_elem_of_lookup_1 in Hio as [k Hk].
    destruct (Forall2_lookup_l _ _ _ _ _ Hres Hk) as (r & Hr & Ht').
    destruct (task_result_inv py_repr client qs gdpr_text i r Ht')
      as (q0 & Hq0 & Hid & _).
    rewrite Hi in Hq0. injection Hq0 as <-.
    apply (apply_results_complete results q r Hmerged).
    + by apply (proj1 (Forall_forall _ _) Hkeys).
    + by eapply list_elem_of_lookup_2.
    + by rewrite (key_of_id q r.1 Hid).
  - intros _. rewrite Hq. by apply (save_questions_disk _ _ _ Hsave).
Qed.

End LongRun.





(** ** The pool keeps to its capacity *)

Lemma count_cons f w ws : count f (w :: ws) = (if f w then 1 else 0) + count f ws.
Proof. unfold count. cbn [List.filter]. by destruct (f w). Qed.

Lemma count_insert f i old new ws :
  ws !! i = Some old ->
  count f (<[i := new]> ws) + (if f old then 1 else 0)
  = count f ws + (if f new then 1 else 0).
Proof.
  revert i. induction ws as [|w ws IH]; intros i Hi; [done|].
  destruct i as [|i].
  - injection Hi as ->. change (<[0 := new]> (old :: ws)) with (new :: ws).
    rewrite !count_cons. lia.
  - change (<[S i := new]> (w :: ws)) with (w :: <[i := new]> ws).
    rewrite !count_cons. specialize (IH i Hi). lia.
Qed.

Lemma count_in_flight_le ws : count in_flight ws <= count holds_slot ws.
Proof.
  induction ws as [|w ws IH]; [done|]. rewrite !count_cons.
  destruct w; cbn [in_flight holds_slot]; lia.
Qed.

Lemma count_spawn qs : count holds_slot (map spawn qs) = 0.
Proof.
  induction qs as [|q qs IH]; [done|]. cbn [map]. rewrite count_cons, IH.
  unfold spawn. by destruct (dict_item k_id q).
Qed.

Lemma count_none f ws : (forall w, w ∈ ws -> f w = false) -> count f ws = 0.
Proof.
  induction ws as [|w ws IH]; [done|]. intros H. rewrite count_cons.
  rewrite (H w) by apply list_elem_of_here. apply IH.
  intros w' Hw'. apply H. by apply list_elem_of_further.
Qed.

Section PoolFacts.

Variable py_repr : json -> str.
Variable client : nat -> chat_client.
Variable system_prompt : str.
Variable to_process : list dict.

(** A worker that has entered [async with semaphore] holds the slot or
    has given it back, never both and never neither. *)
Lemma after_failure_slot q attempt :
  slot_of (after_failure q attempt) + released (after_failure q attempt) = 1.
Proof. unfold after_failure. by destruct (attempt <? MAX_RETRIES). Qed.

Lemma start_attempt_slot q attempt :
  slot_of (start_attempt py_repr q attempt)
  + released (start_attempt py_repr q attempt) = 1.
Proof.
  unfold start_attempt. destruct (build_user_prompt py_repr q); [done|].
  apply after_failure_slot.
Qed.

Lemma on_reply_slot i q attempt user :
  slot_of (on_reply py_repr client system_prompt i q attempt user)
  + released (on_reply py_repr client system_prompt i q attempt user) = 1.
Proof.
  unfold on_reply. destruct (handle_reply _ _); [done|]. apply after_failure_slot.
Qed.

Lemma on_wake_slot q attempt :
  slot_of (on_wake py_repr q attempt) + released (on_wake py_repr q attempt) = 1.
Proof.
  unfold on_wake. destruct (S attempt <=? MAX_RETRIES); [|done].
  apply start_attempt_slot.
Qed.

Lemma pool_step_slots s s' :
  pool_step py_repr client system_prompt to_process s s' ->
  permits s' + count holds_slot (workers s') = permits s + count holds_slot (workers s)
  /\ length (workers s') = length (workers s).
Proof.
  intros Hstep. destruct Hstep as [i q p ws Hq Hw|i q a user p ws Hq Hw|i q a p ws Hq Hw];
    unfold settle; cbn [permits workers]; rewrite length_insert; (split; [|done]).
  - pose proof (count_insert holds_slot i _ (start_attempt py_repr q 1) ws Hw) as Hc.
    pose proof (start_attempt_slot q 1) as Hs. unfold slot_of in Hs.
    cbn [holds_slot] in Hc. lia.
  - pose proof (count_insert holds_slot i _
                  (on_reply py_repr client system_prompt i q a user) ws Hw) as Hc.
    pose proof (on_reply_slot i q a user) as Hs. unfold slot_of in Hs.
    cbn [holds_slot] in Hc. lia.
  - pose proof (count_insert holds_slot i _ (on_wake py_repr q a) ws Hw) as Hc.
    pose proof (on_wake_slot q a) as Hs. unfold slot_of in Hs.
    cbn [holds_slot] in Hc. lia.
Qed.

Lemma pool_reachable_slots capacity s :
  pool_reachable py_repr client system_prompt to_process capacity s ->
  permits s + count holds_slot (workers s) = capacity
  /\ length (workers s) = length to_process.
Proof.
  unfold pool_reachable. intros H.
  eapply (rtc_ind_r (fun s => permits s + count holds_slot (workers s) = capacity
                              /\ length (workers s) = length to_process));
    [|intros s1 s2 H12 Hstep IH|exact H].
  - unfold pool_init. cbn [permits workers]. rewrite count_spawn, length_map. lia.
  - destruct (pool_step_slots _ _ Hstep) as [H1 H2]. lia.
Qed.

End PoolFacts.

Section PoolRefines.

Variable py_repr : json -> str.
Variable client : nat -> chat_client.
Variable system_prompt : str.
Variable to_process : list dict.

Lemma attempt_loop_snd_cons chat q qid a rest :
  (attempt_loop py_repr chat system_prompt q qid (a :: rest)).2
  = match (try_attempt py_repr chat system_prompt q a).2 with
    | Ok result => Some (qid, Some result)
    | Raise _ =>
        if a <? MAX_RETRIES
        then (attempt_loop py_repr chat system_prompt q qid rest).2
        else Some (qid, None)
    end.
Proof.
  cbn [attempt_loop].
  destruct (try_attempt py_repr chat system_prompt q a) as [evs [result|e]]; [done|].
  cbn [snd]. destruct (a <? MAX_RETRIES); [|done].
  by destruct (attempt_loop py_repr chat system_prompt q qid rest).
Qed.

Lemma rest_of_loop_next i q a :
  a < MAX_RETRIES ->
  rest_of_loop py_repr client system_prompt i q a
  = finish py_repr client system_prompt i q (start_attempt py_repr q (S a)).
Proof.
  intros Ha. unfold rest_of_loop at 1.
  replace (MAX_RETRIES - a) with (S (MAX_RETRIES - S a)) by lia.
  cbn [seq]. rewrite attempt_loop_snd_cons. unfold try_attempt, start_attempt.
  destruct (build_user_prompt py_repr q) as [user|e]; cbn [snd finish].
  - destruct (handle_reply py_repr _); [done|].
    by destruct (S a <? MAX_RETRIES).
  - unfold after_failure. by destruct (S a <? MAX_RETRIES).
Qed.

Lemma rest_of_loop_end i q a :
  MAX_RETRIES <= a -> rest_of_loop py_repr client system_prompt i q a = None.
Proof.
  intros Ha. unfold rest_of_loop. by replace (MAX_RETRIES - a) with 0 by lia.
Qed.

(** A step of the pool does not change what any worker will return. *)
Lemma pool_step_finish s s' :
  pool_step py_repr client system_prompt to_process s s' ->
  forall j q w, to_process !! j = Some q -> workers s !! j = Some w ->
    exists w', workers s' !! j = Some w'
      /\ finish py_repr client system_prompt j q w'
         = finish py_repr client system_prompt j q w.
Proof.
  intros Hstep j q' w Hq' Hw.
  destruct Hstep as [i q p ws Hq Hi|i q a user p ws Hq Hi|i q a p ws Hq Hi];
    unfold settle; cbn [permits workers] in *;
    (destruct (decide (i = j)) as [->|Hne];
     [|exists w; by rewrite list_lookup_insert_ne]);
    rewrite Hq in Hq'; injection Hq' as <-; rewrite Hi in Hw; injection Hw as <-;
    (eexists; split; [apply list_lookup_insert_eq; by eapply lookup_lt_Some|]).
  - cbn [finish]. symmetry. apply rest_of_loop_next. unfold MAX_RETRIES. lia.
  - unfold on_reply. cbn [finish].
    destruct (handle_reply py_repr _); [done|].
    unfold after_failure. by destruct (a <? MAX_RETRIES).
  - unfold on_wake. cbn [finish].
    destruct (S a <=? MAX_RETRIES) eqn:Hle.
    + symmetry. apply rest_of_loop_next. apply Nat.leb_le in Hle. lia.
    + cbn [finish]. symmetry. apply rest_of_loop_end. apply Nat.leb_gt in Hle. lia.
Qed.

Lemma spawn_finish j q :
  finish py_repr client system_prompt j q (spawn q)
  = returned py_repr client system_prompt j q.
Proof.
  unfold spawn, returned, process_one, dict_item, rest_of_loop.
  destruct (dict_get k_id q) as [qid|] eqn:Hid; cbn [mbind res_bind finish]; [|done].
  unfold rest_of_loop, qid_of, dict_get_default. rewrite Hid.
  rewrite Nat.sub_0_r.
  by destruct (attempt_loop py_repr (client j) system_prompt q qid (seq 1 MAX_RETRIES)).
Qed.

(** Under every interleaving a worker ends with what [process_one]
    returns. *)
Lemma pool_reachable_finish capacity s :
  pool_reachable py_repr client system_prompt to_process capacity s ->
  forall j q, to_process !! j = Some q ->
    exists w, workers s !! j = Some w
      /\ finish py_repr client system_prompt j q w
         = returned py_repr client system_prompt j q.
Proof.
  unfold pool_reachable. intros H.
  eapply (rtc_ind_r (fun s => forall j q, to_process !! j = Some q ->
            exists w, workers s !! j = Some w
              /\ finish py_repr client system_prompt j q w
                 = returned py_repr client system_prompt j q));
    [|intros s1 s2 H12 Hstep IH|exact H].
  - intros j q Hq. exists (spawn q). unfold pool_init. cbn [workers].
    rewrite list_lookup_fmap, Hq. split; [done|]. apply spawn_finish.
  - intros j q Hq. destruct (IH j q Hq) as (w & Hw & Hf).
    destruct (pool_step_finish _ _ Hstep j q w Hq Hw) as (w' & Hw' & Hf').
    exists w'. split; [done|]. by rewrite Hf'.
Qed.

End PoolRefines.

(** Entering [async with semaphore], with the state after it given by an
    equation. *)
Lemma acquire_step py_repr client system_prompt (to_process : list dict) i q p ws s s' :
  to_process !! i = Some q -> ws !! i = Some WWaiting ->
  s = {| permits := S p; workers := ws |} ->
  s' = settle i (start_attempt py_repr q 1) p ws ->
  pool_step py_repr client system_prompt to_process s s'.
Proof. intros Hq Hw -> ->. by apply step_acquire. Qed.

Lemma two_calling_reachable :
  pool_reachable repr_blank (fun _ => steady_chat) (build_system_prompt [])
                 five_questions 2 two_calling.
Proof.
  unfold pool_reachable.
  apply rtc_l with first_calling.
  { apply (acquire_step _ _ _ _ 0 (numbered 1) 1 (map spawn five_questions));
      vm_compute; reflexivity. }
  apply rtc_once.
  apply (acquire_step _ _ _ _ 1 (numbered 2) 0 (workers first_calling));
    vm_compute; reflexivity.
Qed.

(** C9: in every state the pool can reach from [asyncio.Semaphore(capacity)]
    and one task per work item, under any interleaving of the workers at
    their awaits, the calls in flight are at most [capacity] (20 in the
    program), the free slots and the workers between acquiring and
    returning add up to [capacity], so that all slots are free again
    once no worker is inside; and the step in which a worker returns,
    with a result or without one, gives its slot back. *)
Theorem pool_respects_capacity
    py_repr client system_prompt (to_process : list dict) capacity s :
  pool_reachable py_repr client system_prompt to_process capacity s ->
  count in_flight (workers s) <= capacity
  /\ permits s + count holds_slot (workers s) = capacity
  /\ ((forall w, w ∈ workers s -> holds_slot w = false) -> permits s = capacity)
  /\ (forall s' i w r,
        pool_step py_repr client system_prompt to_process s s' ->
        workers s !! i = Some w -> holds_slot w = true ->
        workers s' !! i = Some (WDone r) ->
        permits s' = S (permits s)
        /\ count holds_slot (workers s') + 1 = count holds_slot (workers s))
  /\ (forall i q r,
        to_process !! i = Some q -> workers s !! i = Some (WDone r) ->
        r = returned py_repr client system_prompt i q).
Proof.
  intros Hreach.
  destruct (pool_reachable_slots _ _ _ _ _ _ Hreach) as [Hinv Hlen].
  split. { pose proof (count_in_flight_le (workers s)). lia. }
  split; [done|]. split.
  { intros Hnone. rewrite (count_none holds_slot _ Hnone) in Hinv. lia. }
  split.
  - intros s' i w r Hstep Hw Hheld Hdone.
    destruct (pool_step_slots _ _ _ _ _ _ Hstep) as [Hsum _].
    enough (permits s' = S (permits s)) by lia.
    destruct Hstep as [j q p ws Hq Hj|j q a user p ws Hq Hj|j q a p ws Hq Hj];
      unfold settle in *; cbn [permits workers] in *;
      (destruct (decide (j = i)) as [->|Hne];
       [|rewrite list_lookup_insert_ne in Hdone by done;
         rewrite Hdone in Hw; by injection Hw as <-]);
      rewrite list_lookup_insert_eq in Hdone by (by eapply lookup_lt_Some);
      injection Hdone as Hdone.
    + rewrite Hj in Hw. by injection Hw as <-.
    + rewrite Hdone. cbn [released]. lia.
    + rewrite Hdone. cbn [released]. lia.
  - intros i q r Hq Hw.
    destruct (pool_reachable_finish _ _ _ _ _ _ Hreach i q Hq) as (w & Hw' & Hf).
    rewrite Hw in Hw'. injection Hw' as <-. done.
Qed.

Lemma pool_respects_capacity_witness :
  count in_flight (workers two_calling) = 2
  /\ count in_flight (workers two_calling) <= 2
  /\ permits two_calling + count holds_slot (workers two_calling) = 2.
Proof.
  split; [vm_compute; reflexivity|].
  pose proof (pool_respects_capacity repr_blank (fun _ => steady_chat)
                (build_system_prompt []) five_questions 2 two_calling
                two_calling_reachable) as (H1 & H2 & _).
  split; [exact H1|exact H2].
Defined.

(** ** Errors that leave the driver *)

Lemma py_len_unsized v : py_len v = Raise TypeError <-> unsized v = true.
Proof. by destruct v. Qed.

Lemma py_len_raise v e : py_len v = Raise e -> e = TypeError.
Proof. destruct v; cbn; congruence. Qed.

Lemma analysis_length_unsized q :
  analysis_length q = Raise TypeError <-> unsized_analysis q = true.
Proof.
  unfold analysis_length, unsized_analysis, dict_get_default.
  destruct (dict_get k_analysis q) as [v|]; [apply py_len_unsized|done].
Qed.

Lemma analysis_length_cases q :
  (exists n, analysis_length q = Ok n) \/ analysis_length q = Raise TypeError.
Proof.
  destruct (analysis_length q) as [n|e] eqn:H; [left; by eexists|right].
  unfold analysis_length in H. by rewrite (py_len_raise _ _ H).
Qed.

Lemma filter_step_unsized st q :
  unsized_analysis q = true -> filter_step st q = Raise TypeError.
Proof.
  intros H%analysis_length_unsized. unfold filter_step.
  unfold analysis_length in H. by rewrite H.
Qed.

Lemma filter_loop_raise qs : forall st e,
  filter_loop st qs = Raise e ->
  e = TypeError /\ exists q, q ∈ qs /\ unsized_analysis q = true.
Proof.
  induction qs as [|q qs IH]; intros st e H; [done|]. cbn [filter_loop] in H.
  destruct (analysis_length_cases q) as [[n Hn]|Hq].
  - rewrite (filter_step_ok st q n Hn) in H. cbn [mbind res_bind] in H.
    destruct (IH _ _ H) as (-> & q' & Hin & Hq'). split; [done|].
    exists q'. split; [by apply list_elem_of_further|done].
  - apply analysis_length_unsized in Hq. rewrite (filter_step_unsized st q Hq) in H.
    injection H as <-. split; [done|]. exists q. split; [apply list_elem_of_here|done].
Qed.

Lemma filter_loop_unsized qs : forall st q,
  q ∈ qs -> unsized_analysis q = true -> filter_loop st qs = Raise TypeError.
Proof.
  induction qs as [|q0 qs IH]; intros st q Hin Hq.
  { by apply elem_of_nil in Hin. }
  cbn [filter_loop]. destruct (analysis_length_cases q0) as [[n Hn]|Hq0].
  - rewrite (filter_step_ok st q0 n Hn). cbn [mbind res_bind].
    apply elem_of_cons in Hin as [->|Hin]; [|by eapply IH].
    apply analysis_length_unsized in Hq. congruence.
  - apply analysis_length_unsized in Hq0. by rewrite (filter_step_unsized st q0 Hq0).
Qed.

(** X1: the completeness filter raises exactly when some record has an
    analysis that is [null], a boolean or a number, and then it raises
    [TypeError] (from [len]); on every other Collection it returns the
    work items in their order and the number of records skipped. *)
Theorem filter_raises_on_unsized_analysis (qs : list dict) :
  (select_work qs = Raise TypeError
   <-> exists q, q ∈ qs /\ unsized_analysis q = true)
  /\ (forall e, select_work qs = Raise e -> e = TypeError)
  /\ ((forall q, q ∈ qs -> unsized_analysis q = false) ->
      select_work qs = Ok (work_items qs, length (List.filter is_complete qs))).
Proof.
  split; [split|split].
  - intros H. by apply filter_loop_raise in H as [_ H].
  - intros (q & Hin & Hq). by eapply filter_loop_unsized.
  - intros e H. by apply filter_loop_raise in H as [-> _].
  - intros H. apply select_work_filter. intros q Hin.
    destruct (analysis_length_cases q) as [Hn|Hq]; [done|].
    apply analysis_length_unsized in Hq. rewrite (H q Hin) in Hq. done.
Qed.

Lemma filter_raises_on_unsized_analysis_witness :
  select_work [example_question; null_question] = Raise TypeError.
Proof.
  apply (proj1 (filter_raises_on_unsized_analysis [example_question; null_question])).
  exists null_question. split.
  - apply list_elem_of_further, list_elem_of_here.
  - vm_compute. reflexivity.
Defined.


Lemma task_result_functional py_repr client qs gdpr_text i r r' :
  task_result py_repr client qs gdpr_text i r ->
  task_result py_repr client qs gdpr_text i r' -> r = r'.
Proof.
  intros (q & tr & Hq & Hrun) (q' & tr' & Hq' & Hrun').
  rewrite Hq in Hq'. injection Hq' as <-. rewrite Hrun in Hrun'. by injection Hrun'.
Qed.

(** The analysis of a record after merging pairs of which some are [r],
    the pair of the record, and the others miss the record. *)
Lemma apply_results_analysis r l a rs : forall q,
  merged_fields r = Some (l, a) ->
  result_key r = key_of q -> is_Some (key_of q) ->
  Forall (fun r' => merged_fields r' = None \/ result_key r' <> key_of q \/ r' = r) rs ->
  r ∈ rs \/ dict_get k_analysis q = Some a ->
  dict_get k_analysis (apply_results rs q) = Some a.
Proof.
  intros q Hm. revert q.
  induction rs as [|r0 rs IH]; intros q Hkey Hsome Hrs Hin.
  { destruct Hin as [Hin|Hin]; [by apply elem_of_nil in Hin|done]. }
  apply Forall_cons in Hrs as [Hr0 Hrs]. cbn [apply_results fold_left].
  assert (apply_result r0 q = q /\ r0 <> r \/ r0 = r) as [[Heq Hne]| ->].
  { destruct Hr0 as [Hn|[Hk| ->]]; [left|left|by right].
    - split; [by apply apply_result_none|]. intros ->. congruence.
    - split; [by apply apply_result_other|]. intros ->. congruence. }
  - rewrite Heq. apply IH; [done..|].
    destruct Hin as [Hin|Hin]; [|by right].
    apply elem_of_cons in Hin as [->|Hin]; [done|by left].
  - destruct Hsome as [key Hk].
    assert (hash_key r.1 = Ok key) as Hh.
    { unfold result_key in Hkey. rewrite Hk in Hkey.
      destruct (hash_key r.1); [by injection Hkey as ->|done]. }
    rewrite (apply_result_hit r q key l a Hm Hh Hk).
    apply IH.
    + rewrite !key_of_set; [done|apply k_legalReference_not_id|apply k_analysis_not_id].
    + rewrite !key_of_set; [by eexists|apply k_legalReference_not_id|apply k_analysis_not_id].
    + eapply Forall_impl; [exact Hrs|]. intros r' Hr'. cbn beta in Hr'.
      rewrite !key_of_set; [done|apply k_legalReference_not_id|apply k_analysis_not_id].
    + right. apply dict_get_set_eq.
Qed.

Lemma run_raises_at_filter py_repr client order qs gdpr_text w e :
  select_work qs = Raise e -> run py_repr client order qs gdpr_text w = Raise e.
Proof. intros H. unfold run. by rewrite H. Qed.



Lemma last_with_None key qs :
  last_with key qs = None ->
  forall j q, qs !! j = Some q -> key_of q <> Some key.
Proof.
  induction qs as [|q0 qs IH]; intros H j q Hq; [done|]. cbn [last_with] in H.
  destruct (last_with key qs); [done|].
  destruct (decide (key_of q0 = Some key)); [done|].
  destruct j as [|j]; [by injection Hq as <-|by eapply IH].
Qed.

Lemma last_with_Some key qs : forall j,
  last_with key qs = Some j <->
  (exists q, qs !! j = Some q /\ key_of q = Some key)
  /\ forall j' q', j < j' -> qs !! j' = Some q' -> key_of q' <> Some key.
Proof.
  induction qs as [|q qs IH]; intros j.
  { split; [done|]. by intros [(q & Hq & _) _]. }
  cbn [last_with]. destruct (last_with key qs) as [j0|] eqn:Hlast.
  - destruct (proj1 (IH j0) eq_refl) as [(q0 & Hq0 & Hk0) Hafter]. split.
    + intros [= <-]. split; [by exists q0|].
      intros [|j'] q' Hlt Hq'; [lia|]. apply (Hafter j' q'); [lia|done].
    + intros [(q1 & Hq1 & Hk1) Hafter1]. f_equal.
      destruct (Nat.lt_trichotomy j (S j0)) as [Hlt|[->|Hgt]]; [|done|].
      * exfalso. by apply (Hafter1 (S j0) q0 Hlt).
      * destruct j as [|j]; [lia|]. exfalso. apply (Hafter j q1); [lia|done|done].
  - pose proof (last_with_None key qs Hlast) as Hnone.
    destruct (decide (key_of q = Some key)) as [Hk|Hk]; split.
    + intros [= <-]. split; [by exists q|].
      intros [|j'] q' Hlt Hq'; [lia|]. by apply (Hnone j' q').
    + intros [(q1 & Hq1 & Hk1) _]. destruct j as [|j]; [done|].
      exfalso. by apply (Hnone j q1).
    + done.
    + intros [(q1 & Hq1 & Hk1) _]. destruct j as [|j].
      * injection Hq1 as ->. done.
      * exfalso. by apply (Hnone j q1).
Qed.

Lemma build_index_last key qs : forall m i m',
  build_index m i qs = Ok m' ->
  m' !! key = match last_with key qs with
              | Some j => Some (i + j)
              | None => m !! key
              end.
Proof.
  induction qs as [|q qs IH]; intros m i m' H.
  { by injection H as <-. }
  apply build_index_head in H as (k0 & Hk0 & H).
  rewrite (IH _ _ _ H). cbn [last_with].
  destruct (last_with key qs) as [j|]; [f_equal; lia|].
  destruct (decide (key_of q = Some key)) as [Hk|Hk].
  - rewrite Hk0 in Hk. injection Hk as ->. rewrite lookup_insert_eq. f_equal. lia.
  - rewrite lookup_insert_ne; [done|]. intros ->. done.
Qed.



Section RunMerges.

Variable py_repr : json -> str.
Variable client : nat -> chat_client.
Variable order : list nat.
Variable qs : list dict.
Variable gdpr_text : str.
Hypothesis Hsized : forall q, q ∈ qs -> exists n, analysis_length q = Ok n.
Hypothesis Hkeys : Forall (fun q => is_Some (key_of q)) qs.

(** With analyses that have a length and identifiers that can be keys, a
    run with work gets as far as the loop over the finished tasks. *)
Lemma run_merges w :
  work_items qs <> [] ->
  exists idx results,
    build_index ∅ 0 qs = Ok idx
    /\ Forall2 (task_result py_repr client qs gdpr_text) (completion_order order qs) results
    /\ run py_repr client order qs gdpr_text w
       = (st ← merge_loop idx (initial_state qs w) results; final_save st).
Proof using Hsized Hkeys.
  intros Hwork. unfold run. rewrite (select_work_filter qs Hsized). cbn [mbind res_bind fst].
  destruct (work_items qs) as [|q0 tp] eqn:Htp; [done|]. rewrite <- Htp.
  destruct (build_index_ok qs ∅ 0 Hkeys) as [idx Hidx]. rewrite Hidx.
  cbn [mbind res_bind].
  assert (forall q, q ∈ work_items qs -> exists qid, dict_get k_id q = Some qid) as Hid.
  { intros q [Hq _]%work_items_elem.
    destruct (proj1 (Forall_forall _ _) Hkeys q Hq) as [key Hkey].
    by eapply key_of_Some_id. }
  destruct (mapM_res_total
              (fun iq : nat * dict =>
                 run_task py_repr client (build_system_prompt gdpr_text) iq.1 iq.2)
              (imap (fun i q => (i, q)) (work_items qs))) as [tasks Htasks].
  { intros [i q] Hiq. apply list_elem_of_lookup_1 in Hiq as [i' Hiq].
    rewrite list_lookup_imap in Hiq.
    destruct (work_items qs !! i') as [q'|] eqn:Hq'; [|done]. injection Hiq as <- <-.
    destruct (Hid q') as [qid Hqid]; [by eapply list_elem_of_lookup_2|].
    destruct (process_one_total py_repr (client i') (build_system_prompt gdpr_text)
                q' qid Hqid) as (tr & r & Hone & _).
    eexists. exact Hone. }
  rewrite Htasks. cbn [mbind res_bind].
  pose proof (tasks_lookup py_repr client qs gdpr_text tasks Htasks) as [Hlen Hlook].
  destruct (mapM_res_total await_future (omap (fun i => tasks !! i) order))
    as [results Hresults].
  { intros t Ht. apply list_elem_of_omap in Ht as (i & _ & Ht).
    destruct (Hlook i t Ht) as (q & Hq & Hrun).
    destruct (Hid q) as [qid Hqid]; [by eapply list_elem_of_lookup_2|].
    destruct (process_one_total py_repr (client i) (build_system_prompt gdpr_text)
                q qid Hqid) as (tr & r & Hone & _).
    unfold run_task in Hrun. rewrite Hone in Hrun. injection Hrun as <-.
    by eexists. }
  rewrite Hresults. cbn [mbind res_bind].
  exists idx, results. split; [done|]. split; [|done].
  by eapply results_of_tasks.
Qed.

End RunMerges.

(** The pair of a task is under the identifier of a record, which the
    index knows. *)
Lemma task_result_indexed py_repr client (qs : list dict) gdpr_text idx i r :
  build_index ∅ 0 qs = Ok idx ->
  task_result py_repr client qs gdpr_text i r ->
  exists key j, hash_key r.1 = Ok key /\ idx !! key = Some j /\ j < length qs.
Proof.
  intros Hidx Ht.
  destruct (task_result_inv py_repr client qs gdpr_text i r Ht) as (q & Hq & Hid & _).
  assert (q ∈ qs) as Hin.
  { apply list_elem_of_lookup_2 in Hq. by apply work_items_elem in Hq as [? _]. }
  pose proof (build_index_keys _ _ _ _ Hidx) as Hkeys.
  destruct (proj1 (Forall_forall _ _) Hkeys q Hin) as [key Hkey].
  assert (hash_key r.1 = Ok key) as Hh.
  { unfold key_of in Hkey. rewrite Hid in Hkey.
    destruct (hash_key r.1); [by injection Hkey as ->|done]. }
  pose proof (build_index_last key qs _ _ _ Hidx) as Hlast.
  destruct (last_with key qs) as [j|] eqn:Hj.
  - exists key, j. split; [done|]. split; [done|].
    apply last_with_Some in Hj as [(q' & Hq' & _) _]. by eapply lookup_lt_Some.
  - exfalso. apply list_elem_of_lookup_1 in Hin as [j Hj'].
    by apply (last_with_None key qs Hj j q).
Qed.

Lemma is_infix_nil p : p <> [] -> is_infix p [] = false.
Proof. by destruct p. Qed.

Lemma py_contains_truthy k v : k <> [] -> py_contains k v = Ok true -> py_truthy v = true.
Proof.
  intros Hk. destruct v as [| | | |s|l|d]; try done; cbn [py_contains py_truthy].
  - destruct s; [|done]. rewrite (is_infix_nil k Hk). congruence.
  - destruct l; [|done]. cbn. congruence.
  - destruct d; [|done]. cbn. congruence.
Qed.

Lemma k_legalReference_not_nil : k_legalReference <> [].
Proof. vm_compute. discriminate. Qed.

Lemma py_getitem_non_object result k :
  is_obj result = false -> py_getitem result k = Raise TypeError.
Proof. by destruct result. Qed.

Lemma merge_step_non_object idx st r key i :
  non_object r = true ->
  (forall result, r.2 = Some result -> py_contains k_legalReference result = Ok true) ->
  hash_key r.1 = Ok key -> idx !! key = Some i ->
  merge_step idx st r = Raise TypeError.
Proof.
  unfold non_object, merge_step. intros Hno Hf Hkey Hi.
  destruct r.2 as [result|]; [|done].
  rewrite (py_contains_truthy _ _ k_legalReference_not_nil (Hf _ eq_refl)).
  rewrite Hkey. cbn [mbind res_bind]. rewrite Hi. cbn [mbind res_bind].
  rewrite (py_getitem_non_object result k_legalReference); [done|]. revert Hno. by destruct (is_obj result).
Qed.

Lemma checked_mergeable idx n r : checked idx n r -> non_object r = false -> mergeable r.
Proof.
  intros [Hf _] Hno result Hr. unfold non_object in Hno. rewrite Hr in Hno.
  destruct result as [| | | | | |d]; try done. exists d. split; [done|]. by apply Hf.
Qed.

Lemma merge_loop_checked idx n results : forall st,
  length (questions st) = n ->
  completed_since_save st < SAVE_EVERY ->
  Forall (checked idx n) results ->
  if existsb non_object results
  then merge_loop idx st results = Raise TypeError
  else exists st', merge_loop idx st results = Ok st'.
Proof.
  induction results as [|r results IH]; intros st Hn Hc Hall; [by eexists|].
  apply Forall_cons in Hall as [Hr Hall]. cbn [existsb merge_loop].
  destruct (non_object r) eqn:Hno.
  - destruct Hr as (Hf & key & i & Hkey & Hi & _). cbn [orb].
    rewrite (merge_step_non_object idx st r key i Hno); [done| |done|done].
    intros result Hres. by apply Hf.
  - pose proof (checked_mergeable idx n r Hr Hno) as Hm.
    destruct Hr as (_ & key & i & Hkey & Hi & Hlt).
    destruct (merge_step_ok idx st r key i Hkey Hi) as [st1 Hst1]; [lia|done|].
    rewrite Hst1. cbn [mbind res_bind orb].
    destruct (merge_step_counters _ _ _ _ Hst1 Hc) as (_ & _ & Hc1 & _ & Hl).
    apply IH; [lia| |done]. rewrite Hc1. by apply Nat.mod_upper_bound.
Qed.

Lemma task_result_checked py_repr client (qs : list dict) gdpr_text idx i r :
  build_index ∅ 0 qs = Ok idx ->
  task_result py_repr client qs gdpr_text i r ->
  checked idx (length qs) r.
Proof.
  intros Hidx Ht. split.
  - by destruct (task_result_inv py_repr client qs gdpr_text i r Ht) as (q & _ & _ & Hf).
  - by eapply task_result_indexed.
Qed.

Lemma final_save_ok st : exists st', final_save st = Ok st'.
Proof. unfold final_save. rewrite save_questions_ok. by eexists. Qed.

Lemma build_index_first_bad before q after : forall m i,
  Forall (fun q => is_Some (key_of q)) before ->
  key_of q = None ->
  build_index m i (before ++ q :: after) = Raise (id_error q).
Proof.
  induction before as [|q0 before IH]; intros m i Hb Hq.
  - cbn [app build_index]. unfold id_error, key_of, dict_item in *.
    destruct (dict_get k_id q) as [v|]; [|done]. cbn [mbind res_bind].
    destruct (hash_key v) eqn:Hv; [done|].
    destruct v; cbn in Hv; try done; by injection Hv as <-.
  - apply Forall_cons in Hb as [[key Hkey] Hb]. cbn [app].
    rewrite (build_index_cons_Some _ _ _ _ key Hkey). by apply IH.
Qed.

Lemma first_bad_key (qs : list dict) :
  Forall (fun q => is_Some (key_of q)) qs
  \/ exists before q after,
       qs = before ++ q :: after
       /\ Forall (fun q => is_Some (key_of q)) before /\ key_of q = None.
Proof.
  induction qs as [|q qs IH]; [by left|].
  destruct (key_of q) as [key|] eqn:Hk.
  - destruct IH as [IH|(b & q' & a & -> & Hb & Hq')].
    + left. constructor; [by eexists|done].
    + right. exists (q :: b), q', a. split; [done|]. split; [|done].
      constructor; [by eexists|done].
  - right. exists [], q, qs. by repeat split.
Qed.

Lemma run_raises_at_index py_repr client order qs gdpr_text w e :
  (forall q, q ∈ qs -> exists n, analysis_length q = Ok n) ->
  work_items qs <> [] ->
  build_index ∅ 0 qs = Raise e ->
  run py_repr client order qs gdpr_text w = Raise e.
Proof.
  intros Hsized Hwork Hidx. unfold run. rewrite (select_work_filter qs Hsized).
  cbn [mbind res_bind fst]. destruct (work_items qs); [done|]. by rewrite Hidx.
Qed.

Lemma existsb_non_object py_repr client qs gdpr_text ord results :
  Forall2 (task_result py_repr client qs gdpr_text) ord results ->
  existsb non_object results = true
  <-> exists i r, i ∈ ord /\ task_result py_repr client qs gdpr_text i r
                  /\ non_object r = true.
Proof.
  intros Hres. rewrite existsb_exists. split.
  - intros (r & Hin & Hno). apply list_elem_of_In, list_elem_of_lookup_1 in Hin as [k Hk].
    destruct (Forall2_lookup_r _ _ _ _ _ Hres Hk) as (i & Hi & Ht).
    exists i, r. split; [by eapply list_elem_of_lookup_2|done].
  - intros (i & r & Hin & Ht & Hno). apply list_elem_of_lookup_1 in Hin as [k Hk].
    destruct (Forall2_lookup_l _ _ _ _ _ Hres Hk) as (r' & Hr' & Ht').
    rewrite <- (task_result_functional _ _ _ _ _ _ _ Ht Ht') in Hr'.
    exists r. split; [|done]. by eapply list_elem_of_In, list_elem_of_lookup_2.
Qed.

Lemma run_outcome py_repr client order (qs : list dict) gdpr_text w :
  (forall q, q ∈ qs -> exists n, analysis_length q = Ok n) ->
  Forall (fun q => is_Some (key_of q)) qs ->
  work_items qs <> [] ->
  exists results,
    Forall2 (task_result py_repr client qs gdpr_text) (completion_order order qs) results
    /\ if existsb non_object results
       then run py_repr client order qs gdpr_text w = Raise TypeError
       else exists st', run py_repr client order qs gdpr_text w = Ok st'.
Proof.
  intros Hsized Hkeys Hwork.
  destruct (run_merges py_repr client order qs gdpr_text Hsized Hkeys w Hwork)
    as (idx & results & Hidx & Hres & ->).
  exists results. split; [done|].
  pose proof (merge_loop_checked idx (length qs) results (initial_state qs w) eq_refl)
    as Hloop.
  destruct (existsb non_object results).
  - rewrite Hloop; [done|cbn; unfold SAVE_EVERY; lia|].
    apply Forall_forall. intros r Hr. apply list_elem_of_lookup_1 in Hr as [k Hk].
    destruct (Forall2_lookup_r _ _ _ _ _ Hres Hk) as (i & _ & Ht).
    by eapply task_result_checked.
  - destruct Hloop as [st Hst]; [cbn; unfold SAVE_EVERY; lia| |].
    { apply Forall_forall. intros r Hr. apply list_elem_of_lookup_1 in Hr as [k Hk].
      destruct (Forall2_lookup_r _ _ _ _ _ Hres Hk) as (i & _ & Ht).
      by eapply task_result_checked. }
    rewrite Hst. cbn [mbind res_bind]. apply final_save_ok.
Qed.

Lemma run_raises_on_non_object py_repr client order (qs : list dict) gdpr_text w i r :
  (forall q, q ∈ qs -> exists n, analysis_length q = Ok n) ->
  Forall (fun q => is_Some (key_of q)) qs ->
  i ∈ completion_order order qs ->
  task_result py_repr client qs gdpr_text i r ->
  non_object r = true ->
  run py_repr client order qs gdpr_text w = Raise TypeError.
Proof.
  intros Hsized Hkeys Hi Ht Hno.
  assert (work_items qs <> []) as Hwork.
  { destruct Ht as (q & _ & Hq & _). intros Hnil. by rewrite Hnil in Hq. }
  destruct (run_outcome py_repr client order qs gdpr_text w Hsized Hkeys Hwork)
    as (results & Hres & Hout).
  assert (existsb non_object results = true) as Hex.
  { apply (existsb_non_object _ _ _ _ _ _ Hres). by exists i, r. }
  by rewrite Hex in Hout.
Qed.




(** X5: the index is built from every record of the Collection, not from
    the work items only, and [q["id"]] is not guarded.  When there is
    work to do and some record has no identifier (or one that cannot be a
    dict key: a list or an object), the run raises at the first such
    record, [KeyError] for a missing identifier and [TypeError] for an
    unhashable one, whatever the endpoint would answer; a complete
    Collection with the same record returns before the index is built. *)
Theorem missing_id_stops_the_run
    py_repr client order (before : list dict) q after gdpr_text w :
  (forall q', q' ∈ before ++ q :: after -> exists n, analysis_length q' = Ok n) ->
  Forall (fun q => is_Some (key_of q)) before ->
  key_of q = None ->
  if decide (work_items (before ++ q :: after) = [])
  then run py_repr client order (before ++ q :: after) gdpr_text w
       = Ok (initial_state (before ++ q :: after) w)
  else run py_repr client order (before ++ q :: after) gdpr_text w
       = Raise (id_error q).
Proof.
  intros Hsized Hb Hq. destruct (decide _) as [Hnil|Hwork].
  - by apply run_idle.
  - apply run_raises_at_index; [done|done|]. by apply build_index_first_bad.
Qed.

Lemma missing_id_stops_the_run_witness :
  run repr_blank (fun _ => steady_chat) [0; 1] ([example_question] ++ nameless_question :: [])
      [] (world_with [example_question; nameless_question])
  = Raise (KeyError (JStr k_id)).
Proof.
  pose proof (missing_id_stops_the_run repr_blank (fun _ => steady_chat) [0; 1]
                [example_question] nameless_question [] []
                (world_with [example_question; nameless_question])) as H.
  rewrite decide_False in H by (vm_compute; discriminate).
  apply H.
  - intros q Hq. apply list_elem_of_In in Hq. cbn [app In] in Hq.
    repeat (destruct Hq as [<-|Hq]; [eexists; vm_compute; reflexivity|]). destruct Hq.
  - repeat constructor. eexists. vm_compute. reflexivity.
  - vm_compute. reflexivity.
Defined.

Lemma build_index_raise qs : forall m i e,
  build_index m i qs = Raise e -> e = KeyError (JStr k_id) \/ e = TypeError.
Proof.
  intros m i e H. destruct (first_bad_key qs) as [Hk|(b & q & a & -> & Hb & Hq)].
  - destruct (build_index_ok qs m i Hk) as [m' Hm']. congruence.
  - rewrite (build_index_first_bad b q a m i Hb Hq) in H. injection H as <-.
    unfold id_error. destruct (dict_get k_id q); auto.
Qed.

Lemma run_raise_cases py_repr client order (qs : list dict) gdpr_text w e :
  run py_repr client order qs gdpr_text w = Raise e ->
  e = TypeError \/ e = KeyError (JStr k_id).
Proof.
  intros Hrun.
  destruct (select_work qs) as [[tp sk]|e0] eqn:Hsel.
  + apply select_work_Ok in Hsel as (Hsized & _ & _).
    destruct (decide (work_items qs = [])) as [Hnil|Hwork].
    { rewrite (run_idle _ _ _ _ _ _ Hsized Hnil) in Hrun. done. }
    destruct (build_index ∅ 0 qs) as [idx|e1] eqn:Hidx.
    * pose proof (build_index_keys _ _ _ _ Hidx) as Hkeys.
      destruct (run_outcome py_repr client order qs gdpr_text w Hsized Hkeys Hwork)
        as (results & Hres & Hout).
      destruct (existsb non_object results).
      -- rewrite Hout in Hrun. injection Hrun as <-. by left.
      -- destruct Hout as [st' Hst']. congruence.
    * rewrite (run_raises_at_index _ _ _ _ _ _ e1 Hsized Hwork Hidx) in Hrun.
      injection Hrun as <-. destruct (build_index_raise _ _ _ _ Hidx); auto.
  + rewrite (run_raises_at_filter _ _ _ _ _ _ e0 Hsel) in Hrun. injection Hrun as <-.
    left. by apply filter_loop_raise in Hsel as [-> _].
Qed.




(** ** The counters of the summary *)

(** A result the worker has checked is true in [if result:]. *)
Lemma task_result_counts py_repr client qs gdpr_text i r :
  task_result py_repr client qs gdpr_text i r ->
  result_truthy r.2 = has_result r.
Proof.
  intros Ht. destruct (task_result_inv py_repr client qs gdpr_text i r Ht)
    as (q & _ & _ & Hf).
  unfold has_result. destruct r.2 as [result|]; [|done]. cbn [result_truthy].
  destruct (Hf result eq_refl) as [Hl _].
  apply (py_contains_truthy k_legalReference); [apply k_legalReference_not_nil|done].
Qed.

Lemma successes_has_result py_repr client qs gdpr_text ord results :
  Forall2 (task_result py_repr client qs gdpr_text) ord results ->
  successes results = length (List.filter has_result results).
Proof.
  unfold successes. induction 1 as [|i r ord results Ht _ IH]; [done|].
  cbn [List.filter]. rewrite (task_result_counts _ _ _ _ _ _ Ht).
  destruct (has_result r); cbn [length]; by rewrite IH.
Qed.

Lemma filter_below_zero (l : list nat) : List.filter (fun i => i <? 0) l = [].
Proof. induction l as [|? ? IH]; [done|exact IH]. Qed.

(** X7: the two counters of the final summary.  Every task the driver
    consumes is counted once: as done when its worker returned a result,
    as failed when it returned [None] after three failed attempts; a
    result the worker returned is never taken as a failure by
    [if result:].  When every task is handed back once the two counters
    add up to the number of work items. *)
Theorem run_counts_every_task py_repr client order (qs : list dict) gdpr_text w st' :
  run py_repr client order qs gdpr_text w = Ok st' ->
  (exists results,
     Forall2 (task_result py_repr client qs gdpr_text) (completion_order order qs) results
     /\ total_done st' = length (List.filter has_result results)
     /\ failed st' = length (List.filter gave_up results))
  /\ total_done st' + failed st' = length (completion_order order qs)
  /\ (order ≡ₚ seq 0 (length (work_items qs)) ->
      total_done st' + failed st' = length (work_items qs)).
Proof.
  intros Hrun.
  assert (exists results,
     Forall2 (task_result py_repr client qs gdpr_text) (completion_order order qs) results
     /\ total_done st' = length (List.filter has_result results)
     /\ failed st' = length (List.filter gave_up results)) as (results & Hres & Ht & Hf).
  { destruct (run_Ok _ _ _ _ _ _ _ Hrun)
      as [_ [[Hnil ->]|(_ & idx & results & st & _ & Hres & Hloop & _ & _ & Htd & Hfl & _)]].
    - exists []. unfold completion_order. rewrite Hnil. cbn [length].
      rewrite filter_below_zero.
      split; [constructor|done].
    - exists results. split; [done|].
      destruct (merge_loop_counters idx results _ _ Hloop) as (Ht & Hf & _).
      { cbn. unfold SAVE_EVERY. lia. }
      cbn in Ht, Hf. rewrite Htd, Hfl, Ht, Hf.
      rewrite (successes_has_result _ _ _ _ _ _ Hres).
      pose proof (filter_lengths has_result results) as Hl.
      change (fun x => negb (has_result x)) with gave_up in Hl.
      split; [done|]. lia. }
  split; [by exists results|].
  assert (total_done st' + failed st' = length (completion_order order qs)) as Hsum.
  { rewrite Ht, Hf, (Forall2_length _ _ _ Hres).
    pose proof (filter_lengths has_result results) as Hl.
    change (fun x => negb (has_result x)) with gave_up in Hl. lia. }
  split; [done|]. intros Hperm.
  rewrite Hsum, (completion_order_perm order qs Hperm), (Permutation_length Hperm).
  by rewrite length_seq.
Qed.

Lemma run_counts_every_task_witness :
  exists st',
    run repr_blank (fun _ => steady_chat) [1; 0] example_pair [] (world_with example_pair)
    = Ok st'
    /\ total_done st' + failed st' = length (work_items example_pair).
Proof.
  destruct (run repr_blank (fun _ => steady_chat) [1; 0] example_pair []
                (world_with example_pair)) as [st'|e] eqn:Hrun;
    [|vm_compute in Hrun; discriminate].
  exists st'. split; [done|].
  apply (proj2 (proj2 (run_counts_every_task _ _ _ _ _ _ _ Hrun))).
  apply (bool_decide_unpack _). vm_compute. reflexivity.
Defined.

(** ** The completion order *)

Lemma apply_result_commute r r' :
  r = r' \/ result_key r <> result_key r' -> commute r r'.
Proof.
  intros [->|Hne] q; [done|].
  destruct (decide (result_key r = key_of q)) as [Hr|Hr].
  - assert (result_key r' <> key_of q) as Hr' by congruence.
    rewrite (apply_result_other r' q Hr').
    symmetry. apply apply_result_other. by rewrite apply_result_key.
  - rewrite (apply_result_other r q Hr).
    apply apply_result_other. by rewrite apply_result_key.
Qed.

Lemma apply_results_cons r rs q :
  apply_results (r :: rs) q = apply_results rs (apply_result r q).
Proof. done. Qed.

Lemma apply_results_perm rs1 rs2 :
  rs1 ≡ₚ rs2 ->
  (forall r r', r ∈ rs1 -> r' ∈ rs1 -> commute r r') ->
  forall q, apply_results rs1 q = apply_results rs2 q.
Proof.
  induction 1 as [|r rs1 rs2 Hp IH|r r' rs|rs1 rs2 rs3 Hp1 IH1 Hp2 IH2]; intros Hc q.
  - done.
  - rewrite !apply_results_cons. apply IH. intros a b Ha Hb.
    apply Hc; by apply list_elem_of_further.
  - rewrite !apply_results_cons. f_equal. symmetry. apply Hc.
    + apply list_elem_of_here.
    + apply list_elem_of_further, list_elem_of_here.
  - rewrite IH1 by done. apply IH2. intros a b Ha Hb.
    apply Hc; by rewrite Hp1.
Qed.

Lemma filter_perm {A} (f : A -> bool) (l1 l2 : list A) :
  l1 ≡ₚ l2 -> List.filter f l1 ≡ₚ List.filter f l2.
Proof.
  induction 1 as [|x l1 l2 Hp IH|x y l|l1 l2 l3 Hp1 IH1 Hp2 IH2].
  - done.
  - cbn [List.filter]. destruct (f x); [by constructor|done].
  - cbn [List.filter]. destruct (f x), (f y); try done. apply perm_swap.
  - by etrans.
Qed.

Lemma successes_perm rs1 rs2 : rs1 ≡ₚ rs2 -> successes rs1 = successes rs2.
Proof. intros Hp. unfold successes. by rewrite (filter_perm _ _ _ Hp). Qed.

Lemma completion_order_permutation order order' (qs : list dict) :
  order ≡ₚ order' -> completion_order order qs ≡ₚ completion_order order' qs.
Proof. apply filter_perm. Qed.

(** The pairs of the same tasks in another order. *)
Lemma results_perm py_repr client (qs : list dict) gdpr_text ord1 ord2 :
  ord1 ≡ₚ ord2 ->
  forall rs1 rs2,
    Forall2 (task_result py_repr client qs gdpr_text) ord1 rs1 ->
    Forall2 (task_result py_repr client qs gdpr_text) ord2 rs2 ->
    rs1 ≡ₚ rs2.
Proof.
  induction 1 as [|i l1 l2 Hp IH|i j l|l1 l2 l3 Hp1 IH1 Hp2 IH2]; intros rs1 rs2 H1 H2.
  - apply Forall2_nil_inv_l in H1 as ->. by apply Forall2_nil_inv_l in H2 as ->.
  - apply Forall2_cons_inv_l in H1 as (r1 & rs1' & Hr1 & H1 & ->).
    apply Forall2_cons_inv_l in H2 as (r2 & rs2' & Hr2 & H2 & ->).
    rewrite (task_result_functional _ _ _ _ _ _ _ Hr1 Hr2). constructor. by apply IH.
  - apply Forall2_cons_inv_l in H1 as (a1 & rs1' & Ha1 & H1 & ->).
    apply Forall2_cons_inv_l in H1 as (b1 & rs1'' & Hb1 & H1 & ->).
    apply Forall2_cons_inv_l in H2 as (a2 & rs2' & Ha2 & H2 & ->).
    apply Forall2_cons_inv_l in H2 as (b2 & rs2'' & Hb2 & H2 & ->).
    rewrite (task_result_functional _ _ _ _ _ _ _ Ha1 Hb2).
    rewrite (task_result_functional _ _ _ _ _ _ _ Hb1 Ha2).
    assert (rs1'' = rs2'') as ->.
    { clear -H1 H2. revert rs2'' H2.
      induction H1 as [|x r l rs Hr _ IH]; intros rs2 H2.
      - by apply Forall2_nil_inv_l in H2.
      - apply Forall2_cons_inv_l in H2 as (r' & rs' & Hr' & H2 & ->).
        rewrite (task_result_functional _ _ _ _ _ _ _ Hr Hr'). f_equal. by apply IH. }
    apply perm_swap.
  - assert (exists rs, Forall2 (task_result py_repr client qs gdpr_text) l2 rs)
      as [rs Hrs].
    { assert (forall x, x ∈ l2 -> exists r, task_result py_repr client qs gdpr_text x r)
        as Hall.
      { intros x Hx. rewrite <- Hp1 in Hx. apply list_elem_of_lookup_1 in Hx as [k Hk].
        destruct (Forall2_lookup_l _ _ _ _ _ H1 Hk) as (r & _ & Hr). by exists r. }
      clear -Hall. induction l2 as [|x l2 IH]; [by exists []|].
      destruct (Hall x) as [r Hr]; [apply list_elem_of_here|].
      destruct IH as [rs Hrs].
      { intros y Hy. apply Hall. by apply list_elem_of_further. }
      exists (r :: rs). by constructor. }
    etrans; [by apply IH1|by apply IH2].
Qed.


(** The pairs of two tasks are the same pair or go to different records. *)
Lemma task_results_commute py_repr client (qs : list dict) gdpr_text i i' r r' :
  NoDup (map key_of qs) ->
  Forall (fun q => is_Some (key_of q)) qs ->
  task_result py_repr client qs gdpr_text i r ->
  task_result py_repr client qs gdpr_text i' r' ->
  commute r r'.
Proof.
  intros Hnodup Hkeys Ht Ht'. apply apply_result_commute.
  destruct (decide (i = i')) as [<-|Hne]; [left; by eapply task_result_functional|].
  right. intros Heq.
  destruct (task_result_inv py_repr client qs gdpr_text i r Ht) as (q & Hq & Hid & _).
  destruct (task_result_inv py_repr client qs gdpr_text i' r' Ht') as (q' & Hq' & Hid' & _).
  apply Hne.
  eapply (NoDup_lookup _ _ _ _ (work_items_keys_NoDup qs Hnodup)).
  - by rewrite list_lookup_fmap, Hq.
  - rewrite list_lookup_fmap, Hq'. cbn. f_equal.
    rewrite (key_of_id q r.1 Hid), (key_of_id q' r'.1 Hid'). symmetry. exact Heq.
Qed.




(** ** Saving, and what a run does to the files *)

Lemma with_suffix_other p s : suffix p <> s -> with_suffix p s <> p.
Proof. intros H Heq. apply H. by rewrite <- Heq at 1. Qed.



Lemma merge_step_io idx st r st' :
  merge_step idx st r = Ok st' ->
  length (questions st') = length (questions st)
  /\ exists snaps,
       io (files st') = io (files st) ++ flat_map save_events snaps
       /\ Forall (fun s => length s = length (questions st)) snaps.
Proof.
  intros Hstep. destruct (result_truthy r.2) eqn:Ht.
  - destruct (merge_step_truthy idx st r st' Ht Hstep)
      as (key & i & q & l & a & _ & _ & _ & _ & Hqs & _ & _ & Hs).
    assert (length (questions st') = length (questions st)) as Hlen.
    { by rewrite Hqs, length_insert. }
    split; [done|].
    destruct (SAVE_EVERY <=? S (completed_since_save st)).
    + destruct Hs as [_ Hs]. apply save_questions_disk in Hs as (Hio & _).
      exists [questions st']. cbn [flat_map]. rewrite app_nil_r. split; [done|].
      by constructor.
    + destruct Hs as [_ ->]. exists []. cbn [flat_map]. by rewrite app_nil_r.
  - rewrite merge_step_falsy in Hstep by done. injection Hstep as <-.
    split; [done|]. exists []. cbn [flat_map]. by rewrite app_nil_r.
Qed.

Lemma merge_loop_io idx results : forall st st',
  merge_loop idx st results = Ok st' ->
  length (questions st') = length (questions st)
  /\ exists snaps,
       io (files st') = io (files st) ++ flat_map save_events snaps
       /\ Forall (fun s => length s = length (questions st)) snaps.
Proof.
  induction results as [|r results IH]; intros st st' Hloop.
  { injection Hloop as <-. split; [done|]. exists []. cbn [flat_map].
    by rewrite app_nil_r. }
  cbn [merge_loop] in Hloop.
  destruct (merge_step idx st r) as [st1|] eqn:Hstep; [|done].
  cbn [mbind res_bind] in Hloop.
  destruct (merge_step_io _ _ _ _ Hstep) as (Hl1 & s1 & Hio1 & Hf1).
  destruct (IH _ _ Hloop) as (Hl2 & s2 & Hio2 & Hf2).
  split; [lia|]. exists (s1 ++ s2). rewrite flat_map_app, app_assoc, <- Hio1.
  split; [done|]. apply Forall_app. split; [done|].
  eapply Forall_impl; [exact Hf2|]. intros s Hs. cbn beta in Hs. lia.
Qed.

(** X10: what a run does to the files.  All it does is save: the history
    grows by a sequence of saves, each the write of a whole Collection (as
    many records as were loaded) to the temporary path followed at once
    by its rename over the canonical path; when there was work the last
    of them holds the Collection the run ends with, and no temporary file
    is left.  The reference text and every other file stay as they were;
    without work nothing is written at all. *)
Theorem run_only_saves py_repr client order (qs : list dict) gdpr_text w st' :
  run py_repr client order qs gdpr_text w = Ok st' ->
  (exists snaps,
     io (files st') = io w ++ flat_map save_events snaps
     /\ Forall (fun s => length s = length qs) snaps
     /\ (work_items qs <> [] -> last snaps = Some (questions st')))
  /\ (forall p, p <> QUESTIONS_PATH -> p <> tmp_path ->
        disk (files st') !! p = disk w !! p)
  /\ (work_items qs <> [] -> disk (files st') !! tmp_path = None)
  /\ (work_items qs = [] -> files st' = w).
Proof.
  intros Hrun. split; [|split; [|split]].
  - destruct (run_Ok _ _ _ _ _ _ _ Hrun)
      as [_ [[Hnil ->]|(Hwork & idx & results & st & _ & _ & Hloop & Hsave & Hq & _)]].
    { exists []. cbn [flat_map initial_state files]. rewrite app_nil_r. by repeat split. }
    destruct (merge_loop_io _ _ _ _ Hloop) as (Hlen & snaps & Hio & Hall).
    apply save_questions_disk in Hsave as (Hio' & _).
    exists (snaps ++ [questions st]). rewrite flat_map_app, app_assoc.
    cbn [initial_state files questions] in *. rewrite <- Hio. cbn [flat_map].
    rewrite app_nil_r. split; [done|]. split.
    + apply Forall_app. split; [done|]. by constructor.
    + intros _. by rewrite last_snoc, Hq.
  - intros p H1 H2. by eapply run_other.
  - intros Hwork.
    destruct (run_Ok _ _ _ _ _ _ _ Hrun)
      as [_ [[Hnil _]|(_ & idx & results & st & _ & _ & _ & Hsave & _)]]; [done|].
    by apply save_questions_disk in Hsave as (_ & _ & Htmp).
  - intros Hnil.
    destruct (run_Ok _ _ _ _ _ _ _ Hrun) as [_ [[_ ->]|(Hwork & _)]]; done.
Qed.

Lemma run_only_saves_witness :
  exists st',
    run repr_blank (fun _ => steady_chat) [1; 0] example_pair [] (world_with example_pair)
    = Ok st'
    /\ disk (files st') !! GDPR_PATH = Some (JStr (lit "Article 1")).
Proof.
  destruct (run repr_blank (fun _ => steady_chat) [1; 0] example_pair []
                (world_with example_pair)) as [st'|e] eqn:Hrun;
    [|vm_compute in Hrun; discriminate].
  exists st'. split; [reflexivity|].
  rewrite (proj1 (proj2 (run_only_saves _ _ _ _ _ _ _ Hrun)) GDPR_PATH).
  - reflexivity.
  - apply gdpr_path_not_canonical.
  - apply gdpr_path_not_tmp.
Defined.

(** ** The pool makes progress *)

Lemma workers_cases (ws : list wstate) :
  (forall w, w ∈ ws -> finished w = true)
  \/ (exists i a u, ws !! i = Some (WCalling a u))
  \/ (exists i a, ws !! i = Some (WSleeping a))
  \/ ((exists i, ws !! i = Some WWaiting) /\ forall w, w ∈ ws -> holds_slot w = false).
Proof.
  induction ws as [|w ws IH].
  { left. intros w Hw. by apply elem_of_nil in Hw. }
  destruct w as [e| |a u|a|r].
  2: { destruct IH as [IH|[(i & a & u & Hi)|[(i & a & Hi)|[_ IH]]]].
       - right; right; right. split; [by exists 0|].
         intros w [->|Hw]%elem_of_cons; [done|].
         specialize (IH w Hw). by destruct w.
       - right; left. by exists (S i), a, u.
       - right; right; left. by exists (S i), a.
       - right; right; right. split; [by exists 0|].
         intros w [->|Hw]%elem_of_cons; [done|by apply IH]. }
  2: { right; left. by exists 0, a, u. }
  2: { right; right; left. by exists 0, a. }
  all: destruct IH as [IH|[(i & a & u & Hi)|[(i & a & Hi)|[[i Hi] IH]]]];
    [left; intros w [->|Hw]%elem_of_cons; [done|by apply IH]
    |right; left; by exists (S i), a, u
    |right; right; left; by exists (S i), a
    |right; right; right; split; [by exists (S i)|];
     intros w [->|Hw]%elem_of_cons; [done|by apply IH]].
Qed.

(** X11: the pool cannot get stuck.  With at least one slot, in every
    state the pool can reach either every worker has left [process_one]
    or some worker can run on to its next await: a worker at its call or
    in its sleep always can, and when every unfinished worker waits for a
    slot, all slots are free. *)
Theorem pool_never_deadlocks
    py_repr client system_prompt (to_process : list dict) capacity s :
  0 < capacity ->
  pool_reachable py_repr client system_prompt to_process capacity s ->
  (forall w, w ∈ workers s -> finished w = true)
  \/ exists s', pool_step py_repr client system_prompt to_process s s'.
Proof.
  intros Hcap Hreach.
  destruct (pool_reachable_slots _ _ _ _ _ _ Hreach) as [Hinv Hlen].
  assert (forall i w, workers s !! i = Some w -> exists q, to_process !! i = Some q) as Hq.
  { intros i w Hi. apply lookup_lt_is_Some_2. rewrite <- Hlen. by eapply lookup_lt_Some. }
  destruct s as [p ws]. cbn [permits workers] in *.
  destruct (workers_cases ws) as [Hfin|[(i & a & u & Hi)|[(i & a & Hi)|[[i Hi] Hfree]]]].
  - by left.
  - right. destruct (Hq i _ Hi) as [q Hqi]. eexists. by eapply step_reply.
  - right. destruct (Hq i _ Hi) as [q Hqi]. eexists. by eapply step_wake.
  - right. destruct (Hq i _ Hi) as [q Hqi].
    rewrite (count_none holds_slot ws Hfree) in Hinv.
    destruct p as [|p]; [lia|]. eexists. by eapply step_acquire.
Qed.

Lemma pool_never_deadlocks_witness :
  (forall w, w ∈ workers two_calling -> finished w = true)
  \/ exists s', pool_step repr_blank (fun _ => steady_chat) (build_system_prompt [])
                          five_questions two_calling s'.
Proof.
  apply (pool_never_deadlocks repr_blank (fun _ => steady_chat) (build_system_prompt [])
           five_questions 2 two_calling); [lia|apply two_calling_reachable].
Defined.


(** ** The pool comes to an end *)

Lemma budget_insert i old new (ws : list wstate) :
  ws !! i = Some old ->
  sum_list_with budget (<[i := new]> ws) + budget old
  = sum_list_with budget ws + budget new.
Proof.
  revert i. induction ws as [|w ws IH]; intros i Hi; [done|].
  destruct i as [|i].
  - injection Hi as ->. change (<[0 := new]> (old :: ws)) with (new :: ws).
    cbn [sum_list_with]. lia.
  - change (<[S i := new]> (w :: ws)) with (w :: <[i := new]> ws).
    cbn [sum_list_with]. specialize (IH i Hi). lia.
Qed.

Section PoolBudget.

Variable py_repr : json -> str.
Variable client : nat -> chat_client.
Variable system_prompt : str.
Variable to_process : list dict.

Lemma after_failure_budget q a : budget (after_failure q a) <= 2 * (MAX_RETRIES - a) + 1.
Proof.
  unfold after_failure. destruct (a <? MAX_RETRIES); cbn [budget]; lia.
Qed.

Lemma start_attempt_budget q a :
  budget (start_attempt py_repr q a) <= 2 * (MAX_RETRIES - a) + 2.
Proof.
  unfold start_attempt. destruct (build_user_prompt py_repr q); [cbn [budget]; lia|].
  pose proof (after_failure_budget q a). lia.
Qed.

Lemma on_reply_budget i q a user :
  budget (on_reply py_repr client system_prompt i q a user) <= 2 * (MAX_RETRIES - a) + 1.
Proof.
  unfold on_reply. destruct (handle_reply _ _); [cbn [budget]; lia|].
  apply after_failure_budget.
Qed.

Lemma on_wake_budget q a : budget (on_wake py_repr q a) <= 2 * (MAX_RETRIES - a).
Proof.
  unfold on_wake. destruct (S a <=? MAX_RETRIES) eqn:Hle; [|cbn [budget]; lia].
  apply Nat.leb_le in Hle. pose proof (start_attempt_budget q (S a)). lia.
Qed.

(** Every step of the pool uses up budget. *)
Lemma pool_step_budget s s' :
  pool_step py_repr client system_prompt to_process s s' ->
  pool_budget s' < pool_budget s.
Proof.
  intros Hstep.
  destruct Hstep as [i q p ws Hq Hi|i q a user p ws Hq Hi|i q a p ws Hq Hi];
    unfold pool_budget, settle; cbn [workers].
  - pose proof (budget_insert i _ (start_attempt py_repr q 1) ws Hi) as H.
    pose proof (start_attempt_budget q 1). cbn [budget] in H. unfold MAX_RETRIES in *. lia.
  - pose proof (budget_insert i _ (on_reply py_repr client system_prompt i q a user) ws Hi)
      as H.
    pose proof (on_reply_budget i q a user). cbn [budget] in H. lia.
  - pose proof (budget_insert i _ (on_wake py_repr q a) ws Hi) as H.
    pose proof (on_wake_budget q a). cbn [budget] in H. lia.
Qed.

Lemma pool_init_budget capacity :
  pool_budget (pool_init to_process capacity) <= (2 * MAX_RETRIES + 2) * length to_process.
Proof.
  unfold pool_budget, pool_init. cbn [workers].
  induction to_process as [|q qs IH]; [cbn; lia|].
  cbn [map sum_list_with length]. unfold spawn at 1.
  destruct (dict_item k_id q); cbn [budget]; lia.
Qed.

Lemma nsteps_budget n s s' :
  nsteps (pool_step py_repr client system_prompt to_process) n s s' ->
  n + pool_budget s' <= pool_budget s.
Proof.
  induction 1 as [s|n s1 s2 s3 Hstep _ IH]; [lia|].
  apply pool_step_budget in Hstep. lia.
Qed.

End PoolBudget.

(** X12: every schedule of the pool is finite.  From the start no
    sequence of worker steps is longer than eight per work item (one
    entry, and a call and a sleep for each of the three attempts at
    most), whatever the endpoint answers and however the event loop
    interleaves the workers: no worker retries for ever. *)
Theorem pool_runs_are_bounded
    py_repr client system_prompt (to_process : list dict) capacity n s :
  nsteps (pool_step py_repr client system_prompt to_process) n
         (pool_init to_process capacity) s ->
  n + pool_budget s <= 8 * length to_process.
Proof.
  intros H%nsteps_budget.
  pose proof (pool_init_budget to_process capacity) as Hb.
  unfold MAX_RETRIES in Hb. lia.
Qed.

Lemma pool_runs_are_bounded_witness :
  2 + pool_budget two_calling <= 8 * length five_questions.
Proof.
  apply (pool_runs_are_bounded repr_blank (fun _ => steady_chat) (build_system_prompt [])
           five_questions 2 2 two_calling).
  apply nsteps_l with first_calling.
  { apply (acquire_step _ _ _ _ 0 (numbered 1) 1 (map spawn five_questions));
      vm_compute; reflexivity. }
  apply nsteps_once.
  apply (acquire_step _ _ _ _ 1 (numbered 2) 0 (workers first_calling));
    vm_compute; reflexivity.
Defined.

(** ** What a worker sends *)

(** X13: what a worker sends and how long it waits.  For a record the
    request builder accepts, the worker makes between one and three
    requests, numbered from 1, each with the same system message and the
    same user message (a retry resends the payload as it was), and sleeps
    2, then 4, between them, never after the last.  For a record the
    request builder raises on, it sends nothing, yet sleeps 2 and 4 before
    it gives up.  Its trace starts by taking the slot and ends by giving it
    back.  A record without an identifier makes it raise [KeyError] before
    it takes the slot. *)
Theorem worker_payload_and_waits py_repr chat system_prompt (q : dict) :
  (forall qid tr r,
     dict_get k_id q = Some qid ->
     process_one py_repr chat system_prompt q = Ok (tr, r) ->
     head tr = Some EvAcquire /\ last tr = Some EvRelease
     /\ match build_user_prompt py_repr q with
        | Ok user =>
            exists k, 1 <= k <= 3
              /\ List.filter is_request tr = resent system_prompt user k
              /\ sleeps tr = backoff (k - 1)
        | Raise _ =>
            List.filter is_request tr = [] /\ sleeps tr = [2; 4]
            /\ r = Some (qid, None)
        end)
  /\ (dict_get k_id q = None ->
      process_one py_repr chat system_prompt q = Raise (KeyError (JStr k_id))).
Proof.
  split.
  - intros qid tr r Hid. unfold process_one, dict_item. rewrite Hid.
    cbn [mbind res_bind]. unfold MAX_RETRIES. cbn [seq attempt_loop]. unfold try_attempt.
    destruct (build_user_prompt py_repr q) as [user|e].
    + destruct (handle_reply py_repr (chat 1 system_prompt user)) as [r1|e1].
      { intros [= <- <-]. split; [done|]. split; [done|]. exists 1.
        split; [lia|]. split; reflexivity. }
      destruct (handle_reply py_repr (chat 2 system_prompt user)) as [r2|e2].
      { intros [= <- <-]. split; [done|]. split; [done|]. exists 2.
        split; [lia|]. split; reflexivity. }
      destruct (handle_reply py_repr (chat 3 system_prompt user)) as [r3|e3].
      { intros [= <- <-]. split; [done|]. split; [done|]. exists 3.
        split; [lia|]. split; reflexivity. }
      intros [= <- <-]. split; [done|]. split; [done|]. exists 3.
        split; [lia|]. split; reflexivity.
    + intros [= <- <-]. by repeat split.
  - intros Hid. unfold process_one, dict_item. by rewrite Hid.
Qed.

Lemma worker_payload_and_waits_witness :
  exists tr,
    process_one repr_blank steady_chat [] malformed_question
    = Ok (tr, Some (JInt 7, None))
    /\ List.filter is_request tr = [] /\ sleeps tr = [2; 4].
Proof.
  destruct (process_one repr_blank steady_chat [] malformed_question) as [[tr r]|e] eqn:H;
    [|vm_compute in H; discriminate].
  destruct (proj1 (worker_payload_and_waits repr_blank steady_chat [] malformed_question)
              (JInt 7) tr r eq_refl H) as (_ & _ & Hb).
  assert (exists e, build_user_prompt repr_blank malformed_question = Raise e) as [e He].
  { eexists. vm_compute. reflexivity. }
  rewrite He in Hb. destruct Hb as (H1 & H2 & ->).
  exists tr. split; [reflexivity|]. split; [exact H1|exact H2].
Defined.

(** ** Blank scenarios *)

Lemma strip_blank s : forallb is_space s = true -> strip s = [].
Proof.
  intros H. unfold strip, rstrip, lstrip. by rewrite (drop_while_all _ _ H).
Qed.

Lemma dict_item_set_ne k k' v d : k <> k' -> dict_item k' (dict_set k v d) = dict_item k' d.
Proof. intros H. unfold dict_item. by rewrite dict_get_set_ne. Qed.

Lemma dict_get_default_set_ne k k' v x d :
  k <> k' -> dict_get_default k' x (dict_set k v d) = dict_get_default k' x d.
Proof. intros H. unfold dict_get_default. by rewrite dict_get_set_ne. Qed.

Lemma k_scenario_other :
  k_scenario <> k_options /\ k_scenario <> k_correctAnswer
  /\ k_scenario <> k_question /\ k_scenario <> k_explanation.
Proof. repeat split; intros H; vm_compute in H; discriminate. Qed.

(** X14: a scenario that is empty or whitespace only is left out of the
    request: the query text of a record whose scenario is blank or absent
    does not change when the scenario is set to any blank text, so that
    such records are sent as if they had no scenario at all. *)
Theorem blank_scenario_is_left_out py_repr (q : dict) (s : str) :
  blank_scenario q = true ->
  forallb is_space s = true ->
  build_user_prompt py_repr (dict_set k_scenario (JStr s) q)
  = build_user_prompt py_repr q.
Proof.
  intros Hq Hs. destruct k_scenario_other as (H1 & H2 & H3 & H4).
  unfold build_user_prompt.
  rewrite (dict_item_set_ne k_scenario k_options) by done.
  rewrite (dict_item_set_ne k_scenario k_correctAnswer) by done.
  rewrite (dict_item_set_ne k_scenario k_question) by done.
  rewrite (dict_get_default_set_ne k_scenario k_explanation) by done.
  assert (forall q', blank_scenario q' = true ->
            match dict_get_default k_scenario (JStr []) q' with
            | JStr s' =>
                match strip s' with
                | [] => Ok []
                | _ => sc ← dict_item k_scenario q';
                       Ok (lit "
【背景场景】
" ++ py_format py_repr sc ++ [c_lf])
                end
            | _ => Raise AttributeError
            end = Ok []) as Hblank.
  { intros q'. unfold blank_scenario, dict_get_default.
    destruct (dict_get k_scenario q') as [[| | | |s'| |]|]; try done.
    intros Hs'. by rewrite (strip_blank s' Hs'). }
  rewrite (Hblank q Hq). rewrite Hblank; [done|].
  unfold blank_scenario. by rewrite dict_get_set_eq.
Qed.

Lemma blank_scenario_is_left_out_witness :
  build_user_prompt repr_blank
    (dict_set k_scenario (JStr [c_space; c_lf; c_tab]) example_question)
  = build_user_prompt repr_blank example_question.
Proof.
  apply blank_scenario_is_left_out; vm_compute; reflexivity.
Defined.

(** ** The exit status *)

Lemma mapM_res_raise {A B} (f : A -> res B) l e :
  mapM f l = Raise e -> exists x, x ∈ l /\ f x = Raise e.
Proof.
  induction l as [|x l IH]; [done|]. rewrite mapM_res_cons.
  destruct (f x) as [y|e'] eqn:Hx; cbn [mbind res_bind].
  - destruct (mapM f l) as [k|e'']; [done|]. cbn [mbind res_bind]. intros [= ->].
    destruct (IH eq_refl) as (x' & Hin & Hx'). exists x'. split; [|done].
    by apply list_elem_of_further.
  - intros [= ->]. exists x. split; [apply list_elem_of_here|done].
Qed.

Lemma load_questions_raise v e :
  load_questions v = Raise e -> e = TypeError \/ e = AttributeError.
Proof.
  destruct v; cbn [load_questions]; try (intros [= <-]; by left).
  intros (x & _ & Hx)%mapM_res_raise. right. destruct x; cbn in Hx; congruence.
Qed.



(** ** Admission without delay *)

Lemma count_waiting_holding ws :
  count is_waiting ws + count holds_slot ws <= length ws.
Proof.
  induction ws as [|w ws IH]; [done|]. rewrite !count_cons. cbn [length].
  destruct w; cbn [is_waiting holds_slot]; lia.
Qed.

Lemma count_waiting_pos ws i : ws !! i = Some WWaiting -> 0 < count is_waiting ws.
Proof.
  revert i. induction ws as [|w ws IH]; intros i Hi; [done|]. rewrite count_cons.
  destruct i as [|i]; [injection Hi as ->; cbn; lia|].
  specialize (IH i Hi). lia.
Qed.

(** X16: the limiter delays nobody while the work items are no more than
    the slots.  With at most [capacity] work items (20 in the program), in
    every state the pool can reach a worker that waits for a slot finds
    one free and can enter at once; only from the 21st work item on can a
    worker be held back. *)
Theorem pool_admits_at_once
    py_repr client system_prompt (to_process : list dict) capacity s i :
  length to_process <= capacity ->
  pool_reachable py_repr client system_prompt to_process capacity s ->
  workers s !! i = Some WWaiting ->
  0 < permits s
  /\ exists s', pool_step py_repr client system_prompt to_process s s'
                /\ exists w, workers s' !! i = Some w /\ is_waiting w = false.
Proof.
  intros Hcap Hreach Hi.
  destruct (pool_reachable_slots _ _ _ _ _ _ Hreach) as [Hinv Hlen].
  pose proof (count_waiting_holding (workers s)) as Hc.
  pose proof (count_waiting_pos _ _ Hi) as Hp.
  assert (0 < permits s) as Hfree by lia. split; [done|].
  assert (exists q, to_process !! i = Some q) as [q Hq].
  { apply lookup_lt_is_Some_2. rewrite <- Hlen. by eapply lookup_lt_Some. }
  destruct s as [p ws]. cbn [permits workers] in *.
  destruct p as [|p]; [lia|].
  eexists. split; [by eapply step_acquire|].
  unfold settle. cbn [workers]. eexists. split.
  - apply list_lookup_insert_eq. by eapply lookup_lt_Some.
  - unfold start_attempt. destruct (build_user_prompt py_repr q); [done|].
    unfold after_failure. by destruct (1 <? MAX_RETRIES).
Qed.

Lemma pool_admits_at_once_witness :
  0 < permits (pool_init five_questions CONCURRENCY)
  /\ exists s', pool_step repr_blank (fun _ => steady_chat) (build_system_prompt [])
                          five_questions (pool_init five_questions CONCURRENCY) s'
                /\ exists w, workers s' !! 4 = Some w /\ is_waiting w = false.
Proof.
  apply (pool_admits_at_once repr_blank (fun _ => steady_chat) (build_system_prompt [])
           five_questions CONCURRENCY (pool_init five_questions CONCURRENCY) 4).
  - vm_compute. lia.
  - apply rtc_refl.
  - vm_compute. reflexivity.
Defined.


(** ** What the parser returns *)

(** What the fallback pattern matches starts with [{] and ends with [}]. *)
Lemma search_braces_braced text m : search_braces text = Some m -> braced m.
Proof.
  unfold search_braces.
  destruct (drop_while (fun c => negb (N.eqb c c_lbrace)) text) as [|c t] eqn:Ht; [done|].
  pose proof (drop_while_head _ _ _ _ Ht) as Hc. cbn beta in Hc.
  apply negb_false_iff, N.eqb_eq in Hc. subst c.
  destruct (drop_while_split (fun c => negb (N.eqb c c_rbrace)) (rev (c_lbrace :: t)))
    as (w & Hw & _).
  destruct (drop_while (fun c => negb (N.eqb c c_rbrace)) (rev (c_lbrace :: t)))
    as [|c r] eqn:Hr; [done|].
  intros [= <-].
  pose proof (drop_while_head _ _ _ _ Hr) as Hc. cbn beta in Hc.
  apply negb_false_iff, N.eqb_eq in Hc. subst c.
  apply (f_equal (@rev _)) in Hw. rewrite rev_involutive, rev_app_distr in Hw.
  cbn [rev] in Hw. split.
  - destruct (rev r ++ [c_rbrace]) as [|x m'] eqn:Hm; [by destruct (rev r)|].
    cbn [app] in Hw. injection Hw as Hx _. cbn [head]. by rewrite <- Hx.
  - by rewrite last_snoc.
Qed.

(** A text that starts with [{] decodes to an object or not at all. *)
Lemma json_loads_braced m v :
  head m = Some c_lbrace -> json_loads m = Some v -> is_obj v = true.
Proof.
  destruct m as [|c r]; [done|]. intros [= ->]. unfold json_loads.
  assert (skip_ws (c_lbrace :: r) = c_lbrace :: r) as -> by done.
  destruct (scan_once _ _) as [[v' rest]|] eqn:Hs; [|done].
  destruct (skip_ws rest); [|done]. intros [= <-].
  cbn [scan_once] in Hs.
  change (c_lbrace =? c_quote)%N with false in Hs.
  change (c_lbrace =? c_lbrace)%N with true in Hs. cbn iota in Hs.
  destruct (skip_ws r) as [|c1 r1]; [done|].
  destruct (c1 =? c_rbrace)%N; [by injection Hs as <- _|].
  destruct (c1 =? c_quote)%N; [|done].
  destruct (scan_consumed (length (c_lbrace :: r))) as (_ & Hm & _).
  by destruct (Hm _ _ _ _ Hs) as (_ & _ & _ & Hobj & _).
Qed.



(** ** Resuming *)

(** The pairs of the tasks miss every record that is complete. *)
Lemma results_miss_complete py_repr client (qs : list dict) gdpr_text q ord results :
  NoDup (map key_of qs) ->
  Forall (fun q => is_Some (key_of q)) qs ->
  q ∈ qs -> is_complete q = true ->
  Forall2 (task_result py_repr client qs gdpr_text) ord results ->
  Forall (fun r => merged_fields r = None \/ result_key r <> key_of q) results.
Proof.
  intros Hnodup Hkeys Hin Hc Hres. apply Forall_forall. intros r Hr.
  apply list_elem_of_lookup_1 in Hr as [k Hk].
  destruct (Forall2_lookup_r _ _ _ _ _ Hres Hk) as (i & _ & Ht).
  destruct (task_result_inv py_repr client qs gdpr_text i r Ht) as (q' & Hq' & Hid & _).
  right. intros Heq.
  assert (key_of q' = key_of q) as Hkk
    by (rewrite (key_of_id q' r.1 Hid); exact Heq).
  apply list_elem_of_lookup_2, work_items_elem in Hq' as [Hin' Hc'].
  apply list_elem_of_lookup_1 in Hin as [j Hj].
  apply list_elem_of_lookup_1 in Hin' as [j' Hj'].
  assert (j' = j) as ->.
  { eapply (NoDup_lookup _ _ _ _ Hnodup).
    - by rewrite list_lookup_fmap, Hj'.
    - rewrite list_lookup_fmap, Hj. cbn. by rewrite Hkk. }
  rewrite Hj in Hj'. injection Hj' as <-. congruence.
Qed.


